(** * jot/values.js: the algebra of atomic-value operations

    A shallow embedding of the three operations of [jot/values.js]
    ([NO_OP], [SET], [MATH]) and of the part of the rebase/compose
    harness they are dispatched through, followed by the properties the
    specification states about them and by further properties of the
    code.

    JavaScript numbers are IEEE 754 binary64 values.  They are modelled
    by the Standard Library's [spec_float] at precision 53 with its
    round-to-nearest-even arithmetic, so [document + this.operand] is
    [num_add] and rounds exactly as the engine does.  The 32-bit
    operators ([&], [|], [^], [~]) go through [ToInt32]. *)

From Stdlib Require Import ZArith Bool List String Ascii Lia PeanoNat.
From Stdlib Require Import SpecFloat.
Import ListNotations.
Local Open Scope Z_scope.

(** ** Numbers *)

Definition number := spec_float.
Definition prec : Z := 53.
Definition emax : Z := 1024.

(** The double that an integer literal denotes. *)
Definition of_Z (z : Z) : number := binary_normalize prec emax z 0 false.

Definition num_add : number -> number -> number := SFadd prec emax.
Definition num_mul : number -> number -> number := SFmul prec emax.
Definition num_div : number -> number -> number := SFdiv prec emax.
Definition num_neg : number -> number := SFopp.
Definition num_sub : number -> number -> number := SFsub prec emax.

(** [x == y] and [x === y] on two numbers: NaN differs from itself and
    the two zeros are equal. *)
Definition num_eqb : number -> number -> bool := SFeqb.

(** [x % y]: the remainder takes the sign of the dividend and is always
    representable, so the final normalisation never rounds. *)
Definition num_rem (x y : number) : number :=
  match x, y with
  | S754_nan, _ | _, S754_nan => S754_nan
  | S754_infinity _, _ => S754_nan
  | _, S754_zero _ => S754_nan
  | S754_zero _, _ => x
  | S754_finite _ _ _, S754_infinity _ => x
  | S754_finite sx mx ex, S754_finite _ my ey =>
      let e := Z.min ex ey in
      binary_normalize prec emax
        (cond_Zopp sx (Z.rem (Z.shiftl (Zpos mx) (ex - e))
                             (Z.shiftl (Zpos my) (ey - e)))) e sx
  end.

(** The integer part of a number (0 for NaN and the infinities), the
    first step of the [ToInt32] conversion. *)
Definition trunc (x : number) : Z :=
  match x with
  | S754_finite s m e => cond_Zopp s (Z.shiftl (Zpos m) e)
  | _ => 0
  end.

(** [ToInt32]: reduce modulo 2^32 into the signed 32-bit range. *)
Definition ToInt32 (x : number) : Z :=
  let n := trunc x mod 2 ^ 32 in
  if 2 ^ 31 <=? n then n - 2 ^ 32 else n.

(** [Number.isInteger]. *)
Definition isInteger (x : number) : bool :=
  match x with
  | S754_zero _ => true
  | S754_finite _ m e => (0 <=? e) || (Z.land (Zpos m) (Z.ones (- e)) =? 0)
  | _ => false
  end.

(** The values of [spec_float] that are doubles: a finite one has its
    mantissa aligned on 53 bits (or on the least exponent, for the
    subnormal ones) and its exponent in range. *)
Definition is_double (x : number) : bool := valid_binary prec emax x.

(** Integers that a double holds exactly, whatever the operation that
    produced them: magnitude at most [Number.MAX_SAFE_INTEGER]. *)
Definition safe (z : Z) : Prop := Z.abs z < 2 ^ 53.

(** The range of the 32-bit operators. *)
Definition int32 (z : Z) : Prop := - 2 ^ 31 <= z < 2 ^ 31.

(** *** The exact value of a double

    A finite double is an integral multiple of 2^-1074, the least
    positive double: [ulps x] is that multiple.  An integer [z] of
    such units is [representable] when it is the value of a double: at
    most 53 significant bits, and within the range of the exponents.
    An addition or a multiplication is exact when the result in
    unbounded precision is representable: then nothing is rounded. *)
Definition finite (x : number) : bool :=
  match x with
  | S754_zero _ | S754_finite _ _ _ => true
  | _ => false
  end.

Definition real (x : number) : bool := is_double x && finite x.

Definition ulps (x : number) : Z :=
  match x with
  | S754_finite s m e => cond_Zopp s (Z.shiftl (Zpos m) (e - emin prec emax))
  | _ => 0
  end.

Definition representable (z : Z) : bool :=
  let n := Z.abs z in
  let k := Z.max (Z.log2 n + 1 - prec) 0 in
  (Z.land n (Z.ones k) =? 0) && (Z.log2 n + 1 <=? emax - emin prec emax).

Definition exact_add (x y : number) : bool :=
  real x && real y && representable (ulps x + ulps y).

Definition exact_mul (x y : number) : bool :=
  real x && real y
  && (ulps x * ulps y mod 2 ^ 1074 =? 0)
  && representable (ulps x * ulps y / 2 ^ 1074).

(** The reciprocal [1/k] is exact: [k * (1/k)] is 1 in unbounded
    precision. *)
Definition exact_reciprocal (k : number) : bool :=
  real k && real (num_div (of_Z 1) k)
  && (ulps k * ulps (num_div (of_Z 1) k) =? 2 ^ 2148).

(** The numbers that [ToInt32] leaves unchanged: the signed 32-bit
    integers (and negative zero, which [==] does not tell from zero). *)
Definition is_int32 (x : number) : bool := num_eqb x (of_Z (ToInt32 x)).

(** Two numbers are the same: identical, or equal as [==] compares
    them. *)
Definition same_number (x y : number) : Prop := x = y \/ num_eqb x y = true.

(** Four doubles with a fraction, for the examples: 0.25, 0.5, 0.75
    and 1.5. *)
Definition quarter : number := S754_finite false 4503599627370496 (-54).
Definition half : number := S754_finite false 4503599627370496 (-53).
Definition three_quarters : number := S754_finite false 6755399441055744 (-53).
Definition one_and_a_half : number := S754_finite false 6755399441055744 (-52).

(** Auxiliary descriptions of the doubles that hold integers: a
    mantissa shifted to 53 bits, and a sign with a magnitude (the sign
    of a zero is kept, as [-3 * 0] is [-0]). *)
Definition shl (p : positive) (n : nat) : positive := Nat.iter n xO p.

Definition canon (s : bool) (p : positive) : number :=
  S754_finite s (shl p (Z.to_nat (prec - Zpos (digits2_pos p))))
              (Zpos (digits2_pos p) - prec).

Definition of_sign (s : bool) (n : Z) : number :=
  match n with
  | Zpos p => canon s p
  | _ => S754_zero s
  end.

Definition signed (s : bool) (p : positive) : Z := cond_Zopp s (Zpos p).

(** ** Documents *)

#[local] Set Warnings "-register-all".

Inductive value : Type :=
  | VNull
  | VBool (b : bool)
  | VNum (x : number)
  | VStr (s : string)
  | VArr (items : list value).

(** Induction on documents, through the elements of arrays. *)
Fixpoint value_rect' (P : value -> Prop)
  (HNull : P VNull) (HBool : forall b, P (VBool b)) (HNum : forall x, P (VNum x))
  (HStr : forall s, P (VStr s))
  (HArr : forall l, Forall P l -> P (VArr l)) (v : value) : P v :=
  match v with
  | VNull => HNull
  | VBool b => HBool b
  | VNum x => HNum x
  | VStr s => HStr s
  | VArr l =>
      HArr l ((fix all (l : list value) : Forall P l :=
                 match l with
                 | [] => Forall_nil P
                 | x :: l' => Forall_cons x (value_rect' P HNull HBool HNum HStr HArr x) (all l')
                 end) l)
  end.

(** A call either returns or throws. *)
Inductive outcome (A : Type) : Type :=
  | Ret (a : A)
  | Raise.
Arguments Ret {A} a.
Arguments Raise {A}.

Definition bind {A B : Type} (x : outcome A) (f : A -> outcome B) : outcome B :=
  match x with
  | Ret a => f a
  | Raise => Raise
  end.

Notation "x <- e ;; k" := (bind e (fun x => k))
  (at level 61, e at next level, right associativity).

(** ** Operations *)

(** The operand of [and], [or] and [xor]: a number or a boolean. *)
Inductive scalar : Type :=
  | SNum (x : number)
  | SBool (b : bool).

(** [MATH(operator, operand)].  The operand has the shape the header of
    [values.js] gives it for each operator: a number for [add] and
    [mult], the pair [[increment, modulus]] for [rot], a number or a
    boolean for [and], [or] and [xor]; [not] ignores its operand. *)
Inductive math : Type :=
  | Madd (k : number)
  | Mmult (k : number)
  | Mrot (k m : number)
  | Mand (k : scalar)
  | Mor (k : scalar)
  | Mxor (k : scalar)
  | Mnot.

Inductive op : Type :=
  | NO_OP
  | SET (new_value : value)
  | MATH (m : math).

Definition operator (m : math) : string :=
  match m with
  | Madd _ => "add"
  | Mmult _ => "mult"
  | Mrot _ _ => "rot"
  | Mand _ => "and"
  | Mor _ => "or"
  | Mxor _ => "xor"
  | Mnot => "not"
  end.

Definition scalar_value (k : scalar) : value :=
  match k with
  | SNum x => VNum x
  | SBool b => VBool b
  end.

Definition operand (m : math) : value :=
  match m with
  | Madd k | Mmult k => VNum k
  | Mrot k md => VArr [VNum k; VNum md]
  | Mand k | Mor k | Mxor k => scalar_value k
  | Mnot => VNull
  end.

(** The numbers in the operand are doubles. *)
Definition math_doubles (m : math) : bool :=
  match m with
  | Madd k | Mmult k => is_double k
  | Mrot k md => is_double k && is_double md
  | Mand (SNum k) | Mor (SNum k) | Mxor (SNum k) => is_double k
  | _ => true
  end.

(** Coercions the bitwise operators apply to their arguments. *)
Definition bool_int32 (b : bool) : Z := if b then 1 else 0.

Definition scalar_int32 (k : scalar) : Z :=
  match k with
  | SNum x => ToInt32 x
  | SBool b => bool_int32 b
  end.

(** *** Conversion of a document to a number

    The bitwise operators convert their arguments with [ToNumber].  On
    a string that is [StringToNumber]: white space is trimmed, the
    empty text is 0, [Infinity] with an optional sign, a decimal
    literal with an optional sign, fraction and exponent, or an
    unsigned binary, octal or hexadecimal literal; any other text is
    NaN.  The value of the literal is rounded to the nearest double.
    Strings are sequences of code units below 256, of which 9 to 13, 32
    and 160 are white space. *)
Definition code (c : ascii) : Z := Z.of_N (N_of_ascii c).

Definition is_white_space (c : ascii) : bool :=
  existsb (Z.eqb (code c)) [9; 10; 11; 12; 13; 32; 160].

Fixpoint skip_white_space (l : list ascii) : list ascii :=
  match l with
  | c :: r => if is_white_space c then skip_white_space r else l
  | [] => []
  end.

Definition trim (l : list ascii) : list ascii :=
  rev (skip_white_space (rev (skip_white_space l))).

Definition digit_value (radix : Z) (c : ascii) : option Z :=
  let n := code c in
  let v := if (48 <=? n) && (n <=? 57) then n - 48
           else if (97 <=? n) && (n <=? 122) then n - 87
           else if (65 <=? n) && (n <=? 90) then n - 55
           else radix in
  if v <? radix then Some v else None.

(** The digits at the head of a text: their value, their number and
    the rest of the text. *)
Fixpoint read_digits (radix : Z) (l : list ascii) (acc n : Z) : Z * Z * list ascii :=
  match l with
  | c :: r =>
      match digit_value radix c with
      | Some v => read_digits radix r (acc * radix + v) (n + 1)
      | None => (acc, n, l)
      end
  | [] => (acc, n, [])
  end.

(** [0b], [0o] and [0x] literals. *)
Definition non_decimal (l : list ascii) : option Z :=
  match l with
  | z :: x :: r =>
      if code z =? 48 then
        let radix :=
          if (code x =? 98) || (code x =? 66) then 2
          else if (code x =? 111) || (code x =? 79) then 8
          else if (code x =? 120) || (code x =? 88) then 16
          else 0 in
        let '(v, n, rest) := read_digits radix r 0 0 in
        match rest with
        | [] => if 0 <? n then Some v else None
        | _ => None
        end
      else None
  | _ => None
  end.

(** The exponent part that ends a decimal literal, if any. *)
Definition exponent_part (l : list ascii) : option Z :=
  match l with
  | [] => Some 0
  | c :: r =>
      if (code c =? 101) || (code c =? 69) then
        let '(neg, r') :=
          match r with
          | s :: t => if code s =? 45 then (true, t)
                      else if code s =? 43 then (false, t)
                      else (false, r)
          | [] => (false, r)
          end in
        let '(v, n, rest) := read_digits 10 r' 0 0 in
        match rest with
        | [] => if 0 <? n then Some (if neg then - v else v) else None
        | _ => None
        end
      else None
  end.

(** An unsigned decimal literal as [mantissa * 10 ^ exponent]. *)
Definition unsigned_decimal (l : list ascii) : option (Z * Z) :=
  let '(i, ni, r1) := read_digits 10 l 0 0 in
  let '(f, nf, r2) :=
    match r1 with
    | c :: t => if code c =? 46 then read_digits 10 t 0 0 else (0, 0, r1)
    | [] => (0, 0, r1)
    end in
  if (0 <? ni) || (0 <? nf) then
    match exponent_part r2 with
    | Some e => Some (i * 10 ^ nf + f, e - nf)
    | None => None
    end
  else None.

(** The double nearest to [mantissa * 10 ^ exponent]. *)
Definition decimal_number (neg : bool) (mantissa exponent : Z) : number :=
  match mantissa with
  | Zpos p =>
      if 0 <=? exponent
      then binary_normalize prec emax (cond_Zopp neg (Zpos p * 10 ^ exponent)) 0 false
      else SFdiv prec emax (S754_finite neg p 0)
                           (S754_finite false (Z.to_pos (10 ^ (- exponent))) 0)
  | _ => S754_zero neg
  end.

Definition StringToNumber (s : string) : number :=
  let l := trim (list_ascii_of_string s) in
  match l with
  | [] => S754_zero false
  | c :: r =>
      match non_decimal l with
      | Some z => binary_normalize prec emax z 0 false
      | None =>
          let '(neg, u) :=
            if code c =? 45 then (true, r)
            else if code c =? 43 then (false, r)
            else (false, l) in
          if String.eqb (string_of_list_ascii u) "Infinity" then S754_infinity neg
          else
            match unsigned_decimal u with
            | Some (m, e) => decimal_number neg m e
            | None => S754_nan
            end
      end
  end.

(** An array converts through its text, the texts of its elements
    joined by commas.  An empty array and a [null] element give the
    empty text; the text of a number converts back to the number (of
    negative zero, to zero); two elements or more give a text with a
    comma, which is no literal. *)
Fixpoint text_number (v : value) : number :=
  match v with
  | VNull => S754_zero false
  | VBool _ => S754_nan
  | VNum x => match x with S754_zero _ => S754_zero false | _ => x end
  | VStr s => StringToNumber s
  | VArr l =>
      match l with
      | [] => S754_zero false
      | [e] => text_number e
      | _ => S754_nan
      end
  end.

Definition ToNumber (v : value) : number :=
  match v with
  | VNull => S754_zero false
  | VBool b => of_Z (bool_int32 b)
  | VNum x => x
  | VStr s => StringToNumber s
  | VArr _ => text_number v
  end.

(** [ToInt32] of a document. *)
Definition value_int32 (v : value) : Z :=
  match v with
  | VNull => 0
  | VBool b => bool_int32 b
  | VNum x => ToInt32 x
  | VStr _ | VArr _ => ToInt32 (ToNumber v)
  end.

(** [operand == 0], [operand === 0], [operand === false] and
    [a === b] on operands. *)
Definition scalar_loose_zero (k : scalar) : bool :=
  match k with
  | SNum x => num_eqb x (of_Z 0)
  | SBool b => negb b
  end.

Definition scalar_strict_zero (k : scalar) : bool :=
  match k with
  | SNum x => num_eqb x (of_Z 0)
  | SBool _ => false
  end.

Definition scalar_strict_false (k : scalar) : bool :=
  match k with
  | SNum _ => false
  | SBool b => negb b
  end.

Definition scalar_strict_eq (a b : scalar) : bool :=
  match a, b with
  | SNum x, SNum y => num_eqb x y
  | SBool x, SBool y => Bool.eqb x y
  | _, _ => false
  end.

(** *** NO_OP *)

Definition NO_OP_apply (document : value) : value := document.
Definition NO_OP_simplify : op := NO_OP.
Definition NO_OP_inverse (document : value) : op := NO_OP.
Definition NO_OP_atomic_compose (other : op) : op := other.

(** *** MATH *)

Definition MATH_apply (m : math) (document : value) : outcome value :=
  match document with
  | VNum d =>
      match m with
      | Madd k => Ret (VNum (num_add d k))
      | Mmult k => Ret (VNum (num_mul d k))
      | _ =>
          if isInteger d then
            match m with
            | Mrot k md => Ret (VNum (num_rem (num_add d k) md))
            | Mand k => Ret (VNum (of_Z (Z.land (ToInt32 d) (scalar_int32 k))))
            | Mor k => Ret (VNum (of_Z (Z.lor (ToInt32 d) (scalar_int32 k))))
            | Mxor k => Ret (VNum (of_Z (Z.lxor (ToInt32 d) (scalar_int32 k))))
            | Mnot => Ret (VNum (of_Z (Z.lnot (ToInt32 d))))
            | _ => Raise
            end
          else Raise
      end
  | VBool b =>
      match m with
      | Mand k => Ret (if b then scalar_value k else VBool b)
      | Mor k => Ret (if b then VBool b else scalar_value k)
      | Mxor k => Ret (VBool (negb (Z.lxor (bool_int32 b) (scalar_int32 k) =? 0)))
      | Mnot => Ret (VBool (negb b))
      | _ => Raise
      end
  | _ => Raise
  end.

Definition MATH_simplify (m : math) : op :=
  match m with
  | Madd k => if num_eqb k (of_Z 0) then NO_OP else MATH m
  | Mrot k md =>
      if num_eqb k (of_Z 0) then NO_OP else MATH (Mrot (num_rem k md) md)
  | Mmult k => if num_eqb k (of_Z 1) then NO_OP else MATH m
  | Mand k =>
      if scalar_strict_zero k then SET (VNum (of_Z 0))
      else if scalar_strict_false k then SET (VBool false)
      else MATH m
  | Mor k =>
      if scalar_strict_zero k then NO_OP
      else if scalar_strict_false k then NO_OP
      else MATH m
  | Mxor k => if scalar_loose_zero k then NO_OP else MATH m
  | Mnot => MATH m
  end.

Definition MATH_inverse (m : math) (document : value) : option op :=
  match m with
  | Madd k => Some (MATH (Madd (num_neg k)))
  | Mrot k md => Some (MATH (Mrot (num_neg k) md))
  | Mmult k => Some (MATH (Mmult (num_div (of_Z 1) k)))
  | Mand k =>
      Some (MATH (Mor (SNum (of_Z (Z.land (value_int32 document)
                                           (Z.lnot (scalar_int32 k)))))))
  | Mor k =>
      Some (MATH (Mxor (SNum (of_Z (Z.land (Z.lnot (value_int32 document))
                                            (scalar_int32 k))))))
  | Mxor _ => Some (MATH m)
  | Mnot => Some (MATH m)
  end.

Definition MATH_atomic_compose (m : math) (other : op) : option op :=
  match other with
  | MATH o =>
      match m, o with
      | Madd a, Madd b => Some (MATH_simplify (Madd (num_add a b)))
      | Mrot a ma, Mrot b mb =>
          if num_eqb ma mb then Some (MATH_simplify (Mrot (num_add a b) ma))
          else None
      | Mmult a, Mmult b => Some (MATH_simplify (Mmult (num_mul a b)))
      | Mand (SNum a), Mand (SNum b) =>
          Some (MATH_simplify (Mand (SNum (of_Z (Z.land (ToInt32 a) (ToInt32 b))))))
      | Mand (SBool a), Mand (SBool b) =>
          Some (MATH_simplify (Mand (SBool (a && b))))
      | Mor (SNum a), Mor (SNum b) =>
          Some (MATH_simplify (Mor (SNum (of_Z (Z.lor (ToInt32 a) (ToInt32 b))))))
      | Mor (SBool a), Mor (SBool b) =>
          Some (MATH_simplify (Mor (SBool (a || b))))
      | Mxor (SNum a), Mxor (SNum b) =>
          Some (MATH_simplify (Mxor (SNum (of_Z (Z.lxor (ToInt32 a) (ToInt32 b))))))
      | Mxor (SBool a), Mxor (SBool b) =>
          Some (MATH_simplify
                  (Mxor (SBool (negb (Z.lxor (bool_int32 a) (bool_int32 b) =? 0)))))
      | Mnot, Mnot => Some NO_OP
      | Mand a, Mor b =>
          if scalar_strict_eq a b then Some (SET (scalar_value a)) else None
      | Mor a, Mxor b =>
          if scalar_strict_eq a b then
            match a with
            | SNum x => Some (MATH (Mand (SNum (of_Z (Z.lnot (ToInt32 x))))))
            | SBool x => Some (MATH (Mand (SBool (negb x))))
            end
          else None
      | _, _ => None
      end
  | _ => None
  end.

(** *** SET *)

Definition SET_apply (new_value document : value) : value := new_value.
Definition SET_simplify (new_value : value) : op := SET new_value.
Definition SET_inverse (new_value document : value) : op := SET document.

(** *** The three operations together *)

Definition apply (o : op) (document : value) : outcome value :=
  match o with
  | NO_OP => Ret (NO_OP_apply document)
  | SET v => Ret (SET_apply v document)
  | MATH m => MATH_apply m document
  end.

Definition simplify (o : op) : op :=
  match o with
  | NO_OP => NO_OP_simplify
  | SET v => SET_simplify v
  | MATH m => MATH_simplify m
  end.

Definition inverse (o : op) (document : value) : option op :=
  match o with
  | NO_OP => Some (NO_OP_inverse document)
  | SET v => Some (SET_inverse v document)
  | MATH m => MATH_inverse m document
  end.

(** [SET.atomic_compose] calls [other.apply], which may throw; the
    [option] is the [null] of "no atomic operation is possible". *)
Definition SET_atomic_compose (new_value : value) (other : op) : outcome (option op) :=
  v <- apply other new_value ;; Ret (Some (simplify (SET v))).

Definition atomic_compose (o other : op) : outcome (option op) :=
  match o with
  | NO_OP => Ret (Some (NO_OP_atomic_compose other))
  | SET v => SET_atomic_compose v other
  | MATH m => Ret (MATH_atomic_compose m other)
  end.

(** ** Support routine for sequences *)

(** [Array.prototype.slice] and [String.prototype.slice] for integral
    indices: a negative index counts from the end, both are clamped to
    the length, and a missing end is the length. *)
Definition slice_index (len i : Z) : Z :=
  if i <? 0 then Z.max (len + i) 0 else Z.min i len.

Definition slice {A : Type} (l : list A) (start : Z) (stop : option Z) : list A :=
  let len := Z.of_nat (List.length l) in
  let k := slice_index len start in
  let final := match stop with Some e => slice_index len e | None => len end in
  firstn (Z.to_nat (final - k)) (skipn (Z.to_nat k) l).

Definition string_slice (s : string) (start : Z) (stop : option Z) : string :=
  string_of_list_ascii (slice (list_ascii_of_string s) start stop).

Definition SET_decompose_right (new_value : value) (at_new_index : Z) : option (op * op) :=
  match new_value with
  | VStr s =>
      Some (SET (VStr (string_slice s 0 (Some at_new_index))),
            SET (VStr (string_slice s at_new_index None)))
  | VArr l =>
      Some (SET (VArr (slice l 0 (Some at_new_index))),
            SET (VArr (slice l at_new_index None)))
  | _ => None
  end.

(** [NO_OP.decompose_right] and the [get_length_change] routines: the
    change in length of a sequence of length [old_length] when the
    operation is applied to it.  [SET] computes it by a subtraction of
    numbers and throws when its new value is not a sequence. *)
Definition NO_OP_decompose_right (at_old_index at_new_index : Z) : op * op :=
  (NO_OP, NO_OP).

Definition NO_OP_get_length_change (old_length : number) : number := of_Z 0.

Definition SET_get_length_change (new_value : value) (old_length : number)
  : outcome number :=
  match new_value with
  | VStr s => Ret (num_sub (of_Z (Z.of_nat (String.length s))) old_length)
  | VArr l => Ret (num_sub (of_Z (Z.of_nat (List.length l))) old_length)
  | _ => Raise
  end.

(** The [length] of a string or an array. *)
Definition value_length (v : value) : option Z :=
  match v with
  | VStr s => Some (Z.of_nat (String.length s))
  | VArr l => Some (Z.of_nat (List.length l))
  | _ => None
  end.

(** ** Rebase *)

(** [deepEqual(a, b, {strict: true})] of the deep-equal package:
    structural comparison, numbers by [===]. *)
Fixpoint deep_equal (a b : value) : bool :=
  match a, b with
  | VNull, VNull => true
  | VBool x, VBool y => Bool.eqb x y
  | VNum x, VNum y => num_eqb x y
  | VStr x, VStr y => String.eqb x y
  | VArr xs, VArr ys =>
      (fix all2 (xs ys : list value) : bool :=
         match xs, ys with
         | [], [] => true
         | x :: xs', y :: ys' => deep_equal x y && all2 xs' ys'
         | _, _ => false
         end) xs ys
  | _, _ => false
  end.

(** Documents that hold no NaN, the number that [deepEqual] tells apart
    from itself. *)
Definition no_nan_number (x : number) : bool :=
  match x with
  | S754_nan => false
  | _ => true
  end.

Fixpoint no_nan (v : value) : bool :=
  match v with
  | VNum x => no_nan_number x
  | VArr l => forallb no_nan l
  | _ => true
  end.

(** The [conflictless] argument of a rebase: absent (or falsy); a
    truthy value that is no object, such as [true]; or a record that
    may carry the prior document state under the key [document]. *)
Inductive conflictless : Type :=
  | Off
  | Truthy
  | On (document : option value).

Definition active (c : conflictless) : bool :=
  match c with
  | Off => false
  | Truthy => true
  | On _ => true
  end.

Fixpoint apply_list (ops : list op) (document : value) : outcome value :=
  match ops with
  | [] => Ret document
  | o :: rest => d <- apply o document ;; apply_list rest d
  end.

(** Modelled from the spec: [BaseOperation.prototype.compose] of
    [jot/index.js] is not among the sources.  The spec says of it: "compose
    (which builds a list if atomic_compose returns null)".  A list of
    operations applies them in sequence. *)
Definition compose (a b : op) : outcome (list op) :=
  r <- atomic_compose a b ;;
  Ret (match r with
       | Some c => [c]
       | None => [a; b]
       end).

(** The value [[operator, operand]] that [MATH] hands to [jot.cmp]. *)
Definition sort_key (m : math) : value := VArr [VStr (operator m); operand m].

Section RebaseFunctions.

(** [jot.cmp] is defined in [jot/index.js], which is not among the
    sources: the comparator is a parameter of the rebase functions. *)
Variable cmp : value -> value -> Z.

Definition SET_rebase_SET (this other : value) (c : conflictless) : option (op * op) :=
  if deep_equal this other then Some (NO_OP, NO_OP)
  else if active c && (cmp this other <? 0) then Some (NO_OP, SET other)
  else None.

Definition SET_rebase_MATH (this : value) (other : math) (c : conflictless)
  : option (op * op) :=
  Some (SET this, NO_OP).

Definition same_modulus (this other : math) : bool :=
  match this, other with
  | Mrot _ m1, Mrot _ m2 => num_eqb m1 m2
  | _, _ => false
  end.

(** The test [this.operator == other.operator && (this.operator != "rot"
    || this.operand[1] == other.operand[1])]. *)
Definition same_operator (this other : math) : bool :=
  String.eqb (operator this) (operator other)
  && (negb (String.eqb (operator this) "rot") || same_modulus this other).

(** The test [conflictless && "document" in conflictless]: the [in]
    operator throws a TypeError on a truthy value that is no object. *)
Definition MATH_rebase_MATH (this other : math) (c : conflictless)
  : outcome (option (op * op)) :=
  if same_operator this other
  then Ret (Some (MATH this, MATH other))
  else
    match c with
    | Off => Ret None
    | Truthy => Raise
    | On None => Ret None
    | On (Some document) =>
        if cmp (sort_key this) (sort_key other) <? 0 then
          l <- compose (MATH this) (MATH other) ;;
          v <- apply_list l document ;;
          Ret (Some (SET v, MATH other))
        else Ret None
    end.

(** The [rebase_functions] tables: [SET] registers a function for
    [SET] and one for [MATH], [MATH] registers one for [MATH]. *)
Definition rebase_functions (a b : op) (c : conflictless)
  : option (outcome (option (op * op))) :=
  match a, b with
  | SET v, SET w => Some (Ret (SET_rebase_SET v w c))
  | SET v, MATH m => Some (Ret (SET_rebase_MATH v m c))
  | MATH m, MATH o => Some (MATH_rebase_MATH m o c)
  | _, _ => None
  end.

Definition call_rebase_function (a b : op) (c : conflictless)
  : outcome (option (op * op)) :=
  match rebase_functions a b c with
  | Some r => r
  | None => Ret None
  end.

(** Modelled from the spec: [BaseOperation.prototype.rebase] of
    [jot/index.js] is not among the sources.  The spec gives the
    dispatch: a [NoOp] rebases to itself and anything rebased against a
    [NoOp] is unchanged; otherwise the function registered for the pair
    is called and its first component returned; "if A.rebase(B) is not
    found but B.rebase(A) is, the harness calls the converse and swaps
    the result".  The comments of [values.js] rely on the converse call
    also when the registered function returns [null] ("cmp > 0 is
    handled by a call to this function with the arguments reversed"). *)
Definition rebase (a b : op) (c : conflictless) : outcome (option op) :=
  match a, b with
  | NO_OP, _ => Ret (Some a)
  | _, NO_OP => Ret (Some a)
  | _, _ =>
      r <- call_rebase_function a b c ;;
      match r with
      | Some (a', _) => Ret (Some a')
      | None =>
          r' <- call_rebase_function b a c ;;
          match r' with
          | Some (_, a') => Ret (Some a')
          | None => Ret None
          end
      end
  end.

End RebaseFunctions.

(** The rank of the type of a document in the reference order of the
    spec: null < bool < number < string < array. *)
Definition type_rank (v : value) : Z :=
  match v with
  | VNull => 0
  | VBool _ => 1
  | VNum _ => 2
  | VStr _ => 3
  | VArr _ => 4
  end.

(** Modelled from the spec: [jot.cmp] of [jot/index.js] is not among the
    sources.  This is the reference order of the spec, "compare by
    (type-rank, then lexicographic/numeric order within the type), where
    type-rank is null < bool < number < string < array". *)
Fixpoint compare_values (a b : value) : comparison :=
  match a, b with
  | VNull, VNull => Eq
  | VBool x, VBool y => Bool.compare x y
  | VNum x, VNum y =>
      match SFcompare x y with
      | Some c => c
      | None => Eq
      end
  | VStr x, VStr y => String.compare x y
  | VArr xs, VArr ys =>
      (fix lex (xs ys : list value) : comparison :=
         match xs, ys with
         | [], [] => Eq
         | [], _ :: _ => Lt
         | _ :: _, [] => Gt
         | x :: xs', y :: ys' =>
             match compare_values x y with
             | Eq => lex xs' ys'
             | c => c
             end
         end) xs ys
  | _, _ => Z.compare (type_rank a) (type_rank b)
  end.

(** Modelled from the spec: the reference order as the number that
    [jot.cmp] returns, negative when [a] is below [b]. *)
Definition cmp_reference (a b : value) : Z :=
  match compare_values a b with
  | Lt => -1
  | Eq => 0
  | Gt => 1
  end.

(** ** Where the properties of the algebra hold

    The arithmetic of [MATH] is the arithmetic of doubles, and the
    properties of the algebra hold where it does not round. *)

(** [o] applies to [document]: [apply] returns. *)
Definition applies (o : op) (document : value) : bool :=
  match apply o document with
  | Ret _ => true
  | Raise => false
  end.

(** The operand of [and], [or] or [xor] has the primitive type of the
    document. *)
Definition typed (k : scalar) (document : value) : bool :=
  match k, document with
  | SNum _, VNum _ | SBool _, VBool _ => true
  | _, _ => false
  end.

(** Two documents are the same: identical, or equal as [deepEqual]
    compares them (negative zero is zero).  Two calls have the same
    outcome when both throw or both return the same document. *)
Definition same_document (v w : value) : Prop := v = w \/ deep_equal v w = true.

Definition same_outcome (r s : outcome value) : Prop :=
  match r, s with
  | Ret v, Ret w => same_document v w
  | Raise, Raise => True
  | _, _ => False
  end.

(** Two finite numbers do not have opposite signs.  The remainder [%]
    takes the sign of its dividend, so that two dividends that differ by
    a multiple of the modulus have the same remainder only where their
    signs agree. *)
Definition agree_in_sign (x y : number) : Prop := 0 <= ulps x * ulps y.

(** [m] applies to [document] without rounding: the sum or the product
    of the document and the operand is exact; [rot] has a finite modulus
    other than zero, and the sum of the integer document and the
    increment is exact; [and], [or], [xor] and [not] apply to an integer
    of any magnitude whatever the operand, or to a boolean with a
    boolean operand. *)
Definition applies_exactly (m : math) (document : value) : Prop :=
  match m, document with
  | Madd k, VNum x => exact_add x k = true
  | Mmult k, VNum x => exact_mul x k = true
  | Mrot k md, VNum x =>
      isInteger x = true /\ exact_add x k = true
      /\ real md = true /\ ulps md <> 0
  | (Mand _ | Mor _ | Mxor _ | Mnot), VNum x => isInteger x = true
  | (Mand k | Mor k | Mxor k), VBool _ => typed k document = true
  | Mnot, VBool _ => True
  | _, _ => False
  end.

(** What is asked of the operation that comes last in a sequence: the
    sum or the product of an [add] or a [mult] may be rounded, since one
    rounding at the end is the same whatever the order; [rot], [and],
    [or], [xor] and [not] apply exactly. *)
Definition applies_last (m : math) (document : value) : Prop :=
  match m, document with
  | (Madd _ | Mmult _), VNum _ => True
  | _, _ => applies_exactly m document
  end.

(** The documents on which [simplify] keeps the result of an operation
    that it changes.  [add 0]: a number.  [mult 1]: a number.
    [rot [0, m]]: an integer smaller in magnitude than the finite
    modulus.  [rot [k, m]]: an integer to which [k] and [k % m] are added
    exactly, where the two sums do not have opposite signs.  [and 0]: an
    integer, or [true].  [and false]: a boolean.  [or] and [xor] of 0 or
    false: a signed 32-bit integer (the operators reduce every other
    integer modulo 2^32); or a boolean, which for [or 0] is [true]. *)
Definition simplify_regime (o : op) (document : value) : Prop :=
  simplify o = o \/
  match o, document with
  | MATH (Madd _), VNum _ => True
  | MATH (Mmult _), VNum x => is_double x = true
  | MATH (Mrot k md), VNum x =>
      isInteger x = true /\ real x = true /\ real md = true
      /\ if num_eqb k (of_Z 0) then Z.abs (ulps x) < Z.abs (ulps md)
         else ulps md <> 0
              /\ exact_add x k = true /\ exact_add x (num_rem k md) = true
              /\ agree_in_sign (num_add x k) (num_add x (num_rem k md))
  | MATH (Mand (SNum _)), VNum x => isInteger x = true
  | MATH (Mand (SNum _)), VBool b => b = true
  | MATH (Mand (SBool _)), VBool _ => True
  | MATH (Mor _), VNum x | MATH (Mxor _), VNum x => is_int32 x = true
  | MATH (Mor (SNum _)), VBool b => b = true
  | MATH (Mor (SBool _)), VBool _ => True
  | MATH (Mxor _), VBool _ => True
  | _, _ => False
  end.

(** The operand that [atomic_compose] computes for two operations is
    exact, and the operation it returns keeps the result.  Two [add],
    two [mult]: the sum or the product of the operands is exact.  Two
    [rot] of the same modulus: the sum of the increments is exact; where
    it is zero the document is smaller in magnitude than the modulus,
    and otherwise the reduced sum is added exactly to the document; the
    number that the second [rot] reduces and the one that the composition
    reduces (the document, where the composition is a NO_OP) do not have
    opposite signs.  Two [and] with boolean operands on a number: both
    operands are true.  Two [or] or two [xor] on a number: the document
    is a signed 32-bit integer, or the operand of the composition is not
    0 (and the composition no NO_OP).  Two [not] on a number: the
    document is a signed 32-bit integer.  [and] then [or] of the same
    operand on a number: the operand is a number and a signed 32-bit
    integer.  [or] then [xor] of the same operand on a number: the
    operand is a number, or the document is 0 or 1 modulo 2^32. *)
Definition fuses_exactly (a b : math) (document : value) : Prop :=
  match a, b, document with
  | Madd ka, Madd kb, VNum _ => exact_add ka kb = true
  | Mmult ka, Mmult kb, VNum _ => exact_mul ka kb = true
  | Mrot ka md, Mrot kb _, VNum x =>
      exact_add ka kb = true
      /\ if num_eqb (num_add ka kb) (of_Z 0)
         then Z.abs (ulps x) < Z.abs (ulps md)
              /\ agree_in_sign (num_add (num_rem (num_add x ka) md) kb) x
         else exact_add x (num_rem (num_add ka kb) md) = true
              /\ agree_in_sign (num_add (num_rem (num_add x ka) md) kb)
                               (num_add x (num_rem (num_add ka kb) md))
  | Mand (SBool ka), Mand (SBool kb), VNum _ => ka && kb = true
  | Mor ka, Mor kb, VNum x =>
      is_int32 x = true \/ Z.lor (scalar_int32 ka) (scalar_int32 kb) <> 0
  | Mxor ka, Mxor kb, VNum x =>
      is_int32 x = true \/ Z.lxor (scalar_int32 ka) (scalar_int32 kb) <> 0
  | Mnot, Mnot, VNum x => is_int32 x = true
  | Mand ka, Mor kb, VNum _ =>
      scalar_strict_eq ka kb = true ->
      match ka with
      | SNum k => is_int32 k = true
      | SBool _ => False
      end
  | Mor ka, Mxor kb, VNum x =>
      scalar_strict_eq ka kb = true ->
      typed ka document = true \/ ToInt32 x = 0 \/ ToInt32 x = 1
  | _, _, _ => True
  end.

(** The regime of the composition: nothing is asked of a NO_OP or a
    SET that comes first; a MATH applies exactly to the document, the
    MATH that follows applies to its result (exactly, but for the sum
    of an [add] and the product of a [mult]), and the two fuse
    exactly. *)
Definition compose_regime (A B : op) (document : value) : Prop :=
  match A, B with
  | MATH a, MATH b =>
      applies_exactly a document
      /\ (forall d', apply A document = Ret d' -> applies_last b d')
      /\ fuses_exactly a b document
  | _, _ => True
  end.

(** The operations whose inverse restores the document: NO_OP and SET
    on every document; [add] where the sum is exact; [mult] where the
    product is exact and the reciprocal of the operand is exact; [and],
    [or], [xor] and [not] on a signed 32-bit integer, with any operand;
    [or] and [xor] with a boolean operand, and [not], on a boolean.
    ([rot], and [and] on a boolean, are left out.) *)
Definition invertible (o : op) (document : value) : Prop :=
  match o, document with
  | NO_OP, _ => True
  | SET _, _ => True
  | MATH (Madd k), VNum x => exact_add x k = true
  | MATH (Mmult k), VNum x => exact_mul x k = true /\ exact_reciprocal k = true
  | MATH (Mand _), VNum x
  | MATH (Mor _), VNum x
  | MATH (Mxor _), VNum x
  | MATH Mnot, VNum x => is_int32 x = true
  | MATH (Mor (SBool _)), VBool _
  | MATH (Mxor (SBool _)), VBool _
  | MATH Mnot, VBool _ => True
  | _, _ => False
  end.

(** Two MATHs with the same operator commute on the document: each
    applies exactly to the document, and to the result of the other
    (exactly, but for the sum of an [add] and the product of a [mult]);
    for two [rot] the numbers that are reduced last in the two orders do
    not have opposite signs. *)
Definition commutes_exactly (a b : math) (document : value) : Prop :=
  applies_exactly a document /\ applies_exactly b document
  /\ (forall d', apply (MATH a) document = Ret d' -> applies_last b d')
  /\ (forall d', apply (MATH b) document = Ret d' -> applies_last a d')
  /\ match a, b, document with
     | Mrot ka ma, Mrot kb mb, VNum x =>
         agree_in_sign (num_add (num_rem (num_add x ka) ma) kb)
                       (num_add (num_rem (num_add x kb) mb) ka)
     | _, _, _ => True
     end.

(** Of two MATHs with different operators, the rebase replaces the
    lower one by the SET of the result of the lower one followed by the
    higher one.  Both apply to the document and the higher one to the
    result of the lower one; where [atomic_compose] fuses the two, the
    regime of the composition holds. *)
Definition lower_first (lower higher : math) (document : value) : Prop :=
  applies (MATH higher) document = true
  /\ match MATH_atomic_compose lower (MATH higher) with
     | Some _ => compose_regime (MATH lower) (MATH higher) document
     | None =>
         exists d', apply (MATH lower) document = Ret d'
                    /\ applies (MATH higher) d' = true
     end.

(** The regime of the diamond.  Against a NO_OP or a SET, an operation
    applies to the document.  The values of two SETs are deep-equal or
    hold no NaN.  Two MATHs with the same operator (and the same
    modulus) commute exactly.  The operands of two MATHs with different
    operators hold no NaN, and the one that [cmp] puts lower comes
    first. *)
Definition diamond_regime (cmp : value -> value -> Z) (A B : op) (document : value)
  : Prop :=
  match A, B with
  | NO_OP, _ => applies B document = true
  | _, NO_OP => applies A document = true
  | SET a, SET b => deep_equal a b = true \/ (no_nan a = true /\ no_nan b = true)
  | SET _, MATH _ => applies B document = true
  | MATH _, SET _ => applies A document = true
  | MATH a, MATH b =>
      if same_operator a b then commutes_exactly a b document
      else
        no_nan (operand a) = true /\ no_nan (operand b) = true
        /\ (cmp (sort_key a) (sort_key b) < 0 -> lower_first a b document)
        /\ (cmp (sort_key b) (sort_key a) < 0 -> lower_first b a document)
  end.

(** * Exact arithmetic on the doubles that hold integers

    Below 2^53 in magnitude, sums, products and remainders of integers
    are computed without rounding.  The lemmas of this part reduce the
    operations of [spec_float] on such values to the operations of [Z]. *)

Lemma shl_S p n : shl p (S n) = xO (shl p n).
Proof. reflexivity. Qed.

Lemma shl_add p n k : shl (shl p n) k = shl p (k + n).
Proof. unfold shl. now rewrite Nat.iter_add. Qed.

Lemma Zpos_shl p n : Zpos (shl p n) = Zpos p * 2 ^ Z.of_nat n.
Proof.
  induction n as [|n IH].
  - simpl. lia.
  - rewrite shl_S, Nat2Z.inj_succ, Z.pow_succ_r by lia.
    rewrite Pos2Z.inj_xO, IH. lia.
Qed.

Lemma digits_shl p n :
  Zpos (digits2_pos (shl p n)) = Zpos (digits2_pos p) + Z.of_nat n.
Proof.
  induction n as [|n IH].
  - simpl. lia.
  - rewrite shl_S. cbn [digits2_pos]. rewrite Pos2Z.inj_succ, IH. lia.
Qed.

Lemma pos_iter_shl p d : Pos.iter xO p d = shl p (Pos.to_nat d).
Proof. unfold shl. rewrite Pos2Nat.inj_iter. 
  induction (Pos.to_nat d); simpl; congruence. Qed.

Lemma iter_pos_nat {A} (f : A -> A) n x :
  iter_pos f n x = Nat.iter (Pos.to_nat n) f x.
Proof.
  revert x. induction n as [n IH|n IH|]; intro x; cbn [iter_pos].
  - rewrite !IH, Pos2Nat.inj_xI. 
    replace (S (2 * Pos.to_nat n))%nat with (Pos.to_nat n + (Pos.to_nat n + 1))%nat by lia.
    rewrite !Nat.iter_add. reflexivity.
  - rewrite !IH, Pos2Nat.inj_xO.
    replace (2 * Pos.to_nat n)%nat with (Pos.to_nat n + Pos.to_nat n)%nat by lia.
    rewrite Nat.iter_add. reflexivity.
  - reflexivity.
Qed.

Lemma shr_1_shl p n :
  shr_1 (Build_shr_record (Zpos (shl p (S n))) false false)
  = Build_shr_record (Zpos (shl p n)) false false.
Proof. reflexivity. Qed.

Lemma iter_shr_shl p j n :
  Nat.iter n shr_1 (Build_shr_record (Zpos (shl p (n + j))) false false)
  = Build_shr_record (Zpos (shl p j)) false false.
Proof.
  induction n as [|n IH]; [reflexivity|].
  rewrite Nat.iter_succ_r. cbn [Nat.add]. rewrite shr_1_shl. exact IH.
Qed.

(* digits and bounds *)
Lemma digits_log2 p : Zpos (digits2_pos p) = Z.log2 (Zpos p) + 1.
Proof.
  induction p as [p IH|p IH|]; cbn [digits2_pos]; try reflexivity.
  - rewrite Pos2Z.inj_succ, IH. 
    change (Zpos p~1) with (2 * Zpos p + 1). rewrite Z.log2_succ_double by lia. lia.
  - rewrite Pos2Z.inj_succ, IH.
    change (Zpos p~0) with (2 * Zpos p). rewrite Z.log2_double by lia. lia.
Qed.

Lemma digits_le p n : 0 <= n -> Zpos p < 2 ^ n -> Zpos (digits2_pos p) <= n.
Proof.
  intros Hn H. rewrite digits_log2.
  apply Z.log2_lt_pow2 in H; lia.
Qed.

Lemma fexp_small d : 1 <= d -> fexp prec emax d = d - prec.
Proof. unfold fexp, emin, prec, emax. lia. Qed.

Lemma round_aux_canonical s m e :
  canonical_mantissa prec emax m e = true -> e <= emax - prec ->
  binary_round_aux prec emax s (Zpos m) e loc_Exact = S754_finite s m e.
Proof.
  unfold canonical_mantissa. intros Hc He. apply Z.eqb_eq in Hc.
  unfold binary_round_aux, shr_fexp. cbn [Zdigits2 shr_record_of_loc].
  rewrite Hc, Z.sub_diag. cbn [shr shr_m loc_of_shr_record round_nearest_even Zdigits2].
  rewrite Hc, Z.sub_diag. cbn [shr shr_m].
  apply Z.leb_le in He. now rewrite He.
Qed.

Lemma canon_canonical p :
  Zpos (digits2_pos p) <= prec ->
  canonical_mantissa prec emax
    (shl p (Z.to_nat (prec - Zpos (digits2_pos p)))) (Zpos (digits2_pos p) - prec) = true.
Proof.
  intro H. unfold canonical_mantissa. apply Z.eqb_eq.
  rewrite digits_shl, Z2Nat.id by lia.
  unfold fexp, emin, prec, emax in *. lia.
Qed.

(* the rounding of p * 2^k at exponent -k is exact when p fits in 53 bits *)
Lemma round_aux_scaled s p k :
  Zpos (digits2_pos p) <= prec ->
  (Z.to_nat (prec - Zpos (digits2_pos p)) <= k)%nat ->
  binary_round_aux prec emax s (Zpos (shl p k)) (- Z.of_nat k) loc_Exact = canon s p.
Proof.
  intros Hd Hk.
  set (j := Z.to_nat (prec - Zpos (digits2_pos p))) in *.
  assert (Hj : Z.of_nat j = prec - Zpos (digits2_pos p)) by (unfold j; lia).
  destruct (Nat.eq_dec k j) as [->|Hne].
  - rewrite round_aux_canonical.
    + unfold canon. fold j. f_equal. lia.
    + replace (- Z.of_nat j) with (Zpos (digits2_pos p) - prec) by lia.
      now apply canon_canonical.
    + unfold prec, emax in *. lia.
  - unfold binary_round_aux, shr_fexp. cbn [Zdigits2 shr_record_of_loc].
    rewrite digits_shl.
    rewrite fexp_small by lia.
    replace (Zpos (digits2_pos p) + Z.of_nat k + - Z.of_nat k - prec - - Z.of_nat k)
      with (Z.of_nat (k - j)) by lia.
    destruct (Z.of_nat (k - j)) as [|q|q] eqn:Eq; try lia.
    cbn [shr]. rewrite iter_pos_nat.
    replace (Pos.to_nat q) with (k - j)%nat by lia.
    replace (shl p k) with (shl p ((k - j) + j)) by (f_equal; lia).
    rewrite iter_shr_shl. cbn [shr_m loc_of_shr_record round_nearest_even].
    cbn [Zdigits2]. 
    replace (- Z.of_nat k + Z.pos q) with (Zpos (digits2_pos p) - prec) by lia.
    pose proof (canon_canonical p Hd) as Hc. fold j in Hc.
    unfold canonical_mantissa in Hc. apply Z.eqb_eq in Hc.
    rewrite Hc, Z.sub_diag. cbn [shr shr_m].
    replace (Zpos (digits2_pos p) - prec <=? emax - prec) with true
      by (symmetry; apply Z.leb_le; unfold prec, emax in *; lia).
    reflexivity.
Qed.

Lemma round_scaled s p k :
  Zpos (digits2_pos p) <= prec ->
  binary_round prec emax s (shl p k) (- Z.of_nat k) = canon s p.
Proof.
  intro Hd. unfold binary_round, shl_align.
  rewrite digits_shl, fexp_small by lia.
  set (j := Z.to_nat (prec - Zpos (digits2_pos p))).
  assert (Hj : Z.of_nat j = prec - Zpos (digits2_pos p)) by (unfold j; lia).
  destruct (Zpos (digits2_pos p) + Z.of_nat k + - Z.of_nat k - prec - - Z.of_nat k)
    as [|q|q] eqn:Eq.
  - apply round_aux_scaled; [assumption|fold j; lia].
  - apply round_aux_scaled; [assumption|fold j; lia].
  - rewrite pos_iter_shl, shl_add.
    replace (Pos.to_nat q + k)%nat with j by lia.
    replace (Zpos (digits2_pos p) + Z.of_nat k + - Z.of_nat k - prec)
      with (Zpos (digits2_pos p) - prec) by lia.
    rewrite round_aux_canonical.
    + reflexivity.
    + now apply canon_canonical.
    + unfold prec, emax in *. lia.
Qed.

Lemma safe_digits p : Zpos p < 2 ^ 53 -> Zpos (digits2_pos p) <= prec.
Proof. intro H. apply digits_le; unfold prec; lia. Qed.

Lemma shl_0 p : shl p 0 = p.
Proof. reflexivity. Qed.

Lemma of_Z_pos p : Zpos p < 2 ^ 53 -> of_Z (Zpos p) = canon false p.
Proof.
  intro H. unfold of_Z, binary_normalize.
  rewrite <- (shl_0 p) at 1. apply (round_scaled false p 0). now apply safe_digits.
Qed.

Lemma of_Z_neg p : Zpos p < 2 ^ 53 -> of_Z (Zneg p) = canon true p.
Proof.
  intro H. unfold of_Z, binary_normalize.
  rewrite <- (shl_0 p) at 1. apply (round_scaled true p 0). now apply safe_digits.
Qed.

Lemma of_Z_of_sign z : safe z -> of_Z z = of_sign (z <? 0) (Z.abs z).
Proof.
  unfold safe. destruct z as [|p|p]; cbn [Z.abs Z.ltb Z.compare of_sign]; intro H.
  - reflexivity.
  - now apply of_Z_pos.
  - now apply of_Z_neg.
Qed.

(* normalisation of a scaled integer *)
Lemma normalize_scaled z k sz :
  safe z -> z <> 0 ->
  binary_normalize prec emax (z * 2 ^ Z.of_nat k) (- Z.of_nat k) sz = of_Z z.
Proof.
  intros Hs Hz. rewrite (of_Z_of_sign z Hs).
  unfold safe in Hs.
  destruct z as [|p|p]; [congruence| |].
  - rewrite <- Zpos_shl. cbn. apply round_scaled. now apply safe_digits.
  - change (Z.neg p) with (- Zpos p). rewrite Z.mul_opp_l, <- Zpos_shl. cbn.
    apply round_scaled. now apply safe_digits.
Qed.

Lemma normalize_scaled0 z k :
  safe z ->
  binary_normalize prec emax (z * 2 ^ Z.of_nat k) (- Z.of_nat k) false = of_Z z.
Proof.
  intros Hs. destruct (Z.eq_dec z 0) as [->|Hz]; [reflexivity|].
  now apply normalize_scaled.
Qed.

Lemma canon_exp_nonpos p :
  Zpos (digits2_pos p) - prec <= 0 -> 
  Zpos (digits2_pos p) - prec = - Z.of_nat (Z.to_nat (prec - Zpos (digits2_pos p))).
Proof. lia. Qed.

(* aligning a canonical integer mantissa on a lower exponent *)
Lemma shl_align_canon p (j : nat) :
  Zpos (digits2_pos p) <= prec ->
  (Z.to_nat (prec - Zpos (digits2_pos p)) <= j)%nat ->
  fst (shl_align (shl p (Z.to_nat (prec - Zpos (digits2_pos p))))
         (Zpos (digits2_pos p) - prec) (- Z.of_nat j)) = shl p j.
Proof.
  intros Hd Hj. unfold shl_align.
  destruct (- Z.of_nat j - (Zpos (digits2_pos p) - prec)) as [|q|q] eqn:E; cbn [fst].
  - f_equal. lia.
  - lia.
  - rewrite pos_iter_shl, shl_add. f_equal. lia.
Qed.

Lemma add_canon s1 p1 s2 p2 :
  Zpos p1 < 2 ^ 53 -> Zpos p2 < 2 ^ 53 -> safe (signed s1 p1 + signed s2 p2) ->
  SFadd prec emax (canon s1 p1) (canon s2 p2) = of_Z (signed s1 p1 + signed s2 p2).
Proof.
  intros H1 H2 Hs.
  pose proof (safe_digits p1 H1) as D1. pose proof (safe_digits p2 H2) as D2.
  unfold canon, SFadd.
  set (j1 := Z.to_nat (prec - Zpos (digits2_pos p1))).
  set (j2 := Z.to_nat (prec - Zpos (digits2_pos p2))).
  set (j := Nat.max j1 j2).
  replace (Z.min (Zpos (digits2_pos p1) - prec) (Zpos (digits2_pos p2) - prec))
    with (- Z.of_nat j) by (unfold j, j1, j2; lia).
  unfold j1, j2. rewrite !shl_align_canon by (try assumption; unfold j, j1, j2; lia).
  rewrite !Zpos_shl.
  replace (cond_Zopp s1 (Zpos p1 * 2 ^ Z.of_nat j) + cond_Zopp s2 (Zpos p2 * 2 ^ Z.of_nat j))
    with ((signed s1 p1 + signed s2 p2) * 2 ^ Z.of_nat j)
    by (unfold signed; destruct s1, s2; cbn [cond_Zopp]; lia).
  now apply normalize_scaled0.
Qed.

Theorem add_exact a b :
  safe a -> safe b -> safe (a + b) ->
  SFadd prec emax (of_Z a) (of_Z b) = of_Z (a + b).
Proof.
  intros Ha Hb Hab.
  rewrite (of_Z_of_sign a Ha), (of_Z_of_sign b Hb).
  unfold safe in Ha, Hb.
  destruct a as [|p|p], b as [|q|q]; cbn [Z.abs Z.ltb Z.compare of_sign] in *;
    try reflexivity;
    try (rewrite ?Z.add_0_r, ?Z.add_0_l; cbn [SFadd canon];
         first [ symmetry; now apply of_Z_pos | symmetry; now apply of_Z_neg ]).
  - apply (add_canon false p false q); assumption.
  - apply (add_canon false p true q); assumption.
  - apply (add_canon true p false q); assumption.
  - apply (add_canon true p true q); assumption.
Qed.

Lemma digits_mul_ge p q :
  Zpos (digits2_pos p) + Zpos (digits2_pos q) - 1 <= Zpos (digits2_pos (p * q)).
Proof.
  rewrite !digits_log2, Pos2Z.inj_mul.
  pose proof (Z.log2_mul_below (Zpos p) (Zpos q)). lia.
Qed.

Lemma mul_canon s1 p1 s2 p2 :
  Zpos (p1 * p2) < 2 ^ 53 ->
  SFmul prec emax (canon s1 p1) (canon s2 p2) = canon (xorb s1 s2) (p1 * p2).
Proof.
  intros H.
  assert (H1 : Zpos p1 < 2 ^ 53) by nia.
  assert (H2 : Zpos p2 < 2 ^ 53) by nia.
  pose proof (safe_digits p1 H1) as D1. pose proof (safe_digits p2 H2) as D2.
  pose proof (safe_digits _ H) as D. pose proof (digits_mul_ge p1 p2) as G.
  unfold canon at 1 2. cbn [SFmul].
  set (j1 := Z.to_nat (prec - Zpos (digits2_pos p1))).
  set (j2 := Z.to_nat (prec - Zpos (digits2_pos p2))).
  replace (shl p1 j1 * shl p2 j2)%positive with (shl (p1 * p2) (j1 + j2)).
  2:{ apply Pos2Z.inj. rewrite Pos2Z.inj_mul, !Zpos_shl, Pos2Z.inj_mul, Nat2Z.inj_add, Z.pow_add_r by lia. lia. }
  replace (Zpos (digits2_pos p1) - prec + (Zpos (digits2_pos p2) - prec))
    with (- Z.of_nat (j1 + j2)) by (unfold j1, j2; lia).
  apply round_aux_scaled; [assumption|]. unfold j1, j2, prec in *. lia.
Qed.

Theorem mul_exact s1 n1 s2 n2 :
  0 <= n1 -> 0 <= n2 -> n1 * n2 < 2 ^ 53 ->
  SFmul prec emax (of_sign s1 n1) (of_sign s2 n2) = of_sign (xorb s1 s2) (n1 * n2).
Proof.
  intros H1 H2 H.
  destruct n1 as [|p|p], n2 as [|q|q]; try lia; cbn [of_sign Z.mul]; try reflexivity.
  now apply mul_canon.
Qed.

Lemma trunc_canon s p :
  Zpos p < 2 ^ 53 -> trunc (canon s p) = signed s p.
Proof.
  intro H. pose proof (safe_digits p H) as D.
  unfold canon, trunc, signed. f_equal.
  rewrite Zpos_shl. 
  rewrite canon_exp_nonpos by lia.
  rewrite Z.shiftl_opp_r, Z.shiftr_div_pow2 by lia.
  apply Z.div_mul. lia.
Qed.

Theorem trunc_of_Z z : safe z -> trunc (of_Z z) = z.
Proof.
  intro H. rewrite (of_Z_of_sign z H). unfold safe in H.
  destruct z as [|p|p]; cbn [Z.abs Z.ltb Z.compare of_sign]; try reflexivity;
    now rewrite trunc_canon.
Qed.

Theorem of_Z_inj a b : safe a -> safe b -> of_Z a = of_Z b -> a = b.
Proof.
  intros Ha Hb E. rewrite <- (trunc_of_Z a Ha), <- (trunc_of_Z b Hb). now f_equal.
Qed.

Lemma int32_safe z : int32 z -> safe z.
Proof. unfold int32, safe. lia. Qed.

Theorem ToInt32_of_Z z : int32 z -> ToInt32 (of_Z z) = z.
Proof.
  intro H. unfold ToInt32. rewrite trunc_of_Z by now apply int32_safe.
  unfold int32 in H. cbv zeta.
  destruct (Z_lt_le_dec z 0).
  - replace (z mod 2 ^ 32) with (z + 2 ^ 32).
    2:{ apply Z.mod_unique with (q := -1); lia. }
    replace (2 ^ 31 <=? z + 2 ^ 32) with true by (symmetry; apply Z.leb_le; lia). lia.
  - rewrite Z.mod_small by lia.
    replace (2 ^ 31 <=? z) with false by (symmetry; apply Z.leb_gt; lia). reflexivity.
Qed.

Lemma ToInt32_range x : int32 (ToInt32 x).
Proof.
  unfold ToInt32, int32. cbv zeta.
  pose proof (Z.mod_pos_bound (trunc x) (2 ^ 32) ltac:(lia)).
  destruct (Z.leb_spec (2 ^ 31) (trunc x mod 2 ^ 32)); lia.
Qed.

Lemma isInteger_canon s p : Zpos p < 2 ^ 53 -> isInteger (canon s p) = true.
Proof.
  intro H. pose proof (safe_digits p H) as D.
  unfold canon, isInteger. apply orb_true_iff.
  destruct (Z.leb_spec 0 (Zpos (digits2_pos p) - prec)); [now left|right].
  apply Z.eqb_eq. rewrite Z.land_ones by lia.
  rewrite Zpos_shl. 
  replace (- (Z.pos (digits2_pos p) - prec)) with (Z.of_nat (Z.to_nat (prec - Z.pos (digits2_pos p)))) by lia.
  apply Z.mod_mul. lia.
Qed.

Theorem isInteger_of_Z z : safe z -> isInteger (of_Z z) = true.
Proof.
  intro H. rewrite (of_Z_of_sign z H). unfold safe in H.
  destruct z as [|p|p]; cbn [Z.abs Z.ltb Z.compare of_sign]; try reflexivity;
    now apply isInteger_canon.
Qed.

Lemma isInteger_of_sign s n : 0 <= n < 2 ^ 53 -> isInteger (of_sign s n) = true.
Proof.
  intros H. destruct n as [|p|p]; cbn [of_sign]; try reflexivity.
  apply isInteger_canon; lia.
Qed.

(* remainder *)
Lemma shiftl_canon_align p (j : nat) :
  Zpos (digits2_pos p) <= prec ->
  (Z.to_nat (prec - Zpos (digits2_pos p)) <= j)%nat ->
  Z.shiftl (Zpos (shl p (Z.to_nat (prec - Zpos (digits2_pos p)))))
     (Zpos (digits2_pos p) - prec - (- Z.of_nat j)) = Zpos p * 2 ^ Z.of_nat j.
Proof.
  intros Hd Hj. rewrite Z.shiftl_mul_pow2 by lia. rewrite Zpos_shl.
  rewrite <- Z.mul_assoc, <- Z.pow_add_r by lia. do 2 f_equal. lia.
Qed.

Lemma rem_canon p1 s2 p2 :
  Zpos p1 < 2 ^ 53 -> Zpos p2 < 2 ^ 53 ->
  num_rem (canon false p1) (canon s2 p2) = of_Z (Zpos p1 mod Zpos p2).
Proof.
  intros H1 H2.
  pose proof (safe_digits p1 H1) as D1. pose proof (safe_digits p2 H2) as D2.
  unfold canon, num_rem.
  set (j1 := Z.to_nat (prec - Zpos (digits2_pos p1))).
  set (j2 := Z.to_nat (prec - Zpos (digits2_pos p2))).
  set (j := Nat.max j1 j2).
  replace (Z.min (Zpos (digits2_pos p1) - prec) (Zpos (digits2_pos p2) - prec))
    with (- Z.of_nat j) by (unfold j, j1, j2; lia).
  cbv zeta. unfold j1, j2.
  rewrite !shiftl_canon_align by (try assumption; unfold j, j1, j2; lia).
  cbn [cond_Zopp].
  rewrite Z.rem_mod_nonneg by (try apply Z.mul_pos_pos; lia).
  rewrite Z.mul_mod_distr_r by lia.
  apply normalize_scaled0.
  pose proof (Z.mod_pos_bound (Zpos p1) (Zpos p2) ltac:(lia)).
  assert (Zpos p1 mod Zpos p2 <= Zpos p1) by (apply Z.mod_le; lia).
  unfold safe. lia.
Qed.

Theorem rem_exact a b :
  0 <= a < 2 ^ 53 -> 0 < b < 2 ^ 53 ->
  num_rem (of_Z a) (of_Z b) = of_Z (a mod b).
Proof.
  intros Ha Hb.
  rewrite (of_Z_of_sign a), (of_Z_of_sign b) by (unfold safe; lia).
  destruct a as [|p|p], b as [|q|q]; try lia; cbn [Z.abs Z.ltb Z.compare of_sign].
  - reflexivity.
  - apply rem_canon; lia.
Qed.

(* equality test *)
Lemma SFeqb_refl_canon s p : SFeqb (canon s p) (canon s p) = true.
Proof.
  unfold SFeqb, canon, SFcompare.
  destruct s; rewrite Z.compare_refl, Pos.compare_cont_refl; reflexivity.
Qed.

Lemma SFeqb_finite_eq s1 m1 e1 s2 m2 e2 :
  SFeqb (S754_finite s1 m1 e1) (S754_finite s2 m2 e2) = true ->
  S754_finite s1 m1 e1 = S754_finite s2 m2 e2.
Proof.
  unfold SFeqb, SFcompare.
  destruct s1, s2; try discriminate;
  destruct (Z.compare_spec e1 e2); try discriminate; subst;
  destruct (Pos.compare_cont Eq m1 m2) eqn:E; try discriminate;
  apply Pos.compare_eq in E; subst; reflexivity.
Qed.

Theorem SFeqb_of_Z a b : safe a -> safe b -> SFeqb (of_Z a) (of_Z b) = (a =? b).
Proof.
  intros Ha Hb.
  destruct (Z.eqb_spec a b) as [->|Hne].
  - rewrite (of_Z_of_sign b Hb). destruct b; cbn [Z.abs Z.ltb Z.compare of_sign];
      try reflexivity; apply SFeqb_refl_canon.
  - destruct (SFeqb (of_Z a) (of_Z b)) eqn:E; [exfalso|reflexivity].
    apply Hne. apply of_Z_inj; try assumption.
    revert E. rewrite (of_Z_of_sign a Ha), (of_Z_of_sign b Hb).
    unfold safe in *.
    destruct a, b; cbn [Z.abs Z.ltb Z.compare of_sign]; try discriminate; try lia;
      unfold canon; intro E; apply SFeqb_finite_eq in E; exact E.
Qed.

(** * Splitting a SET over a sequence *)

Lemma slice_prefix {A : Type} (l : list A) (i : Z) :
  0 <= i <= Z.of_nat (List.length l) ->
  slice l 0 (Some i) = firstn (Z.to_nat i) l.
Proof.
  intros H. unfold slice, slice_index.
  replace (0 <? 0) with false by reflexivity.
  replace (i <? 0) with false by (symmetry; apply Z.ltb_ge; lia).
  rewrite Z.min_l, Z.min_l by lia.
  rewrite Z.sub_0_r. reflexivity.
Qed.

Lemma slice_suffix {A : Type} (l : list A) (i : Z) :
  0 <= i <= Z.of_nat (List.length l) ->
  slice l i None = skipn (Z.to_nat i) l.
Proof.
  intros H. unfold slice, slice_index.
  replace (i <? 0) with false by (symmetry; apply Z.ltb_ge; lia).
  rewrite Z.min_l by lia.
  apply firstn_all2. rewrite length_skipn. lia.
Qed.

Lemma slice_concat {A : Type} (l : list A) (i : Z) :
  0 <= i <= Z.of_nat (List.length l) ->
  (slice l 0 (Some i) ++ slice l i None = l)%list.
Proof.
  intro H. rewrite slice_prefix, slice_suffix by assumption.
  apply firstn_skipn.
Qed.

Lemma slice_prefix_length {A : Type} (l : list A) (i : Z) :
  0 <= i <= Z.of_nat (List.length l) ->
  Z.of_nat (List.length (slice l 0 (Some i))) = i.
Proof.
  intro H. rewrite slice_prefix by assumption.
  rewrite length_firstn. lia.
Qed.

Lemma string_of_list_ascii_app (a b : list ascii) :
  string_of_list_ascii (a ++ b)%list
  = (string_of_list_ascii a ++ string_of_list_ascii b)%string.
Proof.
  induction a as [|c a IH]; [reflexivity|].
  cbn. now rewrite IH.
Qed.

Lemma list_ascii_length (s : string) :
  List.length (list_ascii_of_string s) = String.length s.
Proof.
  induction s as [|c s IH]; [reflexivity|]. cbn. now rewrite IH.
Qed.

Lemma string_of_list_ascii_length (l : list ascii) :
  String.length (string_of_list_ascii l) = List.length l.
Proof.
  induction l as [|c l IH]; [reflexivity|]. cbn. now rewrite IH.
Qed.

(** C10: [SET.decompose_right] returns [null] unless the new value is a
    string or an array; for an index between 0 and the length it returns
    two SETs of [slice(0, at_new_index)] and [slice(at_new_index)], the
    first of length [at_new_index], whose concatenation is the new value. *)
Theorem SET_decompose_right_splits (new_value : value) (at_new_index : Z) :
  match new_value with
  | VStr s =>
      0 <= at_new_index <= Z.of_nat (String.length s) ->
      let a := string_slice s 0 (Some at_new_index) in
      let b := string_slice s at_new_index None in
      SET_decompose_right new_value at_new_index = Some (SET (VStr a), SET (VStr b))
      /\ (a ++ b)%string = s
      /\ Z.of_nat (String.length a) = at_new_index
  | VArr l =>
      0 <= at_new_index <= Z.of_nat (List.length l) ->
      let a := slice l 0 (Some at_new_index) in
      let b := slice l at_new_index None in
      SET_decompose_right new_value at_new_index = Some (SET (VArr a), SET (VArr b))
      /\ (a ++ b)%list = l
      /\ Z.of_nat (List.length a) = at_new_index
  | _ => SET_decompose_right new_value at_new_index = None
  end.
Proof.
  destruct new_value as [| b | x | s | l]; try reflexivity.
  - intros H a b. split; [reflexivity|]. subst a b. unfold string_slice.
    rewrite <- list_ascii_length in H. split.
    + rewrite <- string_of_list_ascii_app, slice_concat by assumption.
      apply string_of_list_ascii_of_string.
    + rewrite string_of_list_ascii_length. now apply slice_prefix_length.
  - intros H a b. split; [reflexivity|]. subst a b. split.
    + now apply slice_concat.
    + now apply slice_prefix_length.
Qed.

Lemma SET_decompose_right_splits_witness :
  SET_decompose_right (VStr "hello") 2 = Some (SET (VStr "he"), SET (VStr "llo"))
  /\ ("he" ++ "llo")%string = "hello"%string
  /\ Z.of_nat (String.length "he") = 2.
Proof.
  apply (SET_decompose_right_splits (VStr "hello") 2). cbn. lia.
Defined.

(** * Equality and order of documents *)

Lemma SFcompare_antisym x y :
  SFcompare y x = option_map CompOpp (SFcompare x y).
Proof.
  destruct x as [sx|sx| |sx mx ex], y as [sy|sy| |sy my ey]; cbn;
    try reflexivity; try (destruct sx; reflexivity); try (destruct sy; reflexivity);
    try (destruct sx, sy; reflexivity).
  pose proof (Pos.compare_cont_antisym mx my Eq) as A. cbn in A.
  destruct sx, sy; cbn; try reflexivity;
    rewrite (Z.compare_antisym ex ey);
    destruct (ex ?= ey); cbn; try reflexivity;
    rewrite <- A; try reflexivity; now rewrite CompOpp_involutive.
Qed.

Lemma num_eqb_sym x y : num_eqb x y = num_eqb y x.
Proof.
  unfold num_eqb, SFeqb. rewrite (SFcompare_antisym x y).
  destruct (SFcompare x y) as [[]|]; reflexivity.
Qed.

Lemma deep_equal_sym a : forall b, deep_equal a b = deep_equal b a.
Proof.
  induction a as [| x | x | s | l IH] using value_rect'; intros [| y | y | t | l']; cbn;
    try reflexivity.
  - destruct x, y; reflexivity.
  - apply num_eqb_sym.
  - apply String.eqb_sym.
  - revert l'. induction IH as [|x l Hx _ IHl]; intros [|y l']; try reflexivity.
    now rewrite Hx, IHl.
Qed.

Lemma same_document_refl v : same_document v v.
Proof. now left. Qed.

Lemma same_document_sym v w : same_document v w -> same_document w v.
Proof.
  intros [->|E]; [now left|right]. now rewrite deep_equal_sym.
Qed.

Lemma same_outcome_refl r : same_outcome r r.
Proof. destruct r; cbn; [apply same_document_refl|exact I]. Qed.

Lemma same_outcome_sym r s : same_outcome r s -> same_outcome s r.
Proof.
  destruct r, s; cbn; try tauto. apply same_document_sym.
Qed.

(** The reference comparator is antisymmetric, and equates only
    documents that are deep-equal when neither holds a NaN. *)
Lemma compare_values_antisym a : forall b,
  compare_values b a = CompOpp (compare_values a b).
Proof.
  induction a as [| x | x | s | l IH] using value_rect'; intros [| y | y | t | l']; cbn;
    try reflexivity.
  - destruct x, y; reflexivity.
  - rewrite (SFcompare_antisym x y). destruct (SFcompare x y) as [[]|]; reflexivity.
  - apply String.compare_antisym.
  - revert l'. induction IH as [|x l Hx _ IHl]; intros [|y l']; try reflexivity.
    rewrite Hx. destruct (compare_values x y); cbn; try reflexivity. apply IHl.
Qed.

Lemma SFcompare_no_nan x y :
  no_nan_number x = true -> no_nan_number y = true -> SFcompare x y <> None.
Proof.
  destruct x, y; cbn; try discriminate.
Qed.

Lemma compare_values_eq a : forall b,
  no_nan a = true -> no_nan b = true -> compare_values a b = Eq ->
  deep_equal a b = true.
Proof.
  induction a as [| x | x | s | l IH] using value_rect'; intros [| y | y | t | l'];
    cbn; try discriminate; try reflexivity.
  - intros _ _ E. destruct x, y; try discriminate; reflexivity.
  - intros Px Py E.
    pose proof (SFcompare_no_nan x y Px Py) as N.
    unfold num_eqb, SFeqb.
    destruct (SFcompare x y) as [c|] eqn:Ec; [|congruence]. now subst c.
  - intros _ _ E. apply String.compare_eq_iff in E. subst. apply String.eqb_refl.
  - revert l'.
    induction IH as [|x l Hx _ IHl]; intros [|y l']; cbn; try discriminate; try reflexivity.
    intros Pl Pl' E.
    apply andb_true_iff in Pl as [Px Pl], Pl' as [Py Pl'].
    destruct (compare_values x y) eqn:Exy; try discriminate.
    rewrite (Hx y Px Py Exy). cbn. now apply IHl.
Qed.

Lemma cmp_reference_asym a b : cmp_reference a b < 0 -> ~ cmp_reference b a < 0.
Proof.
  unfold cmp_reference. rewrite (compare_values_antisym a b).
  destruct (compare_values a b); cbn; lia.
Qed.

Lemma cmp_reference_total a b :
  no_nan a = true -> no_nan b = true -> deep_equal a b = false ->
  cmp_reference a b < 0 \/ cmp_reference b a < 0.
Proof.
  intros Pa Pb N. unfold cmp_reference. rewrite (compare_values_antisym a b).
  destruct (compare_values a b) eqn:E; cbn; try lia.
  rewrite (compare_values_eq a b Pa Pb E) in N. discriminate.
Qed.

(** * Integers below 2^53 and 32-bit integers *)

(** The arithmetic is used through the lemmas above from here on. *)
Arguments of_Z : simpl never.
Arguments num_add : simpl never.
Arguments num_mul : simpl never.
Arguments num_rem : simpl never.
Arguments num_eqb : simpl never.
Arguments ToInt32 : simpl never.
Arguments isInteger : simpl never.

Lemma int32_div z : int32 z <-> Z.shiftr z 31 = 0 \/ Z.shiftr z 31 = -1.
Proof.
  unfold int32. rewrite Z.shiftr_div_pow2 by lia.
  pose proof (Z.div_mod z (2 ^ 31) ltac:(lia)).
  pose proof (Z.mod_pos_bound z (2 ^ 31) ltac:(lia)). lia.
Qed.

Lemma int32_land a b : int32 a -> int32 b -> int32 (Z.land a b).
Proof.
  rewrite !int32_div, Z.shiftr_land. intros [-> | ->] [-> | ->]; cbn; auto.
Qed.

Lemma int32_lor a b : int32 a -> int32 b -> int32 (Z.lor a b).
Proof.
  rewrite !int32_div, Z.shiftr_lor. intros [-> | ->] [-> | ->]; cbn; auto.
Qed.

Lemma int32_lxor a b : int32 a -> int32 b -> int32 (Z.lxor a b).
Proof.
  rewrite !int32_div, Z.shiftr_lxor. intros [-> | ->] [-> | ->]; cbn; auto.
Qed.

Lemma int32_lnot a : int32 a -> int32 (Z.lnot a).
Proof. unfold int32, Z.lnot. lia. Qed.

Lemma num_eqb_of_Z a b : safe a -> safe b -> num_eqb (of_Z a) (of_Z b) = (a =? b).
Proof. apply SFeqb_of_Z. Qed.

Lemma num_add_exact a b :
  safe a -> safe b -> safe (a + b) -> num_add (of_Z a) (of_Z b) = of_Z (a + b).
Proof. apply add_exact. Qed.

Lemma safe_0 : safe 0.
Proof. unfold safe. cbn. lia. Qed.

Lemma safe_1 : safe 1.
Proof. unfold safe. cbn. lia. Qed.

Lemma int32_0 : int32 0.
Proof. unfold int32. lia. Qed.

Create HintDb regime.
#[local] Hint Resolve safe_0 safe_1 int32_0 int32_safe
  int32_land int32_lor int32_lxor int32_lnot ToInt32_range : regime.

Ltac bitwise :=
  apply Z.bits_inj'; intros ? ?;
  rewrite ?Z.lxor_spec, ?Z.lor_spec, ?Z.land_spec, ?Z.lnot_spec, ?Z.bits_0 by lia;
  repeat match goal with |- context [Z.testbit ?x ?i] => destruct (Z.testbit x i) end;
  reflexivity.

Lemma lor_land_same x k : Z.lor (Z.land x k) k = k.
Proof. bitwise. Qed.

Lemma lxor_lor_same x k : Z.lxor (Z.lor x k) k = Z.land x (Z.lnot k).
Proof. bitwise. Qed.

Lemma lor_land_lnot d k : Z.lor (Z.land d k) (Z.land d (Z.lnot k)) = d.
Proof. bitwise. Qed.

Lemma lxor_lor_lnot d k : Z.lxor (Z.lor d k) (Z.land (Z.lnot d) k) = d.
Proof. bitwise. Qed.

Lemma lxor_lxor_same d k : Z.lxor (Z.lxor d k) k = d.
Proof. bitwise. Qed.

Lemma num_rem_exact a b :
  0 <= a < 2 ^ 53 -> 0 < b < 2 ^ 53 -> num_rem (of_Z a) (of_Z b) = of_Z (a mod b).
Proof. apply rem_exact. Qed.

Lemma num_neg_of_Z a : safe a -> a <> 0 -> num_neg (of_Z a) = of_Z (- a).
Proof.
  intros Sa Na. rewrite (of_Z_of_sign a Sa), (of_Z_of_sign (- a)) by (unfold safe in *; lia).
  rewrite Z.abs_opp. destruct a as [|p|p]; [congruence| |]; reflexivity.
Qed.

Lemma num_add_neg_zero d : safe d -> num_add (of_Z d) (num_neg (of_Z 0)) = of_Z d.
Proof.
  intro Sd. rewrite (of_Z_of_sign d Sd). destruct d; reflexivity.
Qed.

Lemma apply_rot k m d :
  0 <= k -> 0 <= d -> 0 < m < 2 ^ 53 -> d + k < 2 ^ 53 ->
  apply (MATH (Mrot (of_Z k) (of_Z m))) (VNum (of_Z d))
  = Ret (VNum (of_Z ((d + k) mod m))).
Proof.
  intros. cbn [apply MATH_apply].
  rewrite isInteger_of_Z by (unfold safe; lia).
  rewrite num_add_exact by (unfold safe; lia).
  now rewrite num_rem_exact by lia.
Qed.

Lemma bind_ret {A : Type} (x : outcome A) : (a <- x ;; Ret a) = x.
Proof. now destruct x. Qed.

Lemma same_modulus_sym (A B : math) : same_modulus A B = same_modulus B A.
Proof. destruct A, B; cbn; try reflexivity. apply num_eqb_sym. Qed.

Lemma same_operator_sym (A B : math) : same_operator A B = same_operator B A.
Proof.
  unfold same_operator. rewrite (same_modulus_sym A B), (String.eqb_sym (operator A)).
  destruct (String.eqb (operator B) (operator A)) eqn:E; [|reflexivity].
  apply String.eqb_eq in E. now rewrite E.
Qed.

Lemma apply_list_two (A B : op) (document : value) :
  apply_list [A; B] document = (d' <- apply A document ;; apply B d').
Proof.
  cbn [apply_list]. destruct (apply A document); cbn [bind]; [apply bind_ret|reflexivity].
Qed.

Lemma apply_list_NO_OP_l (B : op) (document : value) :
  apply_list [NO_OP; B] document = apply B document.
Proof. rewrite apply_list_two. reflexivity. Qed.

Lemma apply_list_NO_OP_r (A : op) (document : value) :
  apply_list [A; NO_OP] document = apply A document.
Proof. rewrite apply_list_two. now destruct (apply A document). Qed.

Lemma apply_list_SET_r (A : op) (v document r : value) :
  apply A document = Ret r -> apply_list [A; SET v] document = Ret v.
Proof. intro E. rewrite apply_list_two, E. reflexivity. Qed.

Lemma same_operator_intro (A B : math) :
  operator A = operator B ->
  (operator A = "rot"%string -> same_modulus A B = true) ->
  same_operator A B = true.
Proof.
  intros Hop Hrot. unfold same_operator. rewrite Hop, String.eqb_refl, <- Hop.
  destruct (String.eqb (operator A) "rot") eqn:Er; [|reflexivity].
  apply String.eqb_eq in Er. now rewrite (Hrot Er).
Qed.

(** * Arithmetic of doubles

    Facts that hold of every double, not only of the integers below
    2^53. *)

Lemma num_neg_involutive x : num_neg (num_neg x) = x.
Proof. destruct x as [s|s| |s m e]; cbn; now rewrite ?negb_involutive. Qed.

Lemma num_add_comm x y : num_add x y = num_add y x.
Proof.
  unfold num_add.
  destruct x as [sx|sx| |sx mx ex], y as [sy|sy| |sy my ey]; try reflexivity;
    try (destruct sx, sy; reflexivity).
  cbn [SFadd]. rewrite (Z.min_comm ex ey). cbv zeta. f_equal. apply Z.add_comm.
Qed.

Lemma num_mul_comm x y : num_mul x y = num_mul y x.
Proof.
  unfold num_mul.
  destruct x as [sx|sx| |sx mx ex], y as [sy|sy| |sy my ey]; try reflexivity;
    cbn [SFmul]; rewrite (xorb_comm sx sy); try reflexivity.
  now rewrite (Pos.mul_comm mx my), (Z.add_comm ex ey).
Qed.

(** [x - y] is [x + (-y)]. *)
Lemma num_sub_add_neg x y : num_sub x y = num_add x (num_neg y).
Proof.
  unfold num_sub, num_add, num_neg.
  destruct x as [sx| sx| |sx mx ex], y as [sy| sy| |sy my ey];
    try reflexivity;
    destruct sx, sy; reflexivity.
Qed.

Lemma num_sub_exact a b :
  safe a -> safe b -> safe (a - b) -> num_sub (of_Z a) (of_Z b) = of_Z (a - b).
Proof.
  intros Sa Sb Sab. rewrite num_sub_add_neg.
  destruct (Z.eq_dec b 0) as [->|Nb].
  - rewrite Z.sub_0_r. now apply num_add_neg_zero.
  - rewrite num_neg_of_Z by assumption.
    apply num_add_exact; unfold safe in *; try lia.
Qed.

(** The remainder of a negative integer keeps the sign, also when it
    is zero. *)
Lemma rem_canon_neg p1 s2 p2 :
  Zpos p1 < 2 ^ 53 -> Zpos p2 < 2 ^ 53 ->
  num_rem (canon true p1) (canon s2 p2) = of_sign true (Zpos p1 mod Zpos p2).
Proof.
  intros H1 H2.
  pose proof (safe_digits p1 H1) as D1. pose proof (safe_digits p2 H2) as D2.
  unfold canon, num_rem.
  set (j1 := Z.to_nat (prec - Zpos (digits2_pos p1))).
  set (j2 := Z.to_nat (prec - Zpos (digits2_pos p2))).
  set (j := Nat.max j1 j2).
  replace (Z.min (Zpos (digits2_pos p1) - prec) (Zpos (digits2_pos p2) - prec))
    with (- Z.of_nat j) by (unfold j, j1, j2; lia).
  cbv zeta. unfold j1, j2.
  rewrite !shiftl_canon_align by (try assumption; unfold j, j1, j2; lia).
  cbn [cond_Zopp].
  rewrite Z.rem_mod_nonneg by (try apply Z.mul_pos_pos; lia).
  rewrite Z.mul_mod_distr_r by lia.
  pose proof (Z.mod_pos_bound (Zpos p1) (Zpos p2) ltac:(lia)).
  assert (Zpos p1 mod Zpos p2 <= Zpos p1) by (apply Z.mod_le; lia).
  destruct (Zpos p1 mod Zpos p2) as [|r|r] eqn:E; try lia.
  - reflexivity.
  - rewrite <- Z.mul_opp_l. rewrite normalize_scaled by (unfold safe; lia).
    cbn [of_sign]. apply of_Z_neg. lia.
Qed.

Lemma num_rem_neg a b :
  0 < a < 2 ^ 53 -> 0 < b < 2 ^ 53 ->
  num_rem (of_Z (- a)) (of_Z b) = of_sign true (a mod b).
Proof.
  intros Ha Hb.
  rewrite (of_Z_of_sign (- a)), (of_Z_of_sign b) by (unfold safe; lia).
  destruct a as [|p|p], b as [|q|q]; try lia; cbn [Z.opp Z.abs Z.ltb Z.compare of_sign].
  apply rem_canon_neg; lia.
Qed.

(** Rounding a mantissa of at most 53 bits at an exponent in range only
    realigns it. *)
Lemma binary_round_fits s m e :
  Zpos (digits2_pos m) <= prec -> emin prec emax <= e -> e <= emax - prec ->
  let e' := fexp prec emax (Zpos (digits2_pos m) + e) in
  e' <= e
  /\ binary_round prec emax s m e = S754_finite s (shl m (Z.to_nat (e - e'))) e'.
Proof.
  intros Hd Hlo Hhi e'.
  assert (He' : e' <= e) by (unfold e', fexp; lia).
  split; [assumption|].
  unfold binary_round, shl_align. fold e'.
  assert (Hc : canonical_mantissa prec emax (shl m (Z.to_nat (e - e'))) e' = true).
  { unfold canonical_mantissa. apply Z.eqb_eq. rewrite digits_shl.
    rewrite Z2Nat.id by lia. unfold e'. f_equal. lia. }
  destruct (e' - e) as [|q|q] eqn:E; try lia.
  - assert (Ee : e = e') by lia. clearbody e'. subst e'.
    rewrite Z.sub_diag in *. cbn [Z.to_nat] in *. rewrite shl_0 in *.
    now apply round_aux_canonical.
  - rewrite pos_iter_shl.
    replace (Pos.to_nat q) with (Z.to_nat (e - e')) by lia.
    apply round_aux_canonical; [assumption|lia].
Qed.

Lemma bounded_inv m e :
  bounded prec emax m e = true ->
  Zpos (digits2_pos m) <= prec /\ emin prec emax <= e /\ e <= emax - prec
  /\ fexp prec emax (Zpos (digits2_pos m) + e) = e.
Proof.
  unfold bounded, canonical_mantissa. intro H.
  apply andb_true_iff in H as [Hc He].
  apply Z.eqb_eq in Hc. apply Z.leb_le in He.
  unfold fexp in *. lia.
Qed.

Lemma binary_round_canonical s m e :
  bounded prec emax m e = true -> binary_round prec emax s m e = S754_finite s m e.
Proof.
  intro H. destruct (bounded_inv m e H) as (Hd & Hlo & Hhi & Hc).
  destruct (binary_round_fits s m e Hd Hlo Hhi) as [_ E]. cbv zeta in E.
  rewrite Hc in E. now rewrite Z.sub_diag in E.
Qed.

Lemma digits_lt p : Zpos p < 2 ^ Zpos (digits2_pos p).
Proof.
  rewrite digits_log2. pose proof (Z.log2_spec (Zpos p) ltac:(lia)).
  replace (Z.log2 (Zpos p) + 1) with (Z.succ (Z.log2 (Zpos p))) by lia. lia.
Qed.

(** A remainder is below the divisor: taking it again changes nothing,
    on every pair of doubles. *)
Lemma num_rem_idempotent x y :
  is_double x = true -> is_double y = true ->
  num_rem (num_rem x y) y = num_rem x y.
Proof.
  unfold is_double.
  destruct x as [sx|sx| |sx mx ex], y as [sy|sy| |sy my ey]; try reflexivity.
  cbn [valid_binary]. intros Hx Hy.
  destruct (bounded_inv _ _ Hx) as (Dx & Lx & Ux & Cx).
  destruct (bounded_inv _ _ Hy) as (Dy & Ly & Uy & Cy).
  unfold num_rem at 2 3.
  set (e := Z.min ex ey).
  set (K := Z.shiftl (Zpos mx) (ex - e)).
  set (M := Z.shiftl (Zpos my) (ey - e)).
  assert (HK : 0 < K)
    by (unfold K; rewrite Z.shiftl_mul_pow2 by lia; apply Z.mul_pos_pos; lia).
  assert (HM : 0 < M)
    by (unfold M; rewrite Z.shiftl_mul_pow2 by lia; apply Z.mul_pos_pos; lia).
  rewrite Z.rem_mod_nonneg by lia.
  pose proof (Z.mod_pos_bound K M HM) as HR.
  assert (HRK : K mod M <= K) by (apply Z.mod_le; lia).
  destruct (K mod M) as [|r|r] eqn:ER; try lia.
  - destruct sx; reflexivity.
  - assert (Hr : Zpos r < 2 ^ 53).
    { pose proof (digits_lt mx). pose proof (digits_lt my).
      assert (2 ^ Zpos (digits2_pos mx) <= 2 ^ 53)
        by (apply Z.pow_le_mono_r; unfold prec in *; lia).
      assert (2 ^ Zpos (digits2_pos my) <= 2 ^ 53)
        by (apply Z.pow_le_mono_r; unfold prec in *; lia).
      destruct (Z.le_ge_cases ex ey).
      - assert (K = Zpos mx)
          by (unfold K, e; rewrite Z.min_l by lia; now rewrite Z.sub_diag).
        lia.
      - assert (M = Zpos my)
          by (unfold M, e; rewrite Z.min_r by lia; now rewrite Z.sub_diag).
        lia. }
    assert (Dr : Zpos (digits2_pos r) <= prec) by now apply safe_digits.
    assert (Le : emin prec emax <= e) by (unfold e; lia).
    assert (Ue : e <= emax - prec) by (unfold e; lia).
    assert (EN : binary_normalize prec emax (cond_Zopp sx (Zpos r)) e sx
                 = binary_round prec emax sx r e) by (destruct sx; reflexivity).
    rewrite EN.
    destruct (binary_round_fits sx r e Dr Le Ue) as [He' E]. cbv zeta in E.
    set (e' := fexp prec emax (Zpos (digits2_pos r) + e)) in *.
    rewrite E. unfold num_rem.
    assert (Hmin : Z.min e' ey = e') by (unfold e in *; lia).
    rewrite Hmin, Z.sub_diag, Z.shiftl_0_r.
    rewrite Zpos_shl, Z2Nat.id by lia.
    assert (EM : Z.shiftl (Zpos my) (ey - e') = M * 2 ^ (e - e')).
    { unfold M. rewrite !Z.shiftl_mul_pow2 by (unfold e in *; lia).
      rewrite <- Z.mul_assoc, <- Z.pow_add_r by (unfold e in *; lia).
      do 2 f_equal. lia. }
    rewrite EM.
    rewrite Z.rem_mod_nonneg
      by (try apply Z.mul_pos_pos; try lia; apply Z.pow_pos_nonneg; lia).
    rewrite Z.mul_mod_distr_r by (try lia; apply Z.pow_nonzero; lia).
    rewrite (Z.mod_small (Zpos r) M) by lia.
    replace (Zpos r * 2 ^ (e - e')) with (Zpos (shl r (Z.to_nat (e - e'))))
      by (rewrite Zpos_shl, Z2Nat.id by lia; reflexivity).
    assert (EN2 : forall q, binary_normalize prec emax (cond_Zopp sx (Zpos q)) e' sx
                 = binary_round prec emax sx q e') by (destruct sx; reflexivity).
    rewrite EN2. apply binary_round_canonical.
    unfold bounded, canonical_mantissa. apply andb_true_iff. split.
    + apply Z.eqb_eq. rewrite digits_shl, Z2Nat.id by lia. unfold e'. f_equal. lia.
    + apply Z.leb_le. lia.
Qed.

Lemma int32_bool b : int32 (bool_int32 b).
Proof. destruct b; unfold int32; cbn; lia. Qed.

Lemma int32_scalar k : int32 (scalar_int32 k).
Proof. destruct k; cbn [scalar_int32]; [apply ToInt32_range | apply int32_bool]. Qed.

Lemma land_idem x k : Z.land (Z.land x k) k = Z.land x k.
Proof. bitwise. Qed.

Lemma lor_idem x k : Z.lor (Z.lor x k) k = Z.lor x k.
Proof. bitwise. Qed.

(** * Exact values

    A finite double is [ulps x] times 2^-1074.  A sum, a product or a
    remainder whose exact value is a double is computed exactly, and two
    doubles with the same exact value are the same number. *)

Lemma emin_val : emin prec emax = -1074.
Proof. reflexivity. Qed.

Lemma round_aux_shl s m e (j : nat) :
  bounded prec emax m e = true ->
  binary_round_aux prec emax s (Zpos (shl m j)) (e - Z.of_nat j) loc_Exact
  = S754_finite s m e.
Proof.
  intro Hb. destruct (bounded_inv m e Hb) as (Hd & Hlo & Hhi & Hc).
  destruct j as [|j].
  - rewrite shl_0. replace (e - Z.of_nat 0) with e by lia.
    apply round_aux_canonical; [|assumption].
    unfold canonical_mantissa. now apply Z.eqb_eq.
  - unfold binary_round_aux, shr_fexp. cbn [Zdigits2 shr_record_of_loc].
    rewrite digits_shl.
    replace (Zpos (digits2_pos m) + Z.of_nat (S j) + (e - Z.of_nat (S j)))
      with (Zpos (digits2_pos m) + e) by lia.
    rewrite Hc.
    replace (e - (e - Z.of_nat (S j))) with (Z.of_nat (S j)) by lia.
    destruct (Z.of_nat (S j)) as [|q|q] eqn:Eq; try lia.
    cbn [shr]. rewrite iter_pos_nat.
    replace (Pos.to_nat q) with (S j) by lia.
    replace (shl m (S j)) with (shl m (S j + 0)) by (f_equal; lia).
    rewrite iter_shr_shl. rewrite shl_0.
    cbn [shr_m loc_of_shr_record round_nearest_even Zdigits2].
    replace (e - Z.pos q + Z.pos q) with e by lia.
    rewrite Hc, Z.sub_diag. cbn [shr shr_m].
    replace (e <=? emax - prec) with true by (symmetry; apply Z.leb_le; lia).
    reflexivity.
Qed.

Lemma bounded_intro m e :
  fexp prec emax (Zpos (digits2_pos m) + e) = e -> e <= emax - prec ->
  bounded prec emax m e = true.
Proof.
  intros Hc He. unfold bounded, canonical_mantissa.
  apply andb_true_iff. split; [now apply Z.eqb_eq | now apply Z.leb_le].
Qed.

(** rounding a mantissa of at most 53 bits is exact *)
Lemma binary_round_small s p e :
  Zpos (digits2_pos p) <= prec -> emin prec emax <= e -> e <= emax - prec ->
  exists m' e',
    binary_round prec emax s p e = S754_finite s m' e'
    /\ bounded prec emax m' e' = true
    /\ Zpos m' * 2 ^ (e' - emin prec emax) = Zpos p * 2 ^ (e - emin prec emax).
Proof.
  intros Hd Hlo Hhi.
  destruct (binary_round_fits s p e Hd Hlo Hhi) as [He' E]. cbv zeta in *.
  set (e' := fexp prec emax (Zpos (digits2_pos p) + e)) in *.
  assert (Hmin : emin prec emax <= e') by (unfold e', fexp; lia).
  exists (shl p (Z.to_nat (e - e'))), e'. split; [exact E|]. split.
  - apply bounded_intro; [|lia].
    rewrite digits_shl, Z2Nat.id by lia. unfold e'. f_equal. lia.
  - rewrite Zpos_shl, Z2Nat.id by lia.
    rewrite <- Z.mul_assoc, <- Z.pow_add_r by lia. do 2 f_equal. lia.
Qed.

Lemma digits_mul_pow2 p a :
  0 <= a -> Z.log2 (Zpos p * 2 ^ a) + 1 = Zpos (digits2_pos p) + a.
Proof.
  intro Ha. rewrite Z.log2_mul_pow2 by lia. rewrite digits_log2. lia.
Qed.

(** rounding a value that is a double returns it *)
Lemma binary_round_exact s p e :
  emin prec emax <= e -> e <= emax - prec ->
  representable (Zpos p * 2 ^ (e - emin prec emax)) = true ->
  exists m' e',
    binary_round prec emax s p e = S754_finite s m' e'
    /\ bounded prec emax m' e' = true
    /\ Zpos m' * 2 ^ (e' - emin prec emax) = Zpos p * 2 ^ (e - emin prec emax).
Proof.
  intros Hlo Hhi Hr.
  set (a := e - emin prec emax) in *. assert (Ha : 0 <= a) by (unfold a; lia).
  unfold representable in Hr. cbv zeta in Hr.
  assert (Hpos : 0 < Zpos p * 2 ^ a) by (apply Z.mul_pos_pos; [lia|apply Z.pow_pos_nonneg; lia]).
  rewrite Z.abs_eq in Hr by lia.
  rewrite digits_mul_pow2 in Hr by assumption.
  apply andb_true_iff in Hr as [Hl Hb].
  apply Z.eqb_eq in Hl. apply Z.leb_le in Hb.
  set (k := Z.max (Zpos (digits2_pos p) + a - prec) 0) in *.
  rewrite Z.land_ones in Hl by (unfold k; lia).
  destruct (Z_le_gt_dec (Zpos (digits2_pos p)) prec) as [Hd|Hd].
  - now apply binary_round_small.
  - (* more than 53 bits: the low ones are zero *)
    assert (Hk : k = Zpos (digits2_pos p) + a - prec) by (unfold k; lia).
    set (j := Zpos (digits2_pos p) - prec) in *.
    assert (Hj : 0 < j) by (unfold j; lia).
    assert (Hdiv : Zpos p mod 2 ^ j = 0).
    { replace k with (j + a) in Hl by (unfold j; lia).
      rewrite Z.pow_add_r in Hl by lia.
      rewrite Z.mul_mod_distr_r in Hl
        by (apply Z.pow_nonzero; lia).
      assert (0 < 2 ^ a) by (apply Z.pow_pos_nonneg; lia). nia. }
    assert (Hq : Zpos p = Zpos p / 2 ^ j * 2 ^ j).
    { pose proof (Z.div_mod (Zpos p) (2 ^ j) ltac:(apply Z.pow_nonzero; lia)). lia. }
    assert (Hqpos : 0 < Zpos p / 2 ^ j).
    { assert (0 < 2 ^ j) by (apply Z.pow_pos_nonneg; lia). nia. }
    destruct (Zpos p / 2 ^ j) as [|m'|m'] eqn:Em; try lia.
    assert (Hshl : p = shl m' (Z.to_nat j)).
    { apply Pos2Z.inj. rewrite Zpos_shl, Z2Nat.id by lia. exact Hq. }
    assert (Hdm : Zpos (digits2_pos m') = prec).
    { pose proof (digits_shl m' (Z.to_nat j)) as Hds.
      rewrite <- Hshl, Z2Nat.id in Hds by lia. unfold j in Hds. lia. }
    assert (Hbd : bounded prec emax m' (e + j) = true).
    { apply bounded_intro.
      - rewrite Hdm. unfold fexp. unfold a in *. lia.
      - unfold a, j in *. rewrite emin_val in *. unfold prec, emax in *. lia. }
    exists m', (e + j). split; [|split].
    + unfold binary_round, shl_align.
      replace (fexp prec emax (Zpos (digits2_pos p) + e)) with (e + j)
        by (unfold fexp, j, a in *; lia).
      replace (e + j - e) with j by lia.
      destruct j as [|q|q] eqn:Ej; try lia.
      rewrite Hshl. 
      replace e with (e + Zpos q - Z.of_nat (Z.to_nat (Zpos q))) at 1 by lia.
      now apply round_aux_shl.
    + exact Hbd.
    + rewrite Hq. unfold a.
      rewrite <- Z.mul_assoc, <- Z.pow_add_r by lia. do 2 f_equal. lia.
Qed.

Lemma bounded_unique m1 e1 m2 e2 :
  bounded prec emax m1 e1 = true -> bounded prec emax m2 e2 = true ->
  Zpos m1 * 2 ^ (e1 - emin prec emax) = Zpos m2 * 2 ^ (e2 - emin prec emax) ->
  m1 = m2 /\ e1 = e2.
Proof.
  intros H1 H2 E.
  destruct (bounded_inv _ _ H1) as (D1 & L1 & U1 & C1).
  destruct (bounded_inv _ _ H2) as (D2 & L2 & U2 & C2).
  assert (Hd : Zpos (digits2_pos m1) + e1 = Zpos (digits2_pos m2) + e2).
  { pose proof (f_equal (fun z => Z.log2 z + 1) E) as El. cbv beta in El.
    rewrite !digits_mul_pow2 in El by lia. lia. }
  assert (e1 = e2) by (rewrite <- C1, <- C2, Hd; reflexivity).
  subst e2. split; [|reflexivity].
  assert (0 < 2 ^ (e1 - emin prec emax)) by (apply Z.pow_pos_nonneg; lia).
  apply Pos2Z.inj. nia.
Qed.

Lemma real_inv x :
  real x = true ->
  (exists s, x = S754_zero s)
  \/ (exists s m e, x = S754_finite s m e /\ bounded prec emax m e = true).
Proof.
  unfold real, is_double. destruct x as [s|s| |s m e]; cbn; intro H;
    try discriminate; [left; eauto|right].
  rewrite andb_true_r in H. eauto.
Qed.

Lemma ulps_finite s m e :
  emin prec emax <= e ->
  ulps (S754_finite s m e) = cond_Zopp s (Zpos m * 2 ^ (e - emin prec emax)).
Proof. intro H. unfold ulps. now rewrite Z.shiftl_mul_pow2 by lia. Qed.

Lemma ulps_finite_nonzero s m e :
  emin prec emax <= e -> ulps (S754_finite s m e) <> 0.
Proof.
  intro H. rewrite ulps_finite by assumption.
  assert (0 < Zpos m * 2 ^ (e - emin prec emax))
    by (apply Z.mul_pos_pos; [lia|apply Z.pow_pos_nonneg; lia]).
  destruct s; cbn [cond_Zopp]; lia.
Qed.

Lemma cond_Zopp_inj s1 s2 a b :
  0 < a -> 0 < b -> cond_Zopp s1 a = cond_Zopp s2 b -> s1 = s2 /\ a = b.
Proof. destruct s1, s2; cbn [cond_Zopp]; intros; split; try reflexivity; lia. Qed.

(** Two finite doubles of the same value are the same double, or two zeros. *)
Lemma ulps_inj x y :
  real x = true -> real y = true -> ulps x = ulps y -> same_number x y.
Proof.
  intros Hx Hy E.
  destruct (real_inv x Hx) as [[s ->]|(s & m & e & -> & Hb)];
    destruct (real_inv y Hy) as [[s' ->]|(s' & m' & e' & -> & Hb')].
  - right. reflexivity.
  - destruct (bounded_inv _ _ Hb') as (_ & L & _).
    exfalso. apply (ulps_finite_nonzero s' m' e' L). now rewrite <- E.
  - destruct (bounded_inv _ _ Hb) as (_ & L & _).
    exfalso. now apply (ulps_finite_nonzero s m e L).
  - destruct (bounded_inv _ _ Hb) as (_ & L & _).
    destruct (bounded_inv _ _ Hb') as (_ & L' & _).
    rewrite !ulps_finite in E by assumption.
    apply cond_Zopp_inj in E as [-> E];
      try (apply Z.mul_pos_pos; [lia|apply Z.pow_pos_nonneg; lia]).
    destruct (bounded_unique _ _ _ _ Hb Hb' E) as [-> ->]. now left.
Qed.

Lemma real_finite s m e : bounded prec emax m e = true -> real (S754_finite s m e) = true.
Proof. intro H. unfold real, is_double. cbn. now rewrite H. Qed.

Lemma representable_abs z : representable (Z.abs z) = representable z.
Proof. unfold representable. now rewrite Z.abs_idemp. Qed.

(** what a rounding of an exact value returns *)
Lemma binary_normalize_exact z e sz :
  emin prec emax <= e -> e <= emax - prec ->
  representable (z * 2 ^ (e - emin prec emax)) = true ->
  real (binary_normalize prec emax z e sz) = true
  /\ ulps (binary_normalize prec emax z e sz) = z * 2 ^ (e - emin prec emax).
Proof.
  intros Hlo Hhi Hr.
  destruct z as [|p|p]; cbn [binary_normalize].
  - split; reflexivity.
  - destruct (binary_round_exact false p e Hlo Hhi Hr) as (m' & e' & -> & Hb & E).
    split; [now apply real_finite|].
    destruct (bounded_inv _ _ Hb) as (_ & L & _).
    rewrite ulps_finite by assumption. exact E.
  - rewrite <- representable_abs in Hr.
    replace (Z.abs (Z.neg p * 2 ^ (e - emin prec emax)))
      with (Zpos p * 2 ^ (e - emin prec emax)) in Hr.
    2:{ assert (0 < 2 ^ (e - emin prec emax)) by (apply Z.pow_pos_nonneg; lia). lia. }
    destruct (binary_round_exact true p e Hlo Hhi Hr) as (m' & e' & -> & Hb & E).
    split; [now apply real_finite|].
    destruct (bounded_inv _ _ Hb) as (_ & L & _).
    rewrite ulps_finite by assumption. cbn [cond_Zopp]. rewrite E. lia.
Qed.

Lemma shl_align_value m e e' :
  e' <= e -> Zpos (fst (shl_align m e e')) = Zpos m * 2 ^ (e - e').
Proof.
  intro H. unfold shl_align.
  destruct (e' - e) as [|q|q] eqn:E; cbn [fst]; try lia.
  - replace (e - e') with 0 by lia. lia.
  - rewrite pos_iter_shl, Zpos_shl. do 2 f_equal. lia.
Qed.

(** An addition whose exact result is a double returns it. *)
Theorem add_exact_general x y :
  exact_add x y = true ->
  real (num_add x y) = true /\ ulps (num_add x y) = ulps x + ulps y.
Proof.
  unfold exact_add. intro H.
  apply andb_true_iff in H as [H Hr]. apply andb_true_iff in H as [Hx Hy].
  destruct (real_inv x Hx) as [[s ->]|(s & m & e & -> & Hb)];
    destruct (real_inv y Hy) as [[s' ->]|(s' & m' & e' & -> & Hb')].
  - destruct s, s'; split; reflexivity.
  - split; [exact Hy|reflexivity].
  - split; [exact Hx|]. change (num_add (S754_finite s m e) (S754_zero s')) with (S754_finite s m e).
    cbn [ulps]. lia.
  - destruct (bounded_inv _ _ Hb) as (_ & L & U & _).
    destruct (bounded_inv _ _ Hb') as (_ & L' & U' & _).
    unfold num_add. cbn [SFadd].
    set (ez := Z.min e e').
    assert (ez <= e /\ ez <= e') as [Z1 Z2] by (unfold ez; lia).
    rewrite (shl_align_value m e ez Z1), (shl_align_value m' e' ez Z2).
    rewrite !ulps_finite in Hr by assumption.
    assert (E : (cond_Zopp s (Zpos m * 2 ^ (e - ez)) + cond_Zopp s' (Zpos m' * 2 ^ (e' - ez)))
                * 2 ^ (ez - emin prec emax)
                = cond_Zopp s (Zpos m * 2 ^ (e - emin prec emax))
                  + cond_Zopp s' (Zpos m' * 2 ^ (e' - emin prec emax))).
    { replace (e - emin prec emax) with ((e - ez) + (ez - emin prec emax)) by lia.
      replace (e' - emin prec emax) with ((e' - ez) + (ez - emin prec emax)) by lia.
      rewrite !Z.pow_add_r by (unfold ez; lia).
      destruct s, s'; cbn [cond_Zopp]; ring. }
    rewrite <- E in Hr.
    destruct (binary_normalize_exact _ ez false ltac:(unfold ez; lia)
                ltac:(unfold ez; lia) Hr) as [R1 R2].
    split; [exact R1|]. rewrite R2, E. now rewrite !ulps_finite by assumption.
Qed.

Lemma representable_bounded p :
  representable (Zpos p) = true ->
  exists m' e', bounded prec emax m' e' = true
                /\ Zpos m' * 2 ^ (e' - emin prec emax) = Zpos p.
Proof.
  intro H.
  destruct (binary_round_exact false p (emin prec emax)) as (m' & e' & _ & Hb & E).
  - lia.
  - rewrite emin_val. unfold emax, prec. lia.
  - now rewrite Z.sub_diag, Z.mul_1_r.
  - exists m', e'. split; [assumption|]. now rewrite E, Z.sub_diag, Z.mul_1_r.
Qed.

Lemma mul_exponent mx ex my ey :
  bounded prec emax mx ex = true -> bounded prec emax my ey = true ->
  ex + ey <= fexp prec emax (Zpos (digits2_pos (mx * my)) + (ex + ey)).
Proof.
  intros Hx Hy.
  destruct (bounded_inv _ _ Hx) as (Dx & Lx & Ux & Cx).
  destruct (bounded_inv _ _ Hy) as (Dy & Ly & Uy & Cy).
  pose proof (digits_mul_ge mx my) as G.
  assert (1 <= Zpos (digits2_pos mx)) by lia.
  assert (1 <= Zpos (digits2_pos my)) by lia.
  unfold fexp in *. rewrite emin_val in *. unfold prec in *. lia.
Qed.

Lemma cond_Zopp_mul s1 s2 a b :
  cond_Zopp s1 a * cond_Zopp s2 b = cond_Zopp (xorb s1 s2) (a * b).
Proof. destruct s1, s2; cbn [cond_Zopp xorb]; ring. Qed.

(** A multiplication whose exact result is a double returns it. *)
Theorem mul_exact_general x y :
  exact_mul x y = true ->
  real (num_mul x y) = true
  /\ ulps (num_mul x y) * 2 ^ 1074 = ulps x * ulps y.
Proof.
  unfold exact_mul. intro H.
  apply andb_true_iff in H as [H Hr]. apply andb_true_iff in H as [H Hdiv].
  apply andb_true_iff in H as [Hx Hy]. apply Z.eqb_eq in Hdiv.
  destruct (real_inv x Hx) as [[s ->]|(s & m & e & -> & Hb)];
    destruct (real_inv y Hy) as [[s' ->]|(s' & m' & e' & -> & Hb')];
    try (split; [reflexivity|cbn [ulps]; change (ulps (num_mul _ _)) with 0; lia]).
  destruct (bounded_inv _ _ Hb) as (_ & L & U & _).
  destruct (bounded_inv _ _ Hb') as (_ & L' & U' & _).
  assert (T0 : 0 < 2 ^ 1074) by (apply Z.pow_pos_nonneg; lia).
  rewrite !ulps_finite in * by assumption.
  rewrite cond_Zopp_mul in *.
  set (P := Zpos m * 2 ^ (e - emin prec emax) * (Zpos m' * 2 ^ (e' - emin prec emax))) in *.
  assert (HP : P = Zpos (m * m') * 2 ^ (e + e' + 2148)).
  { unfold P. rewrite emin_val, Pos2Z.inj_mul.
    replace (e + e' + 2148) with ((e - -1074) + (e' - -1074)) by lia.
    rewrite Z.pow_add_r by (rewrite emin_val in *; lia). ring. }
  assert (P0 : 0 < P).
  { rewrite HP. apply Z.mul_pos_pos; [lia|].
    apply Z.pow_pos_nonneg; rewrite emin_val in *; lia. }
  assert (Hq : P = P / 2 ^ 1074 * 2 ^ 1074 /\ P mod 2 ^ 1074 = 0).
  { assert (Hm : P mod 2 ^ 1074 = 0).
    { destruct (xorb s s'); cbn [cond_Zopp] in Hdiv; [|exact Hdiv].
      apply Z.mod_opp_l_z in Hdiv; [|lia]. now rewrite Z.opp_involutive in Hdiv. }
    split; [|exact Hm].
    pose proof (Z.div_mod P (2 ^ 1074) ltac:(lia)). lia. }
  destruct Hq as [Hq Hm].
  assert (Hz : cond_Zopp (xorb s s') P / 2 ^ 1074 = cond_Zopp (xorb s s') (P / 2 ^ 1074)).
  { destruct (xorb s s'); cbn [cond_Zopp]; [|reflexivity].
    rewrite Hq at 1. rewrite <- Z.mul_opp_l, Z.div_mul by lia. reflexivity. }
  rewrite Hz in Hr.
  assert (Hr' : representable (P / 2 ^ 1074) = true).
  { rewrite <- representable_abs in Hr. rewrite <- representable_abs.
    destruct (xorb s s'); cbn [cond_Zopp] in Hr; [|exact Hr].
    now rewrite Z.abs_opp in Hr. }
  assert (Q0 : 0 < P / 2 ^ 1074) by nia.
  destruct (P / 2 ^ 1074) as [|q|q] eqn:EQ; try lia.
  destruct (representable_bounded q Hr') as (mr & er & Hbr & Er).
  destruct (bounded_inv _ _ Hbr) as (Dr & Lr & Ur & Cr).
  (* the product mantissa is the canonical one, shifted *)
  assert (Hval : Zpos (m * m') * 2 ^ (e + e' + 2148) = Zpos mr * 2 ^ (er + 2148)).
  { rewrite <- HP, Hq, <- Er. rewrite emin_val.
    rewrite <- Z.mul_assoc, <- Z.pow_add_r by (rewrite emin_val in *; lia).
    do 2 f_equal. lia. }
  assert (Hdig : Zpos (digits2_pos (m * m')) + (e + e') = Zpos (digits2_pos mr) + er).
  { pose proof (f_equal (fun z => Z.log2 z + 1) Hval) as El. cbv beta in El.
    rewrite !digits_mul_pow2 in El by (rewrite emin_val in *; lia). lia. }
  pose proof (mul_exponent m e m' e' Hb Hb') as Hexp.
  rewrite Hdig, Cr in Hexp.
  assert (Hshl : (m * m')%positive = shl mr (Z.to_nat (er - (e + e')))).
  { apply Pos2Z.inj. rewrite Zpos_shl, Z2Nat.id by lia.
    assert (0 < 2 ^ (e + e' + 2148))
      by (apply Z.pow_pos_nonneg; rewrite emin_val in *; lia).
    replace (er + 2148) with ((er - (e + e')) + (e + e' + 2148)) in Hval by lia.
    assert (0 <= er - (e + e')) by lia.
    assert (0 <= e + e' + 2148) by (rewrite emin_val in *; lia).
    rewrite (Z.pow_add_r 2 (er - (e + e'))) in Hval by assumption. nia. }
  assert (Hres : num_mul (S754_finite s m e) (S754_finite s' m' e')
                 = S754_finite (xorb s s') mr er).
  { unfold num_mul. cbn [SFmul]. rewrite Hshl.
    replace (e + e') with (er - Z.of_nat (Z.to_nat (er - (e + e')))) at 2 by lia.
    now apply round_aux_shl. }
  rewrite Hres.
  split; [now apply real_finite|].
  rewrite ulps_finite by assumption. rewrite Er.
  destruct (xorb s s'); cbn [cond_Zopp]; lia.
Qed.

(** The remainder is always exact. *)
Theorem rem_exact_general x y :
  real x = true -> real y = true -> ulps y <> 0 ->
  real (num_rem x y) = true
  /\ ulps (num_rem x y) = Z.rem (ulps x) (ulps y).
Proof.
  intros Hx Hy Ny.
  destruct (real_inv y Hy) as [[s' ->]|(sy & my & ey & -> & Hby)];
    [now elim Ny|].
  destruct (real_inv x Hx) as [[s ->]|(sx & mx & ex & -> & Hbx)].
  - split; [reflexivity|]. cbn [ulps]. now rewrite Z.rem_0_l.
  - destruct (bounded_inv _ _ Hbx) as (Dx & Lx & Ux & Cx).
    destruct (bounded_inv _ _ Hby) as (Dy & Ly & Uy & Cy).
    rewrite !ulps_finite by assumption.
    unfold num_rem.
    set (e := Z.min ex ey).
    rewrite !Z.shiftl_mul_pow2 by (unfold e; lia).
    set (K := Zpos mx * 2 ^ (ex - e)).
    set (M := Zpos my * 2 ^ (ey - e)).
    assert (HK : 0 < K)
      by (unfold K; apply Z.mul_pos_pos; [lia|apply Z.pow_pos_nonneg; unfold e; lia]).
    assert (HM : 0 < M)
      by (unfold M; apply Z.mul_pos_pos; [lia|apply Z.pow_pos_nonneg; unfold e; lia]).
    assert (Ha : 0 <= e - emin prec emax) by (unfold e; lia).
    assert (EK : Zpos mx * 2 ^ (ex - emin prec emax) = K * 2 ^ (e - emin prec emax)).
    { unfold K. rewrite <- Z.mul_assoc, <- Z.pow_add_r by (unfold e; lia).
      do 2 f_equal. lia. }
    assert (EM : Zpos my * 2 ^ (ey - emin prec emax) = M * 2 ^ (e - emin prec emax)).
    { unfold M. rewrite <- Z.mul_assoc, <- Z.pow_add_r by (unfold e; lia).
      do 2 f_equal. lia. }
    rewrite EK, EM.
    assert (T : 0 < 2 ^ (e - emin prec emax)) by (apply Z.pow_pos_nonneg; lia).
    assert (ER : Z.rem (cond_Zopp sx (K * 2 ^ (e - emin prec emax)))
                       (cond_Zopp sy (M * 2 ^ (e - emin prec emax)))
                 = cond_Zopp sx (K mod M) * 2 ^ (e - emin prec emax)).
    { assert (E0 : Z.rem (K * 2 ^ (e - emin prec emax)) (M * 2 ^ (e - emin prec emax))
                   = K mod M * 2 ^ (e - emin prec emax)).
      { rewrite Z.rem_mod_nonneg by nia. apply Z.mul_mod_distr_r; lia. }
      destruct sx, sy; cbn [cond_Zopp];
        rewrite ?Z.rem_opp_l', ?Z.rem_opp_r', E0; lia. }
    rewrite ER. rewrite Z.rem_mod_nonneg by lia.
    pose proof (Z.mod_pos_bound K M HM) as HR.
    assert (HRK : K mod M <= K) by (apply Z.mod_le; lia).
    destruct (K mod M) as [|r|r] eqn:Er; try lia.
    + destruct sx; split; reflexivity.
    + assert (Hr : Zpos r < 2 ^ 53).
      { pose proof (digits_lt mx). pose proof (digits_lt my).
        assert (2 ^ Zpos (digits2_pos mx) <= 2 ^ 53)
          by (apply Z.pow_le_mono_r; unfold prec in *; lia).
        assert (2 ^ Zpos (digits2_pos my) <= 2 ^ 53)
          by (apply Z.pow_le_mono_r; unfold prec in *; lia).
        destruct (Z.le_ge_cases ex ey).
        - assert (K = Zpos mx)
            by (unfold K, e; rewrite Z.min_l by lia; rewrite Z.sub_diag; lia).
          lia.
        - assert (M = Zpos my)
            by (unfold M, e; rewrite Z.min_r by lia; rewrite Z.sub_diag; lia).
          lia. }
      assert (Dr : Zpos (digits2_pos r) <= prec) by now apply safe_digits.
      assert (EN : binary_normalize prec emax (cond_Zopp sx (Zpos r)) e sx
                   = binary_round prec emax sx r e) by (destruct sx; reflexivity).
      rewrite EN.
      destruct (binary_round_small sx r e Dr ltac:(unfold e; lia) ltac:(unfold e; lia))
        as (m' & e' & -> & Hb & E).
      split; [now apply real_finite|].
      destruct (bounded_inv _ _ Hb) as (_ & L & _).
      rewrite ulps_finite by assumption. rewrite E.
      destruct sx; cbn [cond_Zopp]; lia.
Qed.

Lemma real_of_Z z : safe z -> real (of_Z z) = true /\ ulps (of_Z z) = z * 2 ^ 1074.
Proof.
  intro Hs. unfold of_Z.
  assert (Hr : representable (z * 2 ^ (0 - emin prec emax)) = true).
  { unfold safe in Hs. destruct (Z.eq_dec z 0) as [->|Nz]; [reflexivity|].
    unfold representable. cbv zeta. rewrite emin_val.
    assert (T : 0 < 2 ^ 1074) by (apply Z.pow_pos_nonneg; lia).
    change (0 - -1074) with 1074.
    rewrite Z.abs_mul, (Z.abs_eq (2 ^ 1074)) by lia.
    assert (Za : 0 < Z.abs z) by lia.
    rewrite Z.log2_mul_pow2 by lia.
    assert (Z.log2 (Z.abs z) < 53) by (apply Z.log2_lt_pow2; lia).
    pose proof (Z.log2_nonneg (Z.abs z)).
    apply andb_true_iff. split.
    - apply Z.eqb_eq. rewrite Z.land_ones by (unfold prec; lia).
      set (k := Z.max (1074 + Z.log2 (Z.abs z) + 1 - prec) 0).
      replace 1074 with ((1074 - k) + k) at 1 by lia.
      rewrite Z.pow_add_r by (unfold k, prec; lia).
      rewrite Z.mul_assoc. apply Z.mod_mul. apply Z.pow_nonzero; unfold k; lia.
    - apply Z.leb_le. unfold prec, emax. lia. }
  destruct (binary_normalize_exact z 0 false) as [R1 R2]; try assumption.
  - rewrite emin_val. lia.
  - unfold emax, prec. lia.
  - split; [exact R1|]. rewrite R2. now rewrite emin_val.
Qed.

(** * The regimes of the properties *)

(** ** Remainders *)

Lemma rem_small_abs a m : Z.abs a < Z.abs m -> Z.rem a m = a.
Proof.
  intro H.
  destruct (Z.le_gt_cases 0 a) as [Ha|Ha], (Z.le_gt_cases 0 m) as [Hm|Hm].
  - apply Z.rem_small; lia.
  - rewrite <- (Z.rem_opp_r a m) by lia. apply Z.rem_small; lia.
  - assert (R : Z.rem (- a) m = - a) by (apply Z.rem_small; lia).
    rewrite Z.rem_opp_l in R by lia. lia.
  - assert (R : Z.rem (- a) (- m) = - a) by (apply Z.rem_small; lia).
    rewrite Z.rem_opp_r, Z.rem_opp_l in R by lia. lia.
Qed.

Lemma rem_congr_pos a b m q :
  0 < m -> a = b + q * m -> 0 <= a -> 0 <= b -> Z.rem a m = Z.rem b m.
Proof.
  intros Hm -> Ha Hb.
  rewrite !Z.rem_mod_nonneg by lia. apply Z.mod_add. lia.
Qed.

(** Two dividends that differ by a multiple of the modulus and do not
    have opposite signs have the same remainder. *)
Lemma rem_congr a b m q :
  m <> 0 -> a = b + q * m -> 0 <= a * b -> Z.rem a m = Z.rem b m.
Proof.
  intros Hm E S.
  assert (G : forall a b m q, 0 < m -> a = b + q * m -> 0 <= a * b ->
                              Z.rem a m = Z.rem b m).
  { clear. intros a b m q Hm E S.
    assert (C : (0 <= a /\ 0 <= b) \/ (a <= 0 /\ b <= 0)) by nia.
    destruct C as [[Ha Hb]|[Ha Hb]].
    - now apply rem_congr_pos with (q := q).
    - assert (R : Z.rem (- a) m = Z.rem (- b) m)
        by (apply rem_congr_pos with (q := - q); lia).
      rewrite !(Z.rem_opp_l _ m) in R by lia. lia. }
  destruct (Z.lt_trichotomy m 0) as [Hlt|[->|Hgt]]; [|lia|].
  - assert (R : Z.rem a (- m) = Z.rem b (- m)) by (apply G with (q := - q); lia).
    now rewrite !Z.rem_opp_r in R by lia.
  - now apply G with (q := q).
Qed.

Lemma rem_add_rem a b m : m <> 0 -> exists q, a + Z.rem b m = (a + b) + q * m.
Proof.
  intro Hm. exists (- Z.quot b m).
  pose proof (Z.quot_rem' b m). lia.
Qed.

(** ** Zeros, one, and numbers that are equal *)

Lemma num_eqb_zero k : num_eqb k (of_Z 0) = true -> exists s, k = S754_zero s.
Proof.
  change (of_Z 0) with (S754_zero false).
  destruct k as [s|s| |s m e]; unfold num_eqb, SFeqb; cbn; try discriminate.
  - intros _. now exists s.
  - destruct s; discriminate.
  - destruct s; discriminate.
Qed.

Lemma num_eqb_zero_ulps k : real k = true -> num_eqb k (of_Z 0) = (ulps k =? 0).
Proof.
  intro R. change (of_Z 0) with (S754_zero false).
  destruct (real_inv k R) as [[s ->]|(s & m & e & -> & B)].
  - destruct s; reflexivity.
  - destruct (bounded_inv m e B) as (_ & He & _).
    pose proof (ulps_finite_nonzero s m e He) as N.
    apply Z.eqb_neq in N. rewrite N.
    unfold num_eqb, SFeqb. cbn. destruct s; reflexivity.
Qed.

Lemma num_eqb_one k : num_eqb k (of_Z 1) = true -> k = of_Z 1.
Proof.
  change (of_Z 1) with (S754_finite false 4503599627370496 (-52)).
  destruct k as [s|s| |s m e]; unfold num_eqb; intro E.
  - destruct s; discriminate E.
  - destruct s; discriminate E.
  - discriminate E.
  - now apply SFeqb_finite_eq.
Qed.

Lemma num_eqb_cases a b :
  num_eqb a b = true ->
  a = b \/ (exists s s', a = S754_zero s /\ b = S754_zero s').
Proof.
  destruct a as [s|s| |s m e], b as [s'|s'| |s' m' e']; unfold num_eqb; intro E;
    try (discriminate E);
    try (destruct s; discriminate E);
    try (destruct s'; discriminate E);
    try (destruct s, s'; discriminate E).
  - right. now exists s, s'.
  - left. destruct s, s'; try discriminate E; reflexivity.
  - left. now apply SFeqb_finite_eq.
Qed.

Lemma num_eqb_ToInt32 a b : num_eqb a b = true -> ToInt32 a = ToInt32 b.
Proof.
  intro E. destruct (num_eqb_cases a b E) as [->|(s & s' & -> & ->)]; reflexivity.
Qed.

Lemma ToInt32_zero s : ToInt32 (S754_zero s) = 0.
Proof. reflexivity. Qed.

Lemma same_number_document x y : same_number x y -> same_document (VNum x) (VNum y).
Proof. intros [->|E]; [now left|now right]. Qed.

(** A number that [ToInt32] leaves unchanged is an integer. *)
Lemma is_int32_isInteger x : is_int32 x = true -> isInteger x = true.
Proof.
  unfold is_int32. intro E.
  destruct (num_eqb_cases _ _ E) as [->|(s & s' & -> & _)]; [|reflexivity].
  apply isInteger_of_Z, int32_safe, ToInt32_range.
Qed.

Lemma is_int32_same x : is_int32 x = true -> same_document (VNum (of_Z (ToInt32 x))) (VNum x).
Proof. intro E. right. cbn. now rewrite num_eqb_sym. Qed.

(** ** Exact sums and products *)

Lemma real_representable x : real x = true -> representable (ulps x) = true.
Proof.
  intro R. destruct (real_inv x R) as [[s ->]|(s & m & e & -> & B)]; [reflexivity|].
  destruct (bounded_inv m e B) as (Hd & He & Hmax & Hf).
  rewrite (ulps_finite s m e He).
  rewrite <- representable_abs.
  replace (Z.abs (cond_Zopp s (Zpos m * 2 ^ (e - emin prec emax))))
    with (Zpos m * 2 ^ (e - emin prec emax))
    by (assert (0 < 2 ^ (e - emin prec emax)) by (apply Z.pow_pos_nonneg; lia);
        destruct s; cbn [cond_Zopp]; lia).
  rewrite emin_val in *.
  unfold representable.
  assert (P : 0 < 2 ^ (e - -1074)) by (apply Z.pow_pos_nonneg; lia).
  rewrite Z.abs_eq by lia.
  rewrite (digits_mul_pow2 m (e - -1074)) by lia.
  unfold fexp, SpecFloat.emin, prec, emax in *.
  replace (Z.max (Zpos (digits2_pos m) + (e - -1074) - 53) 0) with (e - -1074) by lia.
  rewrite Z.land_ones by lia. rewrite Z.mod_mul by lia.
  apply andb_true_iff. split; [reflexivity|apply Z.leb_le; lia].
Qed.

Lemma exact_add_inv x y :
  exact_add x y = true ->
  real x = true /\ real y = true /\ representable (ulps x + ulps y) = true.
Proof.
  unfold exact_add. intro E.
  apply andb_true_iff in E as [E E3]. apply andb_true_iff in E as [E1 E2]. tauto.
Qed.

Lemma exact_add_intro x y :
  real x = true -> real y = true -> representable (ulps x + ulps y) = true ->
  exact_add x y = true.
Proof. unfold exact_add. now intros -> -> ->. Qed.

Lemma exact_mul_inv x y :
  exact_mul x y = true ->
  real x = true /\ real y = true /\ ulps x * ulps y mod 2 ^ 1074 = 0
  /\ representable (ulps x * ulps y / 2 ^ 1074) = true.
Proof.
  unfold exact_mul. intro E.
  apply andb_true_iff in E as [E E4]. apply andb_true_iff in E as [E E3].
  apply andb_true_iff in E as [E1 E2]. apply Z.eqb_eq in E3. tauto.
Qed.

Lemma exact_mul_intro x y :
  real x = true -> real y = true -> ulps x * ulps y mod 2 ^ 1074 = 0 ->
  representable (ulps x * ulps y / 2 ^ 1074) = true ->
  exact_mul x y = true.
Proof.
  unfold exact_mul. intros -> -> E ->. apply Z.eqb_eq in E. now rewrite E.
Qed.

Lemma real_is_double x : real x = true -> is_double x = true.
Proof. unfold real. intro E. now apply andb_true_iff in E as [E _]. Qed.

(** Adding a zero changes no number (but the sign of a zero). *)
Lemma num_add_zero_r x s : same_number (num_add x (S754_zero s)) x.
Proof.
  destruct x as [s'|s'| |s' m e]; try (left; reflexivity).
  destruct s, s'; [left|right|right|left]; reflexivity.
Qed.

Lemma num_add_zero_ulps x s : real x = true ->
  real (num_add x (S754_zero s)) = true /\ ulps (num_add x (S754_zero s)) = ulps x.
Proof.
  intro R. destruct x as [s'|s'| |s' m e]; try discriminate R.
  - destruct s, s'; split; reflexivity.
  - split; [exact R|reflexivity].
Qed.

(** Multiplying by one changes no number. *)
Lemma num_mul_one x : is_double x = true -> num_mul x (of_Z 1) = x.
Proof.
  change (of_Z 1) with (S754_finite false 4503599627370496 (-52)).
  destruct x as [s|s| |s m e]; intro V; try reflexivity.
  - unfold num_mul, SFmul. now rewrite xorb_false_r.
  - unfold num_mul, SFmul. now rewrite xorb_false_r.
  - unfold num_mul, SFmul. rewrite xorb_false_r.
    change (Zpos (m * 4503599627370496)) with (Zpos m * 2 ^ Z.of_nat 52).
    rewrite <- Zpos_shl.
    change (e + -52) with (e - Z.of_nat 52).
    apply round_aux_shl. exact V.
Qed.

(** * One rounding

    The result of a sum or a product depends on the exact value that
    is rounded, not on the way it is written: a mantissa with more
    trailing zeros at a lower exponent rounds to the same double.  Two
    sums, or two products, of the same exact value are the same
    number. *)

Lemma round_aux_scale s m e (k : nat) :
  e <= fexp prec emax (Zpos (digits2_pos m) + e) ->
  binary_round_aux prec emax s (Zpos (shl m k)) (e - Z.of_nat k) loc_Exact
  = binary_round_aux prec emax s (Zpos m) e loc_Exact.
Proof.
  intro H.
  destruct k as [|k].
  { rewrite shl_0. now replace (e - Z.of_nat 0) with e by lia. }
  assert (E : shr_fexp prec emax (Zpos (shl m (S k))) (e - Z.of_nat (S k)) loc_Exact
              = shr_fexp prec emax (Zpos m) e loc_Exact).
  { unfold shr_fexp. cbn [Zdigits2 shr_record_of_loc]. rewrite digits_shl.
    replace (Zpos (digits2_pos m) + Z.of_nat (S k) + (e - Z.of_nat (S k)))
      with (Zpos (digits2_pos m) + e) by lia.
    set (f := fexp prec emax (Zpos (digits2_pos m) + e)) in *.
    destruct (f - (e - Z.of_nat (S k))) as [|q|q] eqn:Eq; try lia.
    cbn [shr]. rewrite iter_pos_nat.
    replace (Pos.to_nat q) with (Z.to_nat (f - e) + S k)%nat by lia.
    rewrite Nat.iter_add.
    replace (shl m (S k)) with (shl m (S k + 0)) by (f_equal; lia).
    rewrite iter_shr_shl, shl_0.
    destruct (f - e) as [|q'|q'] eqn:Eq'; try lia.
    - cbn [Z.to_nat Nat.iter shr]. f_equal. lia.
    - cbn [shr]. rewrite iter_pos_nat. cbn [Z.to_nat]. f_equal. lia. }
  unfold binary_round_aux. now rewrite E.
Qed.

Lemma binary_round_scale s m e (k : nat) :
  binary_round prec emax s (shl m k) (e - Z.of_nat k) = binary_round prec emax s m e.
Proof.
  unfold binary_round, shl_align. rewrite digits_shl.
  replace (Zpos (digits2_pos m) + Z.of_nat k + (e - Z.of_nat k))
    with (Zpos (digits2_pos m) + e) by lia.
  set (f := fexp prec emax (Zpos (digits2_pos m) + e)).
  destruct (f - e) as [|q|q] eqn:Eq.
  - destruct (f - (e - Z.of_nat k)) as [|q'|q'] eqn:Eq'; try lia;
      apply round_aux_scale; fold f; lia.
  - destruct (f - (e - Z.of_nat k)) as [|q'|q'] eqn:Eq'; try lia;
      apply round_aux_scale; fold f; lia.
  - rewrite pos_iter_shl.
    destruct (f - (e - Z.of_nat k)) as [|q'|q'] eqn:Eq'.
    + replace (shl m k) with (shl (shl m (Pos.to_nat q)) (k - Pos.to_nat q))
        by (rewrite shl_add; f_equal; lia).
      replace (e - Z.of_nat k) with (f - Z.of_nat (k - Pos.to_nat q)) by lia.
      apply round_aux_scale. rewrite digits_shl.
      replace (Zpos (digits2_pos m) + Z.of_nat (Pos.to_nat q) + f)
        with (Zpos (digits2_pos m) + e) by lia.
      fold f. lia.
    + replace (shl m k) with (shl (shl m (Pos.to_nat q)) (k - Pos.to_nat q))
        by (rewrite shl_add; f_equal; lia).
      replace (e - Z.of_nat k) with (f - Z.of_nat (k - Pos.to_nat q)) by lia.
      apply round_aux_scale. rewrite digits_shl.
      replace (Zpos (digits2_pos m) + Z.of_nat (Pos.to_nat q) + f)
        with (Zpos (digits2_pos m) + e) by lia.
      fold f. lia.
    + rewrite pos_iter_shl, shl_add.
      now replace (Pos.to_nat q' + k)%nat with (Pos.to_nat q) by lia.
Qed.

Lemma binary_normalize_scale z e (k : nat) sz :
  binary_normalize prec emax (z * 2 ^ Z.of_nat k) (e - Z.of_nat k) sz
  = binary_normalize prec emax z e sz.
Proof.
  destruct z as [|p|p]; [reflexivity| |].
  - rewrite <- Zpos_shl. apply binary_round_scale.
  - change (Zneg p) with (- Zpos p). rewrite Z.mul_opp_l, <- Zpos_shl.
    apply binary_round_scale.
Qed.

Lemma same_number_sym x y : same_number x y -> same_number y x.
Proof. intros [->|E]; [now left|right]. now rewrite num_eqb_sym. Qed.

Lemma same_number_trans x y z : same_number x y -> same_number y z -> same_number x z.
Proof.
  intros [->|E1] [->|E2]; [now left|now right|now right|right].
  destruct (num_eqb_cases x y E1) as [->|(s & s' & -> & ->)]; [exact E2|].
  destruct (num_eqb_cases _ z E2) as [<-|(t & t' & _ & ->)]; [exact E1|].
  destruct s, t'; reflexivity.
Qed.

(** A sum of two finite doubles is the rounding of the exact sum. *)
Lemma num_add_round x y :
  real x = true -> real y = true ->
  same_number (num_add x y)
              (binary_normalize prec emax (ulps x + ulps y) (emin prec emax) false).
Proof.
  intros Hx Hy.
  assert (Z0 : forall s m e, bounded prec emax m e = true ->
               same_number (S754_finite s m e)
                 (binary_normalize prec emax (ulps (S754_finite s m e))
                                   (emin prec emax) false)).
  { intros s m e Hb.
    pose proof (real_representable _ (real_finite s m e Hb)) as Hr.
    destruct (binary_normalize_exact (ulps (S754_finite s m e)) (emin prec emax) false)
      as [R U]; try (rewrite emin_val; unfold emax, prec; lia).
    { now rewrite Z.sub_diag, Z.mul_1_r. }
    apply ulps_inj; try assumption; [now apply real_finite|].
    now rewrite U, Z.sub_diag, Z.mul_1_r. }
  destruct (real_inv x Hx) as [[s ->]|(s & m & e & -> & Hb)];
    destruct (real_inv y Hy) as [[s' ->]|(s' & m' & e' & -> & Hb')].
  - destruct s, s'; [right|right|right|left]; reflexivity.
  - change (num_add (S754_zero s) (S754_finite s' m' e')) with (S754_finite s' m' e').
    change (ulps (S754_zero s)) with 0. rewrite Z.add_0_l. now apply Z0.
  - change (num_add (S754_finite s m e) (S754_zero s')) with (S754_finite s m e).
    change (ulps (S754_zero s')) with 0. rewrite Z.add_0_r. now apply Z0.
  - destruct (bounded_inv _ _ Hb) as (_ & L & U & _).
    destruct (bounded_inv _ _ Hb') as (_ & L' & U' & _).
    left. unfold num_add. cbn [SFadd].
    set (ez := Z.min e e').
    assert (ez <= e /\ ez <= e') as [Z1 Z2] by (unfold ez; lia).
    rewrite (shl_align_value m e ez Z1), (shl_align_value m' e' ez Z2).
    rewrite !ulps_finite by assumption.
    assert (E : cond_Zopp s (Zpos m * 2 ^ (e - emin prec emax))
                + cond_Zopp s' (Zpos m' * 2 ^ (e' - emin prec emax))
                = (cond_Zopp s (Zpos m * 2 ^ (e - ez))
                   + cond_Zopp s' (Zpos m' * 2 ^ (e' - ez)))
                  * 2 ^ Z.of_nat (Z.to_nat (ez - emin prec emax))).
    { rewrite Z2Nat.id by lia.
      replace (e - emin prec emax) with ((e - ez) + (ez - emin prec emax)) by lia.
      replace (e' - emin prec emax) with ((e' - ez) + (ez - emin prec emax)) by lia.
      rewrite !Z.pow_add_r by (unfold ez; lia).
      destruct s, s'; cbn [cond_Zopp]; ring. }
    rewrite E.
    pose proof (binary_normalize_scale
                  (cond_Zopp s (Zpos m * 2 ^ (e - ez))
                   + cond_Zopp s' (Zpos m' * 2 ^ (e' - ez)))
                  ez (Z.to_nat (ez - emin prec emax)) false) as S.
    replace (ez - Z.of_nat (Z.to_nat (ez - emin prec emax))) with (emin prec emax) in S
      by (rewrite Z2Nat.id; lia).
    now rewrite S.
Qed.

(** Two sums of the same exact value are the same number. *)
Lemma num_add_value x y x' y' :
  real x = true -> real y = true -> real x' = true -> real y' = true ->
  ulps x + ulps y = ulps x' + ulps y' ->
  same_number (num_add x y) (num_add x' y').
Proof.
  intros Hx Hy Hx' Hy' E.
  apply same_number_trans with (1 := num_add_round x y Hx Hy).
  rewrite E. apply same_number_sym. now apply num_add_round.
Qed.

Lemma num_mul_zero x y :
  real x = true -> real y = true -> ulps x * ulps y = 0 ->
  exists s, num_mul x y = S754_zero s.
Proof.
  intros Hx Hy E.
  destruct (real_inv x Hx) as [[s ->]|(s & m & e & -> & Hb)];
    destruct (real_inv y Hy) as [[s' ->]|(s' & m' & e' & -> & Hb')];
    try (eexists; reflexivity).
  destruct (bounded_inv _ _ Hb) as (_ & L & _).
  destruct (bounded_inv _ _ Hb') as (_ & L' & _).
  pose proof (ulps_finite_nonzero s m e L).
  pose proof (ulps_finite_nonzero s' m' e' L'). nia.
Qed.

Lemma round_aux_same s m e m' e' :
  e <= fexp prec emax (Zpos (digits2_pos m) + e) ->
  e' <= e ->
  Zpos m' = Zpos m * 2 ^ (e - e') ->
  binary_round_aux prec emax s (Zpos m') e' loc_Exact
  = binary_round_aux prec emax s (Zpos m) e loc_Exact.
Proof.
  intros H Le E.
  replace m' with (shl m (Z.to_nat (e - e')))
    by (apply Pos2Z.inj; rewrite Zpos_shl, Z2Nat.id by lia; now rewrite E).
  replace e' with (e - Z.of_nat (Z.to_nat (e - e'))) at 2 by (rewrite Z2Nat.id; lia).
  now apply round_aux_scale.
Qed.

(** Two products of the same exact value are the same number. *)
Lemma num_mul_value x y x' y' :
  real x = true -> real y = true -> real x' = true -> real y' = true ->
  ulps x * ulps y = ulps x' * ulps y' ->
  same_number (num_mul x y) (num_mul x' y').
Proof.
  intros Hx Hy Hx' Hy' E.
  destruct (Z.eq_dec (ulps x * ulps y) 0) as [Z0|N0].
  { destruct (num_mul_zero x y Hx Hy Z0) as [s ->].
    rewrite E in Z0. destruct (num_mul_zero x' y' Hx' Hy' Z0) as [s' ->].
    destruct s, s'; [left|right|right|left]; reflexivity. }
  assert (N0' : ulps x' * ulps y' <> 0) by now rewrite <- E.
  destruct (real_inv x Hx) as [[s ->]|(sx & mx & ex & -> & Bx)];
    [now elim N0|].
  destruct (real_inv y Hy) as [[s ->]|(sy & my & ey & -> & By)];
    [elim N0; apply Z.mul_0_r|].
  destruct (real_inv x' Hx') as [[s ->]|(sx' & mx' & ex' & -> & Bx')];
    [now elim N0'|].
  destruct (real_inv y' Hy') as [[s ->]|(sy' & my' & ey' & -> & By')];
    [elim N0'; apply Z.mul_0_r|].
  destruct (bounded_inv _ _ Bx) as (_ & Lx & _), (bounded_inv _ _ By) as (_ & Ly & _).
  destruct (bounded_inv _ _ Bx') as (_ & Lx' & _), (bounded_inv _ _ By') as (_ & Ly' & _).
  rewrite !ulps_finite, !cond_Zopp_mul in E by assumption.
  rewrite emin_val in *.
  assert (P : forall a, 0 <= a -> 0 < 2 ^ a) by (intros; now apply Z.pow_pos_nonneg).
  pose proof (P (ex - -1074) ltac:(lia)). pose proof (P (ey - -1074) ltac:(lia)).
  pose proof (P (ex' - -1074) ltac:(lia)). pose proof (P (ey' - -1074) ltac:(lia)).
  apply cond_Zopp_inj in E as [Es Em]; try nia.
  left. unfold num_mul. cbn [SFmul]. rewrite Es.
  assert (Em' : Zpos (mx * my) * 2 ^ (ex + ey + 2148)
                = Zpos (mx' * my') * 2 ^ (ex' + ey' + 2148)).
  { replace (ex + ey + 2148) with ((ex - -1074) + (ey - -1074)) by lia.
    replace (ex' + ey' + 2148) with ((ex' - -1074) + (ey' - -1074)) by lia.
    rewrite !Z.pow_add_r, !Pos2Z.inj_mul by lia. nia. }
  destruct (Z.le_ge_cases (ex + ey) (ex' + ey')) as [Le|Ge].
  - apply round_aux_same; [now apply mul_exponent|exact Le|].
    replace (ex' + ey' + 2148) with ((ex' + ey' - (ex + ey)) + (ex + ey + 2148)) in Em'
      by lia.
    rewrite (Z.pow_add_r 2 (ex' + ey' - (ex + ey)) (ex + ey + 2148)) in Em' by lia.
    rewrite Z.mul_assoc in Em'.
    apply Z.mul_reg_r in Em'; [exact Em'|].
    pose proof (P (ex + ey + 2148) ltac:(lia)). lia.
  - symmetry. apply round_aux_same; [now apply mul_exponent|lia|].
    replace (ex + ey + 2148) with ((ex + ey - (ex' + ey')) + (ex' + ey' + 2148)) in Em'
      by lia.
    rewrite (Z.pow_add_r 2 (ex + ey - (ex' + ey')) (ex' + ey' + 2148)) in Em' by lia.
    rewrite Z.mul_assoc in Em'.
    apply Z.mul_reg_r in Em'; [now symmetry|].
    pose proof (P (ex' + ey' + 2148) ltac:(lia)). lia.
Qed.

(** ** Simplification keeps the result *)

Arguments MATH_simplify : simpl never.

Lemma rot_exact x k md :
  isInteger x = true -> exact_add x k = true -> real md = true -> ulps md <> 0 ->
  MATH_apply (Mrot k md) (VNum x) = Ret (VNum (num_rem (num_add x k) md))
  /\ real (num_rem (num_add x k) md) = true
  /\ ulps (num_rem (num_add x k) md) = Z.rem (ulps x + ulps k) (ulps md).
Proof.
  intros Hi Ha Rm Nm.
  destruct (add_exact_general x k Ha) as [Rs Us].
  destruct (rem_exact_general _ md Rs Rm Nm) as [Rr Ur].
  split; [|split; [exact Rr|now rewrite Ur, Us]].
  cbn [MATH_apply]. now rewrite Hi.
Qed.

Lemma simplify_apply (A : op) (document : value) :
  simplify_regime A document ->
  same_outcome (apply (simplify A) document) (apply A document).
Proof.
  intros [E|H]; [rewrite E; apply same_outcome_refl|].
  destruct A as [|v|m]; try contradiction.
  cbn [simplify apply].
  destruct m as [k|k|k md|[k|k]|[k|k]|[k|k]|], document as [|b|x|s|l];
    cbn [simplify_regime] in H; try contradiction;
    unfold MATH_simplify;
    cbn [scalar_strict_zero scalar_strict_false scalar_loose_zero].
  - (* add *)
    destruct (num_eqb k (of_Z 0)) eqn:E; [|apply same_outcome_refl].
    destruct (num_eqb_zero k E) as [s ->].
    cbn [apply MATH_apply NO_OP_apply same_outcome].
    apply same_document_sym, same_number_document, num_add_zero_r.
  - (* mult *)
    destruct (num_eqb k (of_Z 1)) eqn:E; [|apply same_outcome_refl].
    rewrite (num_eqb_one k E).
    cbn [apply MATH_apply NO_OP_apply same_outcome].
    rewrite (num_mul_one x H). apply same_document_refl.
  - (* rot *)
    destruct H as (Hi & Rx & Rm & H).
    destruct (num_eqb k (of_Z 0)) eqn:E.
    + destruct (num_eqb_zero k E) as [s ->].
      cbn [apply MATH_apply NO_OP_apply]. rewrite Hi. cbn [same_outcome].
      destruct (num_add_zero_ulps x s Rx) as [Ra Ua].
      assert (Nm : ulps md <> 0) by lia.
      destruct (rem_exact_general _ md Ra Rm Nm) as [Rr Ur].
      apply same_number_document, ulps_inj; try assumption.
      rewrite Ur, Ua. symmetry. now apply rem_small_abs.
    + destruct H as (Nm & Ea & Er & S).
      destruct (exact_add_inv _ _ Ea) as (_ & Rk & _).
      destruct (rem_exact_general k md Rk Rm Nm) as [Rkm Ukm].
      cbn [apply].
      destruct (rot_exact x k md Hi Ea Rm Nm) as (-> & R1 & U1).
      destruct (rot_exact x (num_rem k md) md Hi Er Rm Nm) as (-> & R2 & U2).
      cbn [same_outcome].
      apply same_number_document, ulps_inj; try assumption.
      rewrite U1, U2, Ukm.
      destruct (rem_add_rem (ulps x) (ulps k) (ulps md) Nm) as [q Eq].
      apply rem_congr with (q := q); try assumption.
      unfold agree_in_sign in S.
      rewrite (proj2 (add_exact_general _ _ Ea)) in S.
      rewrite (proj2 (add_exact_general _ _ Er)), Ukm in S. lia.
  - (* and 0 on true *)
    subst b. destruct (num_eqb k (of_Z 0)) eqn:E; [|apply same_outcome_refl].
    cbn. right. cbn. now rewrite num_eqb_sym.
  - (* and 0 on a number *)
    destruct (num_eqb k (of_Z 0)) eqn:E; [|apply same_outcome_refl].
    destruct (num_eqb_zero k E) as [s ->].
    cbn [apply MATH_apply SET_apply scalar_int32]. rewrite H.
    rewrite ToInt32_zero, Z.land_0_r. apply same_outcome_refl.
  - (* and false on a boolean *)
    destruct k, b; apply same_outcome_refl.
  - (* or 0 on true *)
    subst b. destruct (num_eqb k (of_Z 0)); apply same_outcome_refl.
  - (* or 0 on a number *)
    destruct (num_eqb k (of_Z 0)) eqn:E; [|apply same_outcome_refl].
    destruct (num_eqb_zero k E) as [s ->].
    cbn [apply MATH_apply NO_OP_apply scalar_int32].
    rewrite (is_int32_isInteger x H), ToInt32_zero, Z.lor_0_r.
    cbn [same_outcome]. now apply same_document_sym, is_int32_same.
  - (* or false on a boolean *)
    destruct k, b; apply same_outcome_refl.
  - (* or false on a number *)
    destruct k; [apply same_outcome_refl|].
    cbn [negb apply MATH_apply NO_OP_apply scalar_int32 bool_int32].
    rewrite (is_int32_isInteger x H), Z.lor_0_r.
    cbn [same_outcome]. now apply same_document_sym, is_int32_same.
  - (* xor 0 on a boolean *)
    destruct (num_eqb k (of_Z 0)) eqn:E; [|apply same_outcome_refl].
    destruct (num_eqb_zero k E) as [s ->].
    destruct b; apply same_outcome_refl.
  - (* xor 0 on a number *)
    destruct (num_eqb k (of_Z 0)) eqn:E; [|apply same_outcome_refl].
    destruct (num_eqb_zero k E) as [s ->].
    cbn [apply MATH_apply NO_OP_apply scalar_int32].
    rewrite (is_int32_isInteger x H), ToInt32_zero, Z.lxor_0_r.
    cbn [same_outcome]. now apply same_document_sym, is_int32_same.
  - (* xor false on a boolean *)
    destruct k, b; apply same_outcome_refl.
  - (* xor false on a number *)
    destruct k; [apply same_outcome_refl|].
    cbn [negb apply MATH_apply NO_OP_apply scalar_int32 bool_int32].
    rewrite (is_int32_isInteger x H), Z.lxor_0_r.
    cbn [same_outcome]. now apply same_document_sym, is_int32_same.
Qed.

(** ** The same document, transitively *)

Lemma num_eqb_trans a b c :
  num_eqb a b = true -> num_eqb b c = true -> num_eqb a c = true.
Proof.
  intros E1 E2.
  destruct (num_eqb_cases a b E1) as [->|(s & s' & -> & ->)]; [exact E2|].
  destruct (num_eqb_cases _ c E2) as [<-|(t & t' & _ & ->)]; [exact E1|].
  destruct s, t'; reflexivity.
Qed.

Lemma deep_equal_trans a : forall b c,
  deep_equal a b = true -> deep_equal b c = true -> deep_equal a c = true.
Proof.
  induction a as [| x | x | s | l IH] using value_rect';
    intros [| y | y | t | l'] [| z | z | u | l'']; cbn; try discriminate; try reflexivity.
  - intros E1 E2. apply Bool.eqb_prop in E1, E2. subst. apply Bool.eqb_reflx.
  - apply num_eqb_trans.
  - intros E1 E2. apply String.eqb_eq in E1, E2. subst. apply String.eqb_refl.
  - revert l' l''.
    induction IH as [|x l Hx _ IHl]; intros [|y l'] [|z l'']; cbn;
      try discriminate; try reflexivity.
    intros E1 E2.
    apply andb_true_iff in E1 as [E1 E1'], E2 as [E2 E2'].
    rewrite (Hx y z E1 E2). cbn. now apply IHl with (l' := l').
Qed.

Lemma same_document_trans u v w :
  same_document u v -> same_document v w -> same_document u w.
Proof.
  intros [->|E1] [->|E2]; [now left|now right|now right|right].
  now apply deep_equal_trans with (b := v).
Qed.

Lemma same_outcome_trans r s t :
  same_outcome r s -> same_outcome s t -> same_outcome r t.
Proof.
  destruct r, s, t; cbn; try tauto. apply same_document_trans.
Qed.

(** ** Composition keeps the result *)

#[local] Hint Resolve int32_scalar int32_bool : regime.

Lemma isInteger_int32 z : int32 z -> isInteger (of_Z z) = true.
Proof. intro H. now apply isInteger_of_Z, int32_safe. Qed.

Lemma pow_1074_pos : 0 < 2 ^ 1074.
Proof. now apply Z.pow_pos_nonneg. Qed.

Lemma compose_add x a b :
  exact_add x a = true -> exact_add a b = true ->
  same_number (num_add x (num_add a b)) (num_add (num_add x a) b).
Proof.
  intros H1 H3.
  destruct (add_exact_general _ _ H1) as [R1 U1].
  destruct (add_exact_general _ _ H3) as [R3 U3].
  destruct (exact_add_inv _ _ H1) as (Rx & _ & _).
  destruct (exact_add_inv _ _ H3) as (_ & Rb & _).
  apply num_add_value; try assumption. rewrite U1, U3. lia.
Qed.

Lemma compose_mult x a b :
  exact_mul x a = true -> exact_mul a b = true ->
  same_number (num_mul x (num_mul a b)) (num_mul (num_mul x a) b).
Proof.
  intros H1 H3.
  pose proof pow_1074_pos as T.
  destruct (mul_exact_general _ _ H1) as [R1 U1].
  destruct (mul_exact_general _ _ H3) as [R3 U3].
  destruct (exact_mul_inv _ _ H1) as (Rx & _ & _).
  destruct (exact_mul_inv _ _ H3) as (_ & Rb & _).
  apply num_mul_value; try assumption.
  apply Z.mul_reg_r with (p := 2 ^ 1074); [lia|].
  rewrite <- Z.mul_assoc, U3.
  replace (ulps (num_mul x a) * ulps b * 2 ^ 1074)
    with (ulps (num_mul x a) * 2 ^ 1074 * ulps b) by ring.
  rewrite U1. ring.
Qed.

Lemma num_eqb_real_eq m m' :
  real m = true -> ulps m <> 0 -> num_eqb m m' = true -> m' = m.
Proof.
  intros R N E.
  destruct (num_eqb_cases m m' E) as [->|(s & s' & -> & _)]; [reflexivity|].
  now elim N.
Qed.

Lemma compose_rot x a b md :
  isInteger x = true -> exact_add x a = true ->
  real md = true -> ulps md <> 0 ->
  isInteger (num_rem (num_add x a) md) = true ->
  exact_add (num_rem (num_add x a) md) b = true ->
  fuses_exactly (Mrot a md) (Mrot b md) (VNum x) ->
  same_outcome (apply (MATH_simplify (Mrot (num_add a b) md)) (VNum x))
               (Ret (VNum (num_rem (num_add (num_rem (num_add x a) md) b) md))).
Proof.
  intros Hi H1 Rm Nm Hi' H2 (H3 & F).
  destruct (rot_exact x a md Hi H1 Rm Nm) as (_ & R1 & U1).
  destruct (add_exact_general _ _ H2) as [R2 U2].
  destruct (rem_exact_general _ md R2 Rm Nm) as [R5 U5].
  destruct (add_exact_general _ _ H3) as [R3 U3].
  destruct (exact_add_inv _ _ H1) as (Rx & _ & _).
  destruct (rem_add_rem (ulps b) (ulps x + ulps a) (ulps md) Nm) as [q Eq].
  unfold MATH_simplify.
  rewrite (num_eqb_zero_ulps _ R3) in *.
  destruct (ulps (num_add a b) =? 0) eqn:Z0.
  - apply Z.eqb_eq in Z0. destruct F as [Small S].
    cbn [apply NO_OP_apply same_outcome].
    apply same_number_document, ulps_inj; try assumption.
    rewrite U5, U2, U1.
    unfold agree_in_sign in S. rewrite U2, U1 in S.
    rewrite <- (rem_small_abs (ulps x) (ulps md) Small) at 1.
    symmetry. apply rem_congr with (q := q); try assumption; lia.
  - destruct F as [H4 S].
    destruct (rem_exact_general _ md R3 Rm Nm) as [R6 U6].
    cbn [apply].
    destruct (rot_exact x _ md Hi H4 Rm Nm) as (-> & R7 & U7).
    cbn [same_outcome].
    apply same_number_document, ulps_inj; try assumption.
    rewrite U7, U6, U5, U3, U2, U1.
    destruct (rem_add_rem (ulps x) (ulps a + ulps b) (ulps md) Nm) as [q' Eq'].
    unfold agree_in_sign in S.
    rewrite U2, U1, (proj2 (add_exact_general _ _ H4)), U6, U3 in S.
    apply rem_congr with (q := q' - q); try assumption; lia.
Qed.

Lemma apply_and x k : isInteger x = true ->
  MATH_apply (Mand k) (VNum x)
  = Ret (VNum (of_Z (Z.land (ToInt32 x) (scalar_int32 k)))).
Proof. intro H. cbn. now rewrite H. Qed.

Lemma apply_or x k : isInteger x = true ->
  MATH_apply (Mor k) (VNum x)
  = Ret (VNum (of_Z (Z.lor (ToInt32 x) (scalar_int32 k)))).
Proof. intro H. cbn. now rewrite H. Qed.

Lemma apply_xor x k : isInteger x = true ->
  MATH_apply (Mxor k) (VNum x)
  = Ret (VNum (of_Z (Z.lxor (ToInt32 x) (scalar_int32 k)))).
Proof. intro H. cbn. now rewrite H. Qed.

Lemma apply_not x : isInteger x = true ->
  MATH_apply Mnot (VNum x) = Ret (VNum (of_Z (Z.lnot (ToInt32 x)))).
Proof. intro H. cbn. now rewrite H. Qed.

(** The 32-bit operators applied to the result of a 32-bit operator. *)
Ltac bits :=
  repeat first
    [ rewrite apply_and by auto using isInteger_int32 with regime
    | rewrite apply_or by auto using isInteger_int32 with regime
    | rewrite apply_xor by auto using isInteger_int32 with regime
    | rewrite apply_not by auto using isInteger_int32 with regime
    | rewrite ToInt32_of_Z by auto with regime
    | progress cbn [bind apply scalar_int32 scalar_value]
    | progress unfold SET_apply, NO_OP_apply ].

Lemma simplify_bits_unchanged z :
  int32 z -> z <> 0 -> num_eqb (of_Z z) (of_Z 0) = false.
Proof.
  intros I N. rewrite num_eqb_of_Z by auto using int32_safe with regime.
  now apply Z.eqb_neq.
Qed.

Lemma bool_int32_orb a b : bool_int32 (a || b) = Z.lor (bool_int32 a) (bool_int32 b).
Proof. now destruct a, b. Qed.

Lemma atomic_compose_apply (A B C : op) (document : value) :
  compose_regime A B document ->
  atomic_compose A B = Ret (Some C) ->
  same_outcome (apply C document) (d' <- apply A document ;; apply B d').
Proof.
  intros H HC. destruct A as [|v|a].
  - injection HC as <-. apply same_outcome_refl.
  - cbn [atomic_compose] in HC. unfold SET_atomic_compose in HC.
    cbn [apply bind]. unfold SET_apply.
    destruct (apply B v) as [w|]; [|discriminate HC].
    injection HC as <-. apply same_outcome_refl.
  - destruct B as [|w|b]; try discriminate HC.
    destruct H as (H1 & H2 & H3).
    cbn [atomic_compose MATH_atomic_compose] in HC.
    destruct a as [ka|ka|ka ma|[ka|ka]|[ka|ka]|[ka|ka]|],
             b as [kb|kb|kb mb|[kb|kb]|[kb|kb]|[kb|kb]|];
      try discriminate HC;
      destruct document as [|d|x|s|l]; cbn [applies_exactly typed] in H1;
      try contradiction; try discriminate H1;
      cbn [apply] in H2.
    + (* add, add *)
      injection HC as <-. cbn [fuses_exactly] in H3.
      apply same_outcome_trans with (s := apply (MATH (Madd (num_add ka kb))) (VNum x)).
      * apply (simplify_apply (MATH (Madd (num_add ka kb)))). now right.
      * cbn. now apply same_number_document, compose_add.
    + (* mult, mult *)
      injection HC as <-. cbn [fuses_exactly] in H3.
      apply same_outcome_trans with (s := apply (MATH (Mmult (num_mul ka kb))) (VNum x)).
      * apply (simplify_apply (MATH (Mmult (num_mul ka kb)))). right.
        cbn. apply real_is_double. now destruct (exact_mul_inv _ _ H1).
      * cbn. now apply same_number_document, compose_mult.
    + (* rot, rot *)
      destruct H1 as (Hi & H1 & Rm & Nm).
      destruct (num_eqb ma mb) eqn:E; [|discriminate HC].
      rewrite (num_eqb_real_eq ma mb Rm Nm E) in *.
      injection HC as <-.
      cbn [MATH_apply] in H2. rewrite Hi in H2.
      destruct (H2 _ eq_refl) as (Hi' & H2' & _).
      cbn [apply MATH_apply bind]. rewrite Hi. cbn [bind MATH_apply]. rewrite Hi'.
      now apply compose_rot.
    + (* and, and: numbers *)
      injection HC as <-.
      apply same_outcome_trans
        with (s := apply (MATH (Mand (SNum (of_Z (Z.land (ToInt32 ka) (ToInt32 kb))))))
                         (VNum x)).
      * apply (simplify_apply (MATH (Mand (SNum _)))). now right.
      * bits. now rewrite Z.land_assoc; apply same_outcome_refl.
    + (* and, or: numbers *)
      cbn [fuses_exactly scalar_strict_eq] in H3.
      cbn [scalar_strict_eq] in HC.
      destruct (num_eqb ka kb) eqn:E; [|discriminate HC].
      injection HC as <-. bits.
      rewrite <- (num_eqb_ToInt32 ka kb E), lor_land_same.
      cbn [same_outcome]. apply same_document_sym, is_int32_same. now apply H3.
    + (* and, and: booleans on a boolean *)
      injection HC as <-. destruct ka, kb, d; apply same_outcome_refl.
    + (* and, and: booleans on a number *)
      injection HC as <-. cbn [fuses_exactly] in H3.
      apply andb_true_iff in H3 as [-> ->].
      unfold MATH_simplify. cbn [scalar_strict_zero scalar_strict_false andb negb].
      bits. rewrite land_idem. apply same_outcome_refl.
    + (* and, or: booleans on a boolean *)
      cbn [scalar_strict_eq] in HC.
      destruct (Bool.eqb ka kb) eqn:E; [|discriminate HC].
      apply Bool.eqb_prop in E. subst kb. injection HC as <-.
      destruct ka, d; apply same_outcome_refl.
    + (* and, or: booleans on a number *)
      cbn [scalar_strict_eq] in HC.
      destruct (Bool.eqb ka kb) eqn:E; [|discriminate HC].
      cbn [fuses_exactly scalar_strict_eq] in H3. now elim (H3 E).
    + (* or, or: numbers *)
      injection HC as <-. cbn [fuses_exactly scalar_int32] in H3.
      apply same_outcome_trans
        with (s := apply (MATH (Mor (SNum (of_Z (Z.lor (ToInt32 ka) (ToInt32 kb))))))
                         (VNum x)).
      * apply (simplify_apply (MATH (Mor (SNum _)))).
        destruct H3 as [H3|H3]; [now right|left].
        cbn [simplify]. unfold MATH_simplify. cbn [scalar_strict_zero scalar_strict_false].
        now rewrite simplify_bits_unchanged by auto with regime.
      * bits. now rewrite Z.lor_assoc; apply same_outcome_refl.
    + (* or, xor: numbers *)
      cbn [scalar_strict_eq] in HC.
      destruct (num_eqb ka kb) eqn:E; [|discriminate HC].
      injection HC as <-. bits.
      rewrite <- (num_eqb_ToInt32 ka kb E), lxor_lor_same.
      apply same_outcome_refl.
    + (* or, or: booleans on a boolean *)
      injection HC as <-. destruct ka, kb, d; apply same_outcome_refl.
    + (* or, or: booleans on a number *)
      injection HC as <-. cbn [fuses_exactly scalar_int32] in H3.
      apply same_outcome_trans
        with (s := apply (MATH (Mor (SBool (ka || kb)))) (VNum x)).
      * apply (simplify_apply (MATH (Mor (SBool _)))).
        destruct H3 as [H3|H3]; [now right|left].
        destruct ka, kb; try reflexivity. now elim H3.
      * bits. rewrite bool_int32_orb, Z.lor_assoc. apply same_outcome_refl.
    + (* or, xor: booleans on a boolean *)
      cbn [scalar_strict_eq] in HC.
      destruct (Bool.eqb ka kb) eqn:E; [|discriminate HC].
      apply Bool.eqb_prop in E. subst kb. injection HC as <-.
      destruct ka, d; apply same_outcome_refl.
    + (* or, xor: booleans on a number *)
      cbn [scalar_strict_eq] in HC.
      destruct (Bool.eqb ka kb) eqn:E; [|discriminate HC].
      cbn [fuses_exactly scalar_strict_eq typed] in H3.
      destruct (H3 E) as [H4|H4]; [discriminate H4|].
      apply Bool.eqb_prop in E. subst kb. injection HC as <-. bits.
      destruct H4 as [-> | ->], ka; apply same_outcome_refl.
    + (* xor, xor: numbers *)
      injection HC as <-. cbn [fuses_exactly scalar_int32] in H3.
      apply same_outcome_trans
        with (s := apply (MATH (Mxor (SNum (of_Z (Z.lxor (ToInt32 ka) (ToInt32 kb))))))
                         (VNum x)).
      * apply (simplify_apply (MATH (Mxor (SNum _)))).
        destruct H3 as [H3|H3]; [now right|left].
        cbn [simplify]. unfold MATH_simplify. cbn [scalar_loose_zero].
        now rewrite simplify_bits_unchanged by auto with regime.
      * bits. now rewrite Z.lxor_assoc; apply same_outcome_refl.
    + (* xor, xor: booleans on a boolean *)
      injection HC as <-. destruct ka, kb, d; apply same_outcome_refl.
    + (* xor, xor: booleans on a number *)
      injection HC as <-. cbn [fuses_exactly scalar_int32] in H3.
      apply same_outcome_trans
        with (s := apply (MATH (Mxor (SBool (negb (Z.lxor (bool_int32 ka)
                                                         (bool_int32 kb) =? 0)))))
                         (VNum x)).
      * apply (simplify_apply (MATH (Mxor (SBool _)))).
        destruct H3 as [H3|H3]; [now right|left].
        destruct ka, kb; try reflexivity; now elim H3.
      * bits. rewrite Z.lxor_assoc.
        destruct ka, kb; apply same_outcome_refl.
    + (* not, not on a boolean *)
      injection HC as <-. destruct d; apply same_outcome_refl.
    + (* not, not on a number *)
      injection HC as <-. cbn [fuses_exactly] in H3. bits.
      rewrite Z.lnot_involutive. cbn [same_outcome].
      now apply same_document_sym, is_int32_same.
Qed.

(** ** The inverse restores the document *)

Lemma real_neg k : real k = true ->
  real (num_neg k) = true /\ ulps (num_neg k) = - ulps k.
Proof.
  destruct k as [s|s| |s m e]; intro R; try discriminate R.
  - split; reflexivity.
  - split; [exact R|]. cbn [num_neg SFopp ulps]. destruct s; cbn [negb cond_Zopp]; lia.
Qed.

Lemma inverse_add x k :
  exact_add x k = true ->
  same_number (num_add (num_add x k) (num_neg k)) x.
Proof.
  intro H.
  destruct (add_exact_general _ _ H) as [R U].
  destruct (exact_add_inv _ _ H) as (Rx & Rk & _).
  destruct (real_neg k Rk) as [Rn Un].
  assert (H' : exact_add (num_add x k) (num_neg k) = true).
  { apply exact_add_intro; try assumption.
    rewrite U, Un. replace (ulps x + ulps k + - ulps k) with (ulps x) by lia.
    now apply real_representable. }
  destruct (add_exact_general _ _ H') as [R' U'].
  apply ulps_inj; try assumption. rewrite U', U, Un. lia.
Qed.

Lemma exact_reciprocal_inv k :
  exact_reciprocal k = true ->
  real k = true /\ real (num_div (of_Z 1) k) = true
  /\ ulps k * ulps (num_div (of_Z 1) k) = 2 ^ 2148.
Proof.
  unfold exact_reciprocal. intro E.
  apply andb_true_iff in E as [E E3]. apply andb_true_iff in E as [E1 E2].
  apply Z.eqb_eq in E3. tauto.
Qed.

Lemma inverse_mult x k :
  exact_mul x k = true -> exact_reciprocal k = true ->
  same_number (num_mul (num_mul x k) (num_div (of_Z 1) k)) x.
Proof.
  intros H HR.
  pose proof pow_1074_pos as T.
  destruct (mul_exact_general _ _ H) as [R U].
  destruct (exact_mul_inv _ _ H) as (Rx & _ & _).
  destruct (exact_reciprocal_inv k HR) as (Rk & Rr & Ur).
  assert (E : ulps (num_mul x k) * ulps (num_div (of_Z 1) k) = ulps x * 2 ^ 1074).
  { apply Z.mul_reg_r with (p := 2 ^ 1074); [lia|].
    replace (ulps (num_mul x k) * ulps (num_div (of_Z 1) k) * 2 ^ 1074)
      with (ulps (num_mul x k) * 2 ^ 1074 * ulps (num_div (of_Z 1) k)) by ring.
    rewrite U, <- Z.mul_assoc, Ur.
    change (2 ^ 2148) with (2 ^ (1074 + 1074)).
    rewrite Z.pow_add_r by lia. ring. }
  assert (H' : exact_mul (num_mul x k) (num_div (of_Z 1) k) = true).
  { apply exact_mul_intro; try assumption; rewrite E.
    - apply Z.mod_mul. lia.
    - rewrite Z.div_mul by lia. now apply real_representable. }
  destruct (mul_exact_general _ _ H') as [R' U'].
  apply ulps_inj; try assumption.
  apply Z.mul_reg_r with (p := 2 ^ 1074); [lia|]. now rewrite U'.
Qed.

Lemma inverse_apply (A : op) (document : value) :
  invertible A document ->
  exists B,
    inverse A document = Some B
    /\ same_outcome (d' <- apply A document ;; apply B d') (Ret document).
Proof.
  destruct A as [|v|m].
  - intros _. exists NO_OP. split; [reflexivity|apply same_outcome_refl].
  - intros _. exists (SET document). split; [reflexivity|apply same_outcome_refl].
  - destruct m as [k|k|k md|[k|k]|[k|k]|[k|k]|], document as [|b|x|s|l];
      cbn [invertible]; try contradiction; intro H;
      (eexists; split; [reflexivity|]);
      try (pose proof (is_int32_isInteger x H) as Hi; cbn [value_int32]; bits;
           rewrite ?lor_land_lnot, ?lxor_lor_lnot, ?lxor_lxor_same, ?Z.lnot_involutive;
           cbn [same_outcome]; now apply is_int32_same);
      try (destruct k, b; vm_compute; now left).
    + cbn. now apply same_number_document, inverse_add.
    + destruct H as [H HR]. cbn. now apply same_number_document, inverse_mult.
    + destruct b; vm_compute; now left.
Qed.

(** ** Operations that commute *)

Lemma applies_inv (o : op) (document : value) :
  applies o document = true -> exists r, apply o document = Ret r.
Proof.
  unfold applies. destruct (apply o document) as [r|]; [|discriminate].
  intros _. now exists r.
Qed.

Lemma applies_exactly_returns (a : math) (document : value) :
  applies_exactly a document -> exists r, apply (MATH a) document = Ret r.
Proof.
  destruct a as [k|k|k md|[k|k]|[k|k]|[k|k]|], document as [|b|x|s|l];
    cbn [applies_exactly typed]; try contradiction; try discriminate;
    intro H; cbn [apply MATH_apply];
    try (destruct H as (H & _)); try rewrite H; eauto.
Qed.

Lemma applies_last_returns (a : math) (document : value) :
  applies_last a document -> exists r, apply (MATH a) document = Ret r.
Proof.
  destruct a as [k|k|k md|k|k|k|], document as [|b|x|s|l];
    cbn [applies_last]; try apply applies_exactly_returns;
    intros _; cbn; eauto.
Qed.

Lemma commute_add x a b :
  exact_add x a = true -> exact_add x b = true ->
  same_number (num_add (num_add x a) b) (num_add (num_add x b) a).
Proof.
  intros Ha Hb.
  destruct (add_exact_general _ _ Ha) as [Ra Ua].
  destruct (add_exact_general _ _ Hb) as [Rb Ub].
  destruct (exact_add_inv _ _ Ha) as (_ & Rka & _).
  destruct (exact_add_inv _ _ Hb) as (_ & Rkb & _).
  apply num_add_value; try assumption. rewrite Ua, Ub. lia.
Qed.

Lemma commute_mult x a b :
  exact_mul x a = true -> exact_mul x b = true ->
  same_number (num_mul (num_mul x a) b) (num_mul (num_mul x b) a).
Proof.
  intros Ha Hb.
  pose proof pow_1074_pos as T.
  destruct (mul_exact_general _ _ Ha) as [Ra Ua].
  destruct (mul_exact_general _ _ Hb) as [Rb Ub].
  destruct (exact_mul_inv _ _ Ha) as (_ & Rka & _).
  destruct (exact_mul_inv _ _ Hb) as (_ & Rkb & _).
  apply num_mul_value; try assumption.
  apply Z.mul_reg_r with (p := 2 ^ 1074); [lia|].
  replace (ulps (num_mul x a) * ulps b * 2 ^ 1074)
    with (ulps (num_mul x a) * 2 ^ 1074 * ulps b) by ring.
  replace (ulps (num_mul x b) * ulps a * 2 ^ 1074)
    with (ulps (num_mul x b) * 2 ^ 1074 * ulps a) by ring.
  rewrite Ua, Ub. ring.
Qed.

Lemma commute_rot x a b md :
  isInteger x = true -> real md = true -> ulps md <> 0 ->
  exact_add x a = true -> exact_add x b = true ->
  exact_add (num_rem (num_add x a) md) b = true ->
  exact_add (num_rem (num_add x b) md) a = true ->
  agree_in_sign (num_add (num_rem (num_add x a) md) b)
                (num_add (num_rem (num_add x b) md) a) ->
  same_number (num_rem (num_add (num_rem (num_add x a) md) b) md)
              (num_rem (num_add (num_rem (num_add x b) md) a) md).
Proof.
  intros Hi Rm Nm Ha Hb Hab Hba S.
  destruct (rot_exact x a md Hi Ha Rm Nm) as (_ & _ & Ua).
  destruct (rot_exact x b md Hi Hb Rm Nm) as (_ & _ & Ub).
  destruct (add_exact_general _ _ Hab) as [Rab Uab].
  destruct (add_exact_general _ _ Hba) as [Rba Uba].
  destruct (rem_exact_general _ md Rab Rm Nm) as [R1 U1].
  destruct (rem_exact_general _ md Rba Rm Nm) as [R2 U2].
  apply ulps_inj; try assumption.
  rewrite U1, U2. unfold agree_in_sign in S.
  rewrite Uab, Uba, Ua, Ub in *.
  destruct (rem_add_rem (ulps b) (ulps x + ulps a) (ulps md) Nm) as [q Eq].
  destruct (rem_add_rem (ulps a) (ulps x + ulps b) (ulps md) Nm) as [q' Eq'].
  apply rem_congr with (q := q - q'); try assumption; lia.
Qed.

Lemma land_swap x a b : Z.land (Z.land x a) b = Z.land (Z.land x b) a.
Proof. bitwise. Qed.

Lemma lor_swap x a b : Z.lor (Z.lor x a) b = Z.lor (Z.lor x b) a.
Proof. bitwise. Qed.

Lemma lxor_swap x a b : Z.lxor (Z.lxor x a) b = Z.lxor (Z.lxor x b) a.
Proof. bitwise. Qed.

(** Two operations with the same operator, each applied exactly after
    the other, give the same document in the two orders. *)
Lemma same_operator_commute (a b : math) (document : value) :
  same_operator a b = true ->
  commutes_exactly a b document ->
  exists r r',
    apply_list [MATH a; MATH b] document = Ret r
    /\ apply_list [MATH b; MATH a] document = Ret r'
    /\ same_document r r'.
Proof.
  intros HS (Ha & Hb & Hab & Hba & S).
  destruct (applies_exactly_returns a document Ha) as (da & Ea).
  destruct (applies_exactly_returns b document Hb) as (db & Eb).
  specialize (Hab da Ea). specialize (Hba db Eb).
  destruct (applies_last_returns b da Hab) as (r & Er).
  destruct (applies_last_returns a db Hba) as (r' & Er').
  exists r, r'. rewrite !apply_list_two, Ea, Eb. cbn [bind].
  split; [exact Er|split; [exact Er'|]].
  destruct a as [ka|ka|ka ma|ka|ka|ka|], b as [kb|kb|kb mb|kb|kb|kb|];
    try discriminate HS;
    destruct document as [|d|x|s|l]; try discriminate Ea;
    cbn [apply] in *.
  - (* add *)
    cbn [MATH_apply] in Ea, Eb. injection Ea as <-. injection Eb as <-.
    cbn [MATH_apply] in Er, Er'. injection Er as <-. injection Er' as <-.
    cbn [applies_exactly] in *. now apply same_number_document, commute_add.
  - (* mult *)
    cbn [MATH_apply] in Ea, Eb. injection Ea as <-. injection Eb as <-.
    cbn [MATH_apply] in Er, Er'. injection Er as <-. injection Er' as <-.
    cbn [applies_exactly] in *. now apply same_number_document, commute_mult.
  - (* rot *)
    cbn [applies_exactly] in Ha, Hb.
    destruct Ha as (Hi & Ha & Rm & Nm). destruct Hb as (_ & Hb & _ & _).
    assert (E : num_eqb ma mb = true) by exact HS.
    rewrite (num_eqb_real_eq ma mb Rm Nm E) in *.
    cbn [MATH_apply] in Ea, Eb. rewrite Hi in Ea, Eb.
    injection Ea as <-. injection Eb as <-.
    cbn [applies_last applies_exactly] in Hab, Hba.
    destruct Hab as (Hia & Hab & _). destruct Hba as (Hib & Hba & _).
    cbn [MATH_apply] in Er, Er'. rewrite Hia in Er. rewrite Hib in Er'.
    injection Er as <-. injection Er' as <-.
    now apply same_number_document, commute_rot.
  - (* and on a boolean *)
    destruct ka as [ka|ka], kb as [kb|kb]; try discriminate Ha; try discriminate Hb.
    destruct ka, kb, d; cbn in Ea, Eb; injection Ea as <-; injection Eb as <-;
      cbn in Er, Er'; injection Er as <-; injection Er' as <-; now left.
  - (* and on a number *)
    cbn [applies_exactly] in Ha. rewrite apply_and in Ea, Eb by assumption.
    injection Ea as <-. injection Eb as <-.
    rewrite apply_and in Er, Er' by auto using isInteger_int32 with regime.
    rewrite ToInt32_of_Z in Er, Er' by auto with regime.
    injection Er as <-. injection Er' as <-.
    rewrite land_swap. apply same_document_refl.
  - (* or on a boolean *)
    destruct ka as [ka|ka], kb as [kb|kb]; try discriminate Ha; try discriminate Hb.
    destruct ka, kb, d; cbn in Ea, Eb; injection Ea as <-; injection Eb as <-;
      cbn in Er, Er'; injection Er as <-; injection Er' as <-; now left.
  - (* or on a number *)
    cbn [applies_exactly] in Ha. rewrite apply_or in Ea, Eb by assumption.
    injection Ea as <-. injection Eb as <-.
    rewrite apply_or in Er, Er' by auto using isInteger_int32 with regime.
    rewrite ToInt32_of_Z in Er, Er' by auto with regime.
    injection Er as <-. injection Er' as <-.
    rewrite lor_swap. apply same_document_refl.
  - (* xor on a boolean *)
    destruct ka as [ka|ka], kb as [kb|kb]; try discriminate Ha; try discriminate Hb.
    destruct ka, kb, d; cbn in Ea, Eb; injection Ea as <-; injection Eb as <-;
      cbn in Er, Er'; injection Er as <-; injection Er' as <-; now left.
  - (* xor on a number *)
    cbn [applies_exactly] in Ha. rewrite apply_xor in Ea, Eb by assumption.
    injection Ea as <-. injection Eb as <-.
    rewrite apply_xor in Er, Er' by auto using isInteger_int32 with regime.
    rewrite ToInt32_of_Z in Er, Er' by auto with regime.
    injection Er as <-. injection Er' as <-.
    rewrite lxor_swap. apply same_document_refl.
  - (* not on a boolean *)
    left. congruence.
  - (* not on a number *)
    left. congruence.
Qed.

(** ** What the regimes cover *)

(** Sums and products of integers that stay below 2^53 are exact. *)
Lemma exact_add_of_Z a b :
  safe a -> safe b -> safe (a + b) -> exact_add (of_Z a) (of_Z b) = true.
Proof.
  intros Sa Sb Sab.
  destruct (real_of_Z a Sa) as [Ra Ua], (real_of_Z b Sb) as [Rb Ub].
  destruct (real_of_Z (a + b) Sab) as [Rab Uab].
  apply exact_add_intro; try assumption.
  rewrite Ua, Ub, <- Z.mul_add_distr_r, <- Uab. now apply real_representable.
Qed.

Lemma exact_mul_of_Z a b :
  safe a -> safe b -> safe (a * b) -> exact_mul (of_Z a) (of_Z b) = true.
Proof.
  intros Sa Sb Sab. pose proof pow_1074_pos as T.
  destruct (real_of_Z a Sa) as [Ra Ua], (real_of_Z b Sb) as [Rb Ub].
  destruct (real_of_Z (a * b) Sab) as [Rab Uab].
  assert (E : ulps (of_Z a) * ulps (of_Z b) = ulps (of_Z (a * b)) * 2 ^ 1074)
    by (rewrite Ua, Ub, Uab; ring).
  apply exact_mul_intro; try assumption; rewrite E.
  - apply Z.mod_mul. lia.
  - rewrite Z.div_mul by lia. now apply real_representable.
Qed.

(** Two [and], two [or], two [xor] or two [not] commute exactly on
    every integer, whatever its magnitude and their operands. *)
Lemma commutes_exactly_bitwise (a b : math) (x : number) :
  isInteger x = true ->
  same_operator a b = true ->
  In (operator a) ["and"; "or"; "xor"; "not"]%string ->
  commutes_exactly a b (VNum x).
Proof.
  intros Hi HS Hop.
  destruct a as [ka|ka|ka ma|ka|ka|ka|]; cbn in Hop;
    try (repeat destruct Hop as [Hop|Hop]; try discriminate Hop; contradiction);
    destruct b as [kb|kb|kb mb|kb|kb|kb|]; try discriminate HS;
    unfold commutes_exactly; cbn [applies_exactly apply];
    rewrite ?apply_and, ?apply_or, ?apply_xor, ?apply_not by assumption;
    (repeat split; try assumption);
    intros d' E; injection E as <-; cbn [applies_last applies_exactly];
    auto using isInteger_int32 with regime.
Qed.

Lemma sort_key_differs (a b : math) :
  same_operator a b = false -> deep_equal (sort_key a) (sort_key b) = false.
Proof.
  destruct a as [ka|ka|ka ma|ka|ka|ka|], b as [kb|kb|kb mb|kb|kb|kb|];
    try reflexivity; try discriminate.
  intro E. assert (E' : num_eqb ma mb = false) by exact E.
  cbn. rewrite E'. now rewrite andb_false_r.
Qed.

Lemma no_nan_sort_key (a : math) :
  no_nan (operand a) = true -> no_nan (sort_key a) = true.
Proof. intro H. cbn. now rewrite H. Qed.

(** * Rebase of the value operations *)

Section Rebase.

Variable cmp : value -> value -> Z.

(** What the rebase functions need of [jot.cmp]: of two documents at
    most one is below the other, and of two documents that hold no NaN
    and are not deep-equal one is below the other. *)
Hypothesis cmp_asym : forall a b, cmp a b < 0 -> ~ cmp b a < 0.
Hypothesis cmp_total :
  forall a b, no_nan a = true -> no_nan b = true -> deep_equal a b = false ->
              cmp a b < 0 \/ cmp b a < 0.

Lemma rebase_SET_SET_equal (a b : value) (c : conflictless) :
  deep_equal a b = true -> rebase cmp (SET a) (SET b) c = Ret (Some NO_OP).
Proof.
  intro E. unfold rebase, call_rebase_function, rebase_functions, SET_rebase_SET, bind.
  now rewrite E.
Qed.

Lemma rebase_SET_SET_lower (a b : value) (c : conflictless) :
  deep_equal a b = false -> active c = true -> cmp a b < 0 ->
  rebase cmp (SET a) (SET b) c = Ret (Some NO_OP).
Proof.
  intros E Hc Hlt.
  unfold rebase, call_rebase_function, rebase_functions, SET_rebase_SET, bind.
  apply Z.ltb_lt in Hlt. now rewrite E, Hc, Hlt.
Qed.

Lemma rebase_SET_SET_higher (a b : value) (c : conflictless) :
  deep_equal a b = false -> active c = true -> cmp a b < 0 ->
  rebase cmp (SET b) (SET a) c = Ret (Some (SET b)).
Proof.
  intros E Hc Hlt.
  unfold rebase, call_rebase_function, rebase_functions, SET_rebase_SET, bind.
  rewrite (deep_equal_sym b a), E, Hc.
  replace (cmp b a <? 0) with false
    by (symmetry; apply Z.ltb_ge; specialize (cmp_asym a b Hlt); lia).
  apply Z.ltb_lt in Hlt. now rewrite Hlt.
Qed.

Lemma rebase_MATH_same (A B : math) (c : conflictless) :
  same_operator A B = true -> rebase cmp (MATH A) (MATH B) c = Ret (Some (MATH A)).
Proof.
  intro HS. unfold rebase, call_rebase_function, rebase_functions, MATH_rebase_MATH.
  now rewrite HS.
Qed.

Lemma rebase_MATH_lower (A B : math) (document v : value) :
  same_operator A B = false ->
  cmp (sort_key A) (sort_key B) < 0 ->
  (l <- compose (MATH A) (MATH B) ;; apply_list l document) = Ret v ->
  rebase cmp (MATH A) (MATH B) (On (Some document)) = Ret (Some (SET v)).
Proof.
  intros HS Hlt Hv.
  unfold rebase, call_rebase_function, rebase_functions, MATH_rebase_MATH.
  apply Z.ltb_lt in Hlt. rewrite HS, Hlt.
  destruct (compose (MATH A) (MATH B)) as [l|]; [|discriminate].
  cbn [bind] in *. now rewrite Hv.
Qed.

Lemma rebase_MATH_higher (A B : math) (document v : value) :
  same_operator A B = false ->
  cmp (sort_key A) (sort_key B) < 0 ->
  (l <- compose (MATH A) (MATH B) ;; apply_list l document) = Ret v ->
  rebase cmp (MATH B) (MATH A) (On (Some document)) = Ret (Some (MATH B)).
Proof.
  intros HS Hlt Hv.
  unfold rebase, call_rebase_function, rebase_functions, MATH_rebase_MATH.
  rewrite (same_operator_sym B A), HS.
  replace (cmp (sort_key B) (sort_key A) <? 0) with false
    by (symmetry; apply Z.ltb_ge; specialize (cmp_asym _ _ Hlt); lia).
  apply Z.ltb_lt in Hlt. rewrite Hlt. cbn [bind].
  destruct (compose (MATH A) (MATH B)) as [l|]; [|discriminate].
  cbn [bind] in *. now rewrite Hv.
Qed.

(** C8: the function registered for SET against MATH returns the SET
    unchanged and NO_OP for the MATH, whatever the conflictless
    argument: it never returns null. *)
Theorem SET_MATH_never_conflicts (s : value) (m : math) (c : conflictless) :
  SET_rebase_MATH s m c = Some (SET s, NO_OP).
Proof. reflexivity. Qed.

(** C7: two SETs of deep-equal values both rebase to NO_OP; of two SETs
    of different values, in conflictless mode the one with the lower
    value becomes NO_OP and the other is unchanged (the function
    returns that when called on the lower one, and null when called on
    the higher one, which the converse call handles); without
    conflictless mode the function returns null. *)
Theorem SET_SET_rebase (a b : value) (c : conflictless) :
  (deep_equal a b = true -> SET_rebase_SET cmp a b c = Some (NO_OP, NO_OP))
  /\ (deep_equal a b = false -> active c = true -> cmp a b < 0 ->
      SET_rebase_SET cmp a b c = Some (NO_OP, SET b))
  /\ (deep_equal a b = false -> active c = true -> ~ cmp a b < 0 ->
      SET_rebase_SET cmp a b c = None)
  /\ (deep_equal a b = false -> active c = false ->
      SET_rebase_SET cmp a b c = None /\ SET_rebase_SET cmp b a c = None).
Proof.
  unfold SET_rebase_SET. rewrite (deep_equal_sym b a).
  split; [|split; [|split]].
  - intro E. now rewrite E.
  - intros E Hc Hlt. apply Z.ltb_lt in Hlt. now rewrite E, Hc, Hlt.
  - intros E Hc Hlt. apply Z.ltb_nlt in Hlt. now rewrite E, Hc, Hlt.
  - intros E Hc. now rewrite E, Hc.
Qed.

(** C6: two MATHs with the same operator (and, for rot, the same
    modulus) are both returned unchanged; otherwise, in conflictless
    mode with the prior document, the one that is lower in the order on
    [[operator, operand]] becomes the SET of the document after both
    (this composed with other) and the higher one is unchanged (the
    function returns that when called on the lower one, and null when
    called on the higher one, which the converse call handles);
    otherwise, without conflictless mode, the function returns null.
    "Otherwise" is the test of the code: the operators differ, or both
    are rot and the moduli differ. *)
Theorem MATH_MATH_rebase (A B : math) (c : conflictless) :
  (same_operator A B = true <->
   operator A = operator B
   /\ (operator A = "rot"%string -> same_modulus A B = true))
  /\ (same_operator A B = true ->
      MATH_rebase_MATH cmp A B c = Ret (Some (MATH A, MATH B)))
  /\ (same_operator A B = false ->
      forall document v,
        c = On (Some document) ->
        cmp (sort_key A) (sort_key B) < 0 ->
        (l <- compose (MATH A) (MATH B) ;; apply_list l document) = Ret v ->
        MATH_rebase_MATH cmp A B c = Ret (Some (SET v, MATH B)))
  /\ (same_operator A B = false ->
      forall document,
        c = On (Some document) ->
        ~ cmp (sort_key A) (sort_key B) < 0 ->
        MATH_rebase_MATH cmp A B c = Ret None)
  /\ (same_operator A B = false -> c = Off ->
      MATH_rebase_MATH cmp A B c = Ret None
      /\ MATH_rebase_MATH cmp B A c = Ret None).
Proof.
  split; [|unfold MATH_rebase_MATH; split; [|split; [|split]]].
  - split.
    + unfold same_operator. intro H. apply andb_true_iff in H as [H1 H2].
      apply String.eqb_eq in H1. split; [exact H1|].
      intro Hrot. apply String.eqb_eq in Hrot. now rewrite Hrot in H2.
    + intros [Hop Hrot]. now apply same_operator_intro.
  - intro HS. now rewrite HS.
  - intros HS document v -> Hlt Hv. rewrite HS.
    apply Z.ltb_lt in Hlt. rewrite Hlt.
    destruct (compose (MATH A) (MATH B)) as [l|]; [|discriminate].
    cbn [bind] in *. now rewrite Hv.
  - intros HS document -> Hlt. rewrite HS.
    apply Z.ltb_nlt in Hlt. now rewrite Hlt.
  - intros HS ->. rewrite (same_operator_sym B A), HS. split; reflexivity.
Qed.

(** ** The diamond *)

(** The document that the rebase of the lower operation sets is the one
    that the lower operation followed by the higher one gives. *)
Lemma compose_of_lower_first (L H : math) (document : value) :
  lower_first L H document ->
  exists r r',
    apply_list [MATH L; MATH H] document = Ret r
    /\ (l <- compose (MATH L) (MATH H) ;; apply_list l document) = Ret r'
    /\ same_document r r'.
Proof.
  intros (_ & HL). unfold compose. cbn [atomic_compose bind].
  destruct (MATH_atomic_compose L (MATH H)) as [C|] eqn:EC.
  - pose proof (atomic_compose_apply (MATH L) (MATH H) C document HL) as HC.
    cbn [atomic_compose] in HC. rewrite EC in HC. specialize (HC eq_refl).
    destruct HL as (H1 & H2 & _).
    destruct (applies_exactly_returns L document H1) as (d1 & E1).
    destruct (applies_last_returns H d1 (H2 d1 E1)) as (r & E2).
    rewrite E1 in HC. cbn [bind] in HC. rewrite E2 in HC.
    rewrite apply_list_two, E1. cbn [bind apply_list].
    destruct (apply C document) as [r'|]; [|contradiction].
    exists r, r'. cbn [bind same_outcome] in *. repeat split; try assumption.
    now apply same_document_sym.
  - destruct HL as (d1 & E1 & HH).
    destruct (applies_inv _ _ HH) as (r & E2).
    exists r, r.
    assert (E : apply_list [MATH L; MATH H] document = Ret r)
      by (rewrite apply_list_two, E1; exact E2).
    repeat split; try assumption. apply same_document_refl.
Qed.

Lemma diamond_of_different_operators (L H : math) (document : value) :
  same_operator L H = false ->
  cmp (sort_key L) (sort_key H) < 0 ->
  lower_first L H document ->
  exists r r',
    rebase cmp (MATH L) (MATH H) (On (Some document)) = Ret (Some (SET r'))
    /\ rebase cmp (MATH H) (MATH L) (On (Some document)) = Ret (Some (MATH H))
    /\ apply_list [MATH L; MATH H] document = Ret r
    /\ apply_list [MATH H; SET r'] document = Ret r'
    /\ same_document r r'.
Proof.
  intros HS Hlt HR.
  destruct (compose_of_lower_first L H document HR) as (r & r' & E & EC & S).
  destruct HR as (HH & _). destruct (applies_inv _ _ HH) as (d2 & E2).
  exists r, r'. repeat split; try assumption.
  - now apply rebase_MATH_lower.
  - now apply rebase_MATH_higher with (v := r').
  - now apply apply_list_SET_r with (r := d2).
Qed.

(** C1, where the arithmetic is exact: in conflictless mode with the
    prior document, for two operations in the regime of the diamond both
    rebases are defined, the two orders of application return, and they
    return the same document. *)
Theorem conflictless_diamond (A B : op) (document : value) :
  diamond_regime cmp A B document ->
  exists A' B' r r',
    rebase cmp A B (On (Some document)) = Ret (Some A')
    /\ rebase cmp B A (On (Some document)) = Ret (Some B')
    /\ apply_list [A; B'] document = Ret r
    /\ apply_list [B; A'] document = Ret r'
    /\ same_document r r'.
Proof.
  intro HR.
  destruct A as [|a|m], B as [|b|o]; cbn [diamond_regime] in HR.
  - exists NO_OP, NO_OP, document, document. repeat split. apply same_document_refl.
  - exists NO_OP, (SET b), b, b. repeat split. apply same_document_refl.
  - destruct (applies_inv _ _ HR) as (r & E).
    exists NO_OP, (MATH o), r, r.
    rewrite apply_list_NO_OP_l, apply_list_NO_OP_r.
    repeat split; try exact E. apply same_document_refl.
  - exists (SET a), NO_OP, a, a. repeat split. apply same_document_refl.
  - destruct (deep_equal a b) eqn:E.
    + exists NO_OP, NO_OP, a, b. repeat split.
      * now apply rebase_SET_SET_equal.
      * apply rebase_SET_SET_equal. now rewrite deep_equal_sym.
      * now right.
    + destruct HR as [HR|[Pa Pb]]; [discriminate HR|].
      destruct (cmp_total a b Pa Pb E) as [Hlt|Hlt].
      * exists NO_OP, (SET b), b, b. repeat split.
        -- now apply rebase_SET_SET_lower.
        -- now apply rebase_SET_SET_higher.
        -- apply same_document_refl.
      * rewrite deep_equal_sym in E.
        exists (SET a), NO_OP, a, a. repeat split.
        -- now apply rebase_SET_SET_higher.
        -- now apply rebase_SET_SET_lower.
        -- apply same_document_refl.
  - destruct (applies_inv _ _ HR) as (r & E).
    exists (SET a), NO_OP, a, a. repeat split.
    + now apply apply_list_SET_r with (r := r).
    + apply same_document_refl.
  - destruct (applies_inv _ _ HR) as (r & E).
    exists (MATH m), NO_OP, r, r.
    rewrite apply_list_NO_OP_l, apply_list_NO_OP_r.
    repeat split; try exact E. apply same_document_refl.
  - destruct (applies_inv _ _ HR) as (r & E).
    exists NO_OP, (SET b), b, b. repeat split.
    + now apply apply_list_SET_r with (r := r).
    + apply same_document_refl.
  - destruct (same_operator m o) eqn:HS.
    + destruct (same_operator_commute m o document HS HR) as (r & r' & E1 & E2 & S).
      exists (MATH m), (MATH o), r, r'. repeat split; try assumption.
      * now apply rebase_MATH_same.
      * apply rebase_MATH_same. now rewrite same_operator_sym.
    + destruct HR as (Pm & Po & Hmo & Hom).
      pose proof (sort_key_differs m o HS) as D.
      destruct (cmp_total _ _ (no_nan_sort_key m Pm) (no_nan_sort_key o Po) D)
        as [Hlt|Hlt].
      * destruct (diamond_of_different_operators m o document HS Hlt (Hmo Hlt))
          as (r & r' & R1 & R2 & E1 & E2 & S).
        exists (SET r'), (MATH o), r, r'. repeat split; assumption.
      * rewrite same_operator_sym in HS.
        destruct (diamond_of_different_operators o m document HS Hlt (Hom Hlt))
          as (r & r' & R1 & R2 & E1 & E2 & S).
        exists (MATH m), (SET r'), r', r. repeat split; try assumption.
        now apply same_document_sym.
Qed.

End Rebase.

(** ** Scenarios of the test suite

    The tests of the sequence operations exercise the value operations
    element by element; these are their outcomes on the elements.  The
    tests pass [true] for [conflictless]. *)

Example test_compose_SET_SET :
  atomic_compose (SET (VStr "B")) (SET (VStr "C")) = Ret (Some (SET (VStr "C"))).
Proof. reflexivity. Qed.

Example test_compose_add_mult :
  atomic_compose (MATH (Madd (of_Z 1))) (MATH (Mmult (of_Z 1))) = Ret None.
Proof. reflexivity. Qed.

Example test_rebase_add_add :
  rebase cmp_reference (MATH (Madd (of_Z 3))) (MATH (Madd (of_Z 1))) Off
  = Ret (Some (MATH (Madd (of_Z 3)))).
Proof. reflexivity. Qed.

Example test_rebase_add_mult :
  rebase cmp_reference (MATH (Madd (of_Z 1))) (MATH (Mmult (of_Z 2))) Off = Ret None.
Proof. reflexivity. Qed.

Example test_rebase_SET_SET_conflict :
  rebase cmp_reference (SET (VStr "y")) (SET (VStr "z")) Off = Ret None.
Proof. reflexivity. Qed.

Example test_rebase_SET_SET_conflictless :
  rebase cmp_reference (SET (VStr "y")) (SET (VStr "z")) Truthy = Ret (Some NO_OP)
  /\ rebase cmp_reference (SET (VStr "z")) (SET (VStr "y")) Truthy
     = Ret (Some (SET (VStr "z"))).
Proof. split; reflexivity. Qed.

(** Decides a regime on given operations and a given document. *)
Ltac concrete :=
  repeat match goal with
         | |- _ /\ _ => split
         | |- True => exact I
         | |- forall _, _ => intro
         | H : @eq (outcome value) _ (Ret _) |- _ => vm_compute in H; injection H as <-
         | |- exists d', _ = Ret d' /\ _ => eexists; split; [reflexivity|]
         end;
  try (vm_compute; first [reflexivity | discriminate]).

Lemma SET_SET_rebase_witness :
  SET_rebase_SET cmp_reference (VStr "y") (VStr "z") (On None)
  = Some (NO_OP, SET (VStr "z"))
  /\ SET_rebase_SET cmp_reference (VStr "z") (VStr "y") (On None) = None
  /\ SET_rebase_SET cmp_reference (VStr "y") (VStr "z") Off = None.
Proof.
  split; [|split].
  - apply (proj1 (proj2
             (SET_SET_rebase cmp_reference (VStr "y") (VStr "z") (On None))));
      reflexivity.
  - apply (proj1 (proj2 (proj2
             (SET_SET_rebase cmp_reference (VStr "z") (VStr "y") (On None)))));
      try reflexivity. vm_compute. discriminate.
  - apply (proj2 (proj2 (proj2
             (SET_SET_rebase cmp_reference (VStr "y") (VStr "z") Off))));
      reflexivity.
Defined.

Lemma MATH_MATH_rebase_witness :
  MATH_rebase_MATH cmp_reference (Madd (of_Z 1)) (Mmult (of_Z 2))
    (On (Some (VNum (of_Z 5))))
  = Ret (Some (SET (VNum (of_Z 12)), MATH (Mmult (of_Z 2)))).
Proof.
  apply (proj1 (proj2 (proj2
           (MATH_MATH_rebase cmp_reference
              (Madd (of_Z 1)) (Mmult (of_Z 2)) (On (Some (VNum (of_Z 5))))))))
    with (document := VNum (of_Z 5)).
  - reflexivity.
  - reflexivity.
  - reflexivity.
  - reflexivity.
Defined.

Lemma conflictless_diamond_witness :
  exists A' B' r r',
    rebase cmp_reference (MATH (Madd half)) (MATH (Mmult (of_Z 2)))
      (On (Some (VNum one_and_a_half))) = Ret (Some A')
    /\ rebase cmp_reference (MATH (Mmult (of_Z 2))) (MATH (Madd half))
         (On (Some (VNum one_and_a_half))) = Ret (Some B')
    /\ apply_list [MATH (Madd half); B'] (VNum one_and_a_half) = Ret r
    /\ apply_list [MATH (Mmult (of_Z 2)); A'] (VNum one_and_a_half) = Ret r'
    /\ same_document r r'.
Proof.
  apply (conflictless_diamond cmp_reference cmp_reference_asym cmp_reference_total).
  cbn [diamond_regime].
  change (same_operator (Madd half) (Mmult (of_Z 2))) with false. cbv iota.
  split; [reflexivity|split; [reflexivity|split]].
  - intros _. split; [reflexivity|].
    exists (VNum (of_Z 2)). split; reflexivity.
  - intro H. vm_compute in H. discriminate H.
Defined.

(** C1, as stated, fails: two additions are left unchanged by the rebase
    and [(1e16 + 1) - 1e16] is 0 while [(1e16 - 1e16) + 1] is 1. *)
Lemma conflictless_diamond_fails_on_rounding :
  rebase cmp_reference (MATH (Madd (of_Z 1))) (MATH (Madd (of_Z (- 10 ^ 16))))
    (On (Some (VNum (of_Z (10 ^ 16))))) = Ret (Some (MATH (Madd (of_Z 1))))
  /\ rebase cmp_reference (MATH (Madd (of_Z (- 10 ^ 16)))) (MATH (Madd (of_Z 1)))
       (On (Some (VNum (of_Z (10 ^ 16))))) = Ret (Some (MATH (Madd (of_Z (- 10 ^ 16)))))
  /\ apply_list [MATH (Madd (of_Z 1)); MATH (Madd (of_Z (- 10 ^ 16)))]
       (VNum (of_Z (10 ^ 16))) = Ret (VNum (of_Z 0))
  /\ apply_list [MATH (Madd (of_Z (- 10 ^ 16))); MATH (Madd (of_Z 1))]
       (VNum (of_Z (10 ^ 16))) = Ret (VNum (of_Z 1))
  /\ deep_equal (VNum (of_Z 0)) (VNum (of_Z 1)) = false.
Proof. vm_compute. repeat split. Qed.

(** The same with a rotation and its inverse, on integers that need no
    rounding: [((1 - 2) % 3 + 2) % 3] is 1 and [((1 + 2) % 3 - 2) % 3]
    is -2. *)
Lemma conflictless_diamond_fails_on_negative_rot :
  rebase cmp_reference (MATH (Mrot (of_Z (-2)) (of_Z 3))) (MATH (Mrot (of_Z 2) (of_Z 3)))
    (On (Some (VNum (of_Z 1)))) = Ret (Some (MATH (Mrot (of_Z (-2)) (of_Z 3))))
  /\ rebase cmp_reference (MATH (Mrot (of_Z 2) (of_Z 3))) (MATH (Mrot (of_Z (-2)) (of_Z 3)))
       (On (Some (VNum (of_Z 1)))) = Ret (Some (MATH (Mrot (of_Z 2) (of_Z 3))))
  /\ apply_list [MATH (Mrot (of_Z (-2)) (of_Z 3)); MATH (Mrot (of_Z 2) (of_Z 3))]
       (VNum (of_Z 1)) = Ret (VNum (of_Z 1))
  /\ apply_list [MATH (Mrot (of_Z 2) (of_Z 3)); MATH (Mrot (of_Z (-2)) (of_Z 3))]
       (VNum (of_Z 1)) = Ret (VNum (of_Z (-2))).
Proof. vm_compute. repeat split. Qed.

(** ** Examples of the regime of the diamond

    A NO_OP against an addition of 0.5 on 1.5; two additions, of 0.1 and
    of 0.2, on 0, where the second sum is rounded; two rotations on a
    document above the modulus; a rotation and its inverse where the
    remainder keeps its sign.  The rotations of the counterexample, where
    the remainder changes sign, are outside. *)

Example regime_NO_OP_add :
  diamond_regime cmp_reference NO_OP (MATH (Madd half)) (VNum one_and_a_half).
Proof. reflexivity. Qed.

Example regime_add_add_rounding :
  commutes_exactly (Madd (StringToNumber "0.1")) (Madd (StringToNumber "0.2"))
                   (VNum (of_Z 0))
  /\ exact_add (StringToNumber "0.1") (StringToNumber "0.2") = false.
Proof.
  unfold commutes_exactly. cbn [applies_exactly applies_last]. concrete.
Qed.

Example regime_rot_above_modulus :
  commutes_exactly (Mrot (of_Z 1) (of_Z 3)) (Mrot (of_Z 2) (of_Z 3)) (VNum (of_Z 5)).
Proof.
  unfold commutes_exactly, agree_in_sign. cbn [applies_exactly applies_last]. concrete.
Qed.

Example regime_rot_negative_increment :
  commutes_exactly (Mrot (of_Z (-1)) (of_Z 3)) (Mrot (of_Z 1) (of_Z 3)) (VNum (of_Z 1)).
Proof.
  unfold commutes_exactly, agree_in_sign. cbn [applies_exactly applies_last]. concrete.
Qed.

Example regime_rot_sign_change :
  ~ commutes_exactly (Mrot (of_Z (-2)) (of_Z 3)) (Mrot (of_Z 2) (of_Z 3)) (VNum (of_Z 1)).
Proof.
  unfold commutes_exactly, agree_in_sign. intros (_ & _ & _ & _ & H).
  vm_compute in H. now apply H.
Qed.

(** * Composition *)

(** C3, where the arithmetic is exact: in the regime of the
    composition, an atomic composition applies like the two operations
    in sequence (both throw, or both return the same document); and
    [SET(v).atomic_compose(B)] is the SET of [B.apply(v)] when that
    application returns, and throws when it throws. *)
Theorem atomic_compose_equivalence :
  (forall (A B C : op) (document : value),
      compose_regime A B document ->
      atomic_compose A B = Ret (Some C) ->
      same_outcome (apply C document) (d' <- apply A document ;; apply B d'))
  /\ (forall (v w : value) (B : op),
         apply B v = Ret w ->
         atomic_compose (SET v) B = Ret (Some (simplify (SET w))))
  /\ (forall (v : value) (B : op),
         apply B v = Raise -> atomic_compose (SET v) B = Raise).
Proof.
  split; [exact atomic_compose_apply|].
  split; intros; cbn [atomic_compose]; unfold SET_atomic_compose; now rewrite H.
Qed.

Lemma atomic_compose_equivalence_witness :
  same_outcome
    (apply (MATH (Madd three_quarters)) (VNum one_and_a_half))
    (d' <- apply (MATH (Madd half)) (VNum one_and_a_half) ;;
     apply (MATH (Madd quarter)) d')
  /\ atomic_compose (SET (VNum (of_Z 7))) (MATH (Madd (of_Z 3)))
     = Ret (Some (simplify (SET (VNum (of_Z 10)))))
  /\ atomic_compose (SET (VStr "a")) (MATH (Madd (of_Z 1))) = Raise.
Proof.
  split; [|split].
  - apply (proj1 atomic_compose_equivalence
             (MATH (Madd half)) (MATH (Madd quarter)) (MATH (Madd three_quarters))
             (VNum one_and_a_half)).
    + cbn [compose_regime applies_exactly applies_last fuses_exactly]. concrete.
    + reflexivity.
  - apply (proj1 (proj2 atomic_compose_equivalence)). reflexivity.
  - apply (proj2 (proj2 atomic_compose_equivalence)). reflexivity.
Defined.

(** C3, as stated, fails: [add -1e16] then [add 1] compose to
    [add -1e16] (the sum of the operands rounds), which sends 1e16 to 0
    where the sequence gives 1. *)
Lemma atomic_compose_fails_on_rounding :
  atomic_compose (MATH (Madd (of_Z (- 10 ^ 16)))) (MATH (Madd (of_Z 1)))
  = Ret (Some (MATH (Madd (of_Z (- 10 ^ 16)))))
  /\ apply (MATH (Madd (of_Z (- 10 ^ 16)))) (VNum (of_Z (10 ^ 16))) = Ret (VNum (of_Z 0))
  /\ (d' <- apply (MATH (Madd (of_Z (- 10 ^ 16)))) (VNum (of_Z (10 ^ 16))) ;;
      apply (MATH (Madd (of_Z 1))) d') = Ret (VNum (of_Z 1))
  /\ deep_equal (VNum (of_Z 0)) (VNum (of_Z 1)) = false.
Proof. vm_compute. repeat split. Qed.

(** The same on numbers with a fraction, where every sum is below 2^53:
    [add 1] then [add 2^-53] compose to [add 1] (the sum of the operands
    rounds to 1), which sends -1 to 0 where the sequence gives 2^-53. *)
Lemma atomic_compose_fails_on_fractions :
  atomic_compose (MATH (Madd (of_Z 1))) (MATH (Madd (S754_finite false 4503599627370496 (-105))))
  = Ret (Some (MATH (Madd (of_Z 1))))
  /\ apply (MATH (Madd (of_Z 1))) (VNum (of_Z (-1))) = Ret (VNum (of_Z 0))
  /\ (d' <- apply (MATH (Madd (of_Z 1))) (VNum (of_Z (-1))) ;;
      apply (MATH (Madd (S754_finite false 4503599627370496 (-105)))) d')
     = Ret (VNum (S754_finite false 4503599627370496 (-105))).
Proof. vm_compute. repeat split. Qed.

(** A SET composed with an operation that does not apply to its value
    throws: the composition is not always defined. *)
Lemma SET_atomic_compose_throws :
  atomic_compose (SET (VStr "a")) (MATH (Madd (of_Z 1))) = Raise.
Proof. reflexivity. Qed.

(** A rotation composed with its inverse is NO_OP, but applied after it
    the inverse leaves -1 where the document was 2. *)
Lemma atomic_compose_fails_on_negative_rot :
  atomic_compose (MATH (Mrot (of_Z 1) (of_Z 3))) (MATH (Mrot (of_Z (-1)) (of_Z 3)))
  = Ret (Some NO_OP)
  /\ apply NO_OP (VNum (of_Z 2)) = Ret (VNum (of_Z 2))
  /\ (d' <- apply (MATH (Mrot (of_Z 1) (of_Z 3))) (VNum (of_Z 2)) ;;
      apply (MATH (Mrot (of_Z (-1)) (of_Z 3))) d') = Ret (VNum (of_Z (-1))).
Proof. vm_compute. repeat split. Qed.

(** C4, for what [atomic_compose] returns: NO_OP leaves every document
    unchanged; composed
    before any operation it gives that operation back; composed after
    NO_OP or a SET it gives that operation back; a MATH composed with
    NO_OP is null (no atomic operation). *)
Theorem NO_OP_identity :
  (forall d, apply NO_OP d = Ret d)
  /\ (forall A, atomic_compose NO_OP A = Ret (Some A))
  /\ atomic_compose NO_OP NO_OP = Ret (Some NO_OP)
  /\ (forall v, atomic_compose (SET v) NO_OP = Ret (Some (SET v)))
  /\ (forall m, atomic_compose (MATH m) NO_OP = Ret None).
Proof. repeat split. Qed.

(** C4, as stated, fails: [MATH("add", 1).atomic_compose(NO_OP)] is null,
    not the MATH. *)
Lemma MATH_atomic_compose_NO_OP_is_null :
  atomic_compose (MATH (Madd (of_Z 1))) NO_OP = Ret None
  /\ atomic_compose (MATH (Madd (of_Z 1))) NO_OP <> Ret (Some (MATH (Madd (of_Z 1)))).
Proof. split; [reflexivity|discriminate]. Qed.

(** * Simplification *)

(** C5, where the arithmetic is exact: on the documents of the regime of
    the simplification, the simplified operation applies like the
    operation (both throw, or both return the same document); and the
    operations that [simplify] collapses: [add 0], [rot [0, m]], [or 0],
    [or false], [xor 0] and [xor false] to NO_OP, [mult 1] to NO_OP,
    [and 0] to SET(0), [and false] to SET(false), and any other
    [rot [k, m]] to [rot [k % m, m]]. *)
Theorem simplify_preserves_semantics :
  (forall (A : op) (document : value),
      simplify_regime A document ->
      same_outcome (apply (simplify A) document) (apply A document))
  /\ (forall k, num_eqb k (of_Z 0) = true ->
        simplify (MATH (Madd k)) = NO_OP
        /\ (forall m, simplify (MATH (Mrot k m)) = NO_OP)
        /\ simplify (MATH (Mor (SNum k))) = NO_OP
        /\ simplify (MATH (Mxor (SNum k))) = NO_OP
        /\ simplify (MATH (Mand (SNum k))) = SET (VNum (of_Z 0)))
  /\ (forall k, num_eqb k (of_Z 1) = true -> simplify (MATH (Mmult k)) = NO_OP)
  /\ simplify (MATH (Mor (SBool false))) = NO_OP
  /\ simplify (MATH (Mxor (SBool false))) = NO_OP
  /\ simplify (MATH (Mand (SBool false))) = SET (VBool false)
  /\ (forall k m, num_eqb k (of_Z 0) = false ->
        simplify (MATH (Mrot k m)) = MATH (Mrot (num_rem k m) m)).
Proof.
  split; [exact simplify_apply|].
  split; [|split; [|repeat split]].
  - intros k E. cbn [simplify]. unfold MATH_simplify.
    cbn [scalar_strict_zero scalar_loose_zero]. rewrite E. repeat split.
  - intros k E. cbn [simplify]. unfold MATH_simplify. now rewrite E.
  - intros k m E. cbn [simplify]. unfold MATH_simplify. now rewrite E.
Qed.

Lemma simplify_preserves_semantics_witness :
  same_outcome (apply (simplify (MATH (Mrot (of_Z 7) (of_Z 3)))) (VNum (of_Z 2)))
               (apply (MATH (Mrot (of_Z 7) (of_Z 3))) (VNum (of_Z 2))).
Proof.
  apply (proj1 simplify_preserves_semantics
           (MATH (Mrot (of_Z 7) (of_Z 3))) (VNum (of_Z 2))).
  right. cbn [simplify_regime].
  change (num_eqb (of_Z 7) (of_Z 0)) with false. cbv iota.
  unfold agree_in_sign. concrete.
Defined.

(** C5, as stated, fails: [or 0] simplifies to NO_OP, but on the
    integer 2^31 it returns -2^31 (the operand goes through ToInt32). *)
Lemma simplify_or_0_changes_result :
  simplify (MATH (Mor (SNum (of_Z 0)))) = NO_OP
  /\ apply (simplify (MATH (Mor (SNum (of_Z 0))))) (VNum (of_Z (2 ^ 31)))
     = Ret (VNum (of_Z (2 ^ 31)))
  /\ apply (MATH (Mor (SNum (of_Z 0)))) (VNum (of_Z (2 ^ 31)))
     = Ret (VNum (of_Z (- 2 ^ 31)))
  /\ deep_equal (VNum (of_Z (2 ^ 31))) (VNum (of_Z (- 2 ^ 31))) = false.
Proof. vm_compute. repeat split. Qed.

(** * Inverse *)

(** C2, where the inverse restores: for NO_OP, for SET, for [add] where
    the sum is exact, for [mult] where the product and the reciprocal of
    the operand are exact, for [and], [or], [xor] and [not] on a signed
    32-bit integer, and for [or], [xor] and [not] on booleans, the
    inverse applied after the operation gives the document back.  The
    inverse of every operation is the one the specification names. *)
Theorem inverse_restores :
  (forall (A : op) (document : value),
      invertible A document ->
      exists B,
        inverse A document = Some B
        /\ same_outcome (d' <- apply A document ;; apply B d') (Ret document))
  /\ (forall document, inverse NO_OP document = Some NO_OP)
  /\ (forall v document, inverse (SET v) document = Some (SET document))
  /\ (forall k document,
        inverse (MATH (Madd k)) document = Some (MATH (Madd (num_neg k))))
  /\ (forall k document,
        inverse (MATH (Mmult k)) document
        = Some (MATH (Mmult (num_div (of_Z 1) k))))
  /\ (forall k m document,
        inverse (MATH (Mrot k m)) document = Some (MATH (Mrot (num_neg k) m)))
  /\ (forall k document,
        inverse (MATH (Mxor k)) document = Some (MATH (Mxor k)))
  /\ (forall document, inverse (MATH Mnot) document = Some (MATH Mnot))
  /\ (forall k document,
        inverse (MATH (Mand k)) document
        = Some (MATH (Mor (SNum (of_Z (Z.land (value_int32 document)
                                               (Z.lnot (scalar_int32 k))))))))
  /\ (forall k document,
        inverse (MATH (Mor k)) document
        = Some (MATH (Mxor (SNum (of_Z (Z.land (Z.lnot (value_int32 document))
                                                (scalar_int32 k))))))).
Proof. split; [exact inverse_apply|]. repeat split. Qed.

Lemma inverse_restores_witness :
  exists B,
    inverse (MATH (Mmult (of_Z 2))) (VNum three_quarters) = Some B
    /\ same_outcome
         (d' <- apply (MATH (Mmult (of_Z 2))) (VNum three_quarters) ;; apply B d')
         (Ret (VNum three_quarters)).
Proof.
  apply (proj1 inverse_restores (MATH (Mmult (of_Z 2))) (VNum three_quarters)).
  cbn [invertible]. concrete.
Defined.

(** C2, as stated, fails on [mult]: the inverse of [mult 49] multiplies
    by the double nearest to 1/49, and 49 * (1/49) is
    0.9999999999999999. *)
Lemma mult_inverse_rounds :
  inverse (MATH (Mmult (of_Z 49))) (VNum (of_Z 1))
  = Some (MATH (Mmult (num_div (of_Z 1) (of_Z 49))))
  /\ (d' <- apply (MATH (Mmult (of_Z 49))) (VNum (of_Z 1)) ;;
      apply (MATH (Mmult (num_div (of_Z 1) (of_Z 49)))) d')
     = Ret (VNum (S754_finite false 9007199254740991 (-53)))
  /\ deep_equal (VNum (S754_finite false 9007199254740991 (-53))) (VNum (of_Z 1))
     = false.
Proof. vm_compute. repeat split. Qed.

(** It also fails on [rot], by the sign of the remainder: the inverse
    of [rot [1, 3]] is [rot [-1, 3]]; on the document 2 the rotation
    gives 0 and the inverse then gives [(0 + -1) % 3], which is -1. *)
Lemma rot_inverse_does_not_restore :
  inverse (MATH (Mrot (of_Z 1) (of_Z 3))) (VNum (of_Z 2))
  = Some (MATH (Mrot (of_Z (-1)) (of_Z 3)))
  /\ apply (MATH (Mrot (of_Z 1) (of_Z 3))) (VNum (of_Z 2)) = Ret (VNum (of_Z 0))
  /\ apply (MATH (Mrot (of_Z (-1)) (of_Z 3))) (VNum (of_Z 0)) = Ret (VNum (of_Z (-1)))
  /\ deep_equal (VNum (of_Z (-1))) (VNum (of_Z 2)) = false.
Proof. vm_compute. repeat split. Qed.

(** And on booleans: the inverse of [and] is built with the bitwise
    operators and has a numeric operand, so undoing [and false] on
    [true] gives the number 1. *)
Lemma and_inverse_on_boolean_gives_number :
  inverse (MATH (Mand (SBool false))) (VBool true) = Some (MATH (Mor (SNum (of_Z 1))))
  /\ apply (MATH (Mand (SBool false))) (VBool true) = Ret (VBool false)
  /\ apply (MATH (Mor (SNum (of_Z 1)))) (VBool false) = Ret (VNum (of_Z 1)).
Proof. vm_compute. repeat split. Qed.

(** * Types *)

(** When [MATH.apply] throws. *)
Lemma MATH_apply_raises (m : math) (document : value) :
  MATH_apply m document = Raise <->
  match document with
  | VNum x =>
      isInteger x = false
      /\ In (operator m) ["rot"; "and"; "or"; "xor"; "not"]%string
  | VBool _ => In (operator m) ["add"; "mult"; "rot"]%string
  | _ => True
  end.
Proof.
  destruct document as [|b|x|s|l]; cbn [MATH_apply]; try tauto.
  - destruct m; cbn; split; try discriminate; try tauto;
      intros H; repeat destruct H as [H|H]; try discriminate H; try contradiction.
  - destruct m; cbn; destruct (isInteger x); split; try discriminate; try tauto;
      try (intros [H _]; discriminate H);
      try (intros [_ H]; repeat destruct H as [H|H]; try discriminate H; contradiction).
Qed.

(** Numbers remain numbers. *)
Lemma MATH_apply_number (m : math) (x : number) (v : value) :
  MATH_apply m (VNum x) = Ret v -> exists y, v = VNum y.
Proof.
  cbn [MATH_apply]. destruct m; try destruct (isInteger x);
    intro H; try discriminate H; injection H as <-; eauto.
Qed.

(** Booleans remain booleans when the operand is a boolean. *)
Lemma MATH_apply_boolean (m : math) (b : bool) (v : value) :
  (forall k, operand m = VNum k -> False) ->
  MATH_apply m (VBool b) = Ret v -> exists b', v = VBool b'.
Proof.
  intros Hk. cbn [MATH_apply].
  destruct m as [k|k|k md|[k|k]|[k|k]|[k|k]|]; cbn [operand scalar_value] in Hk;
    try (exfalso; now apply (Hk k));
    intro H; try discriminate H; injection H as <-; destruct b; cbn; eauto.
Qed.

(** C9 fails on booleans: [MATH("and", true).inverse(false)] is
    [MATH("or", 0)], and applied to [false] it returns the number 0;
    likewise [and 241] applied to [true] returns 241. *)
Theorem MATH_apply_boolean_becomes_number :
  inverse (MATH (Mand (SBool true))) (VBool false) = Some (MATH (Mor (SNum (of_Z 0))))
  /\ apply (MATH (Mor (SNum (of_Z 0)))) (VBool false) = Ret (VNum (of_Z 0))
  /\ apply (MATH (Mand (SNum (of_Z 241)))) (VBool true) = Ret (VNum (of_Z 241)).
Proof. vm_compute. repeat split. Qed.

(** * Further properties of the operations

    What the code does beyond the properties above: the support
    routines for sequences, and the behaviour of [MATH] where the
    document is not restored or the operation not simplified away. *)


(** ** The support routines for sequences *)

Lemma slice_index_range len i : 0 <= len -> 0 <= slice_index len i <= len.
Proof. unfold slice_index. destruct (Z.ltb_spec i 0); lia. Qed.

Lemma slice_prefix_any {A : Type} (l : list A) (i : Z) :
  slice l 0 (Some i) = firstn (Z.to_nat (slice_index (Z.of_nat (List.length l)) i)) l.
Proof.
  unfold slice. cbv zeta.
  replace (slice_index (Z.of_nat (List.length l)) 0) with 0
    by (unfold slice_index; cbn; lia).
  now rewrite Z.sub_0_r.
Qed.

Lemma slice_suffix_any {A : Type} (l : list A) (i : Z) :
  slice l i None = skipn (Z.to_nat (slice_index (Z.of_nat (List.length l)) i)) l.
Proof.
  unfold slice. cbv zeta.
  pose proof (slice_index_range (Z.of_nat (List.length l)) i ltac:(lia)).
  apply firstn_all2. rewrite length_skipn. lia.
Qed.

Lemma slice_concat_any {A : Type} (l : list A) (i : Z) :
  (slice l 0 (Some i) ++ slice l i None = l)%list.
Proof. rewrite slice_prefix_any, slice_suffix_any. apply firstn_skipn. Qed.

Lemma slice_prefix_length_any {A : Type} (l : list A) (i : Z) :
  Z.of_nat (List.length (slice l 0 (Some i)))
  = slice_index (Z.of_nat (List.length l)) i.
Proof.
  rewrite slice_prefix_any, length_firstn.
  pose proof (slice_index_range (Z.of_nat (List.length l)) i ltac:(lia)). lia.
Qed.

Lemma slice_suffix_length_any {A : Type} (l : list A) (i : Z) :
  Z.of_nat (List.length (slice l i None))
  = Z.of_nat (List.length l) - slice_index (Z.of_nat (List.length l)) i.
Proof.
  rewrite slice_suffix_any, length_skipn.
  pose proof (slice_index_range (Z.of_nat (List.length l)) i ltac:(lia)). lia.
Qed.

Lemma string_slice_length s a b :
  String.length (string_slice s a b)
  = List.length (slice (list_ascii_of_string s) a b).
Proof. unfold string_slice. apply string_of_list_ascii_length. Qed.

Lemma decompose_right_lengths (new_value l r : value) (i n : Z) :
  SET_decompose_right new_value i = Some (SET l, SET r) ->
  value_length new_value = Some n ->
  exists nl nr, value_length l = Some nl /\ value_length r = Some nr
                /\ 0 <= nl /\ 0 <= nr /\ nl + nr = n.
Proof.
  intros H Hn.
  destruct new_value as [| b | x | s | items]; try discriminate;
    cbn in H, Hn; injection H as <- <-; injection Hn as <-; cbn [value_length];
    do 2 eexists; (split; [reflexivity|]); (split; [reflexivity|]).
  - rewrite !string_slice_length, slice_suffix_length_any, slice_prefix_length_any.
    rewrite list_ascii_length.
    pose proof (slice_index_range (Z.of_nat (String.length s)) i ltac:(lia)). lia.
  - rewrite slice_suffix_length_any, slice_prefix_length_any.
    pose proof (slice_index_range (Z.of_nat (List.length items)) i ltac:(lia)). lia.
Qed.

(** X1: the length change that [get_length_change] reports is the one
    that [apply] makes.  For a SET of a string or an array of length [n]
    applied to a sequence of length [old] (both below 2^53),
    [get_length_change(old)] returns exactly [n - old], the result of
    [apply] has length [n], and [old] plus the change is [n]; for NO_OP
    the document keeps its length and [old] plus the change is [old]. *)
Theorem get_length_change_law (new_value document : value) (n old : Z) :
  value_length new_value = Some n -> value_length document = Some old ->
  n < 2 ^ 53 -> old < 2 ^ 53 ->
  (SET_get_length_change new_value (of_Z old) = Ret (of_Z (n - old))
   /\ value_length (SET_apply new_value document) = Some n
   /\ num_add (of_Z old) (of_Z (n - old)) = of_Z n)
  /\ (value_length (NO_OP_apply document) = Some old
      /\ num_add (of_Z old) (NO_OP_get_length_change (of_Z old)) = of_Z old).
Proof.
  intros Hn Ho Bn Bo.
  assert (0 <= n /\ 0 <= old) as [Pn Po].
  { destruct new_value, document; cbn in Hn, Ho; try discriminate;
      injection Hn as <-; injection Ho as <-; lia. }
  assert (Sn : safe n) by (unfold safe; lia).
  assert (So : safe old) by (unfold safe; lia).
  assert (Sd : safe (n - old)) by (unfold safe; lia).
  split; [split; [|split]|split].
  - destruct new_value; cbn in Hn |- *; try discriminate;
      injection Hn as ->; now rewrite num_sub_exact.
  - exact Hn.
  - rewrite num_add_exact by (try assumption; unfold safe; lia).
    f_equal. lia.
  - exact Ho.
  - unfold NO_OP_get_length_change.
    rewrite num_add_exact by (rewrite ?Z.add_0_r; auto with regime).
    now rewrite Z.add_0_r.
Qed.

Lemma get_length_change_law_witness :
  (SET_get_length_change (VStr "hello") (of_Z 3) = Ret (of_Z (5 - 3))
   /\ value_length (SET_apply (VStr "hello") (VStr "abc")) = Some 5
   /\ num_add (of_Z 3) (of_Z (5 - 3)) = of_Z 5)
  /\ (value_length (NO_OP_apply (VStr "abc")) = Some 3
      /\ num_add (of_Z 3) (NO_OP_get_length_change (of_Z 3)) = of_Z 3).
Proof.
  apply (get_length_change_law (VStr "hello") (VStr "abc") 5 3);
    first [reflexivity | lia].
Defined.

(** X2: [SET.get_length_change] throws exactly when the new value is
    neither a string nor an array, whatever the old length; those are
    the new values for which [SET.decompose_right] returns null. *)
Theorem SET_get_length_change_throws (new_value : value) (old_length : number)
  (at_new_index : Z) :
  (SET_get_length_change new_value old_length = Raise
   <-> value_length new_value = None)
  /\ (SET_get_length_change new_value old_length = Raise
      <-> SET_decompose_right new_value at_new_index = None).
Proof.
  destruct new_value; cbn; split; split; intro H; try reflexivity; discriminate H.
Qed.

(** X3: [SET.decompose_right] splits a string or an array at every
    integral index, also a negative one or one beyond the length: the
    two new values concatenate to the new value, and the first has
    length [max(length + index, 0)] for a negative index (it counts from
    the end) and [min(index, length)] otherwise. *)
Theorem SET_decompose_right_any_index (new_value : value) (at_new_index : Z) :
  match new_value with
  | VStr s =>
      exists a b,
        SET_decompose_right new_value at_new_index = Some (SET (VStr a), SET (VStr b))
        /\ (a ++ b)%string = s
        /\ Z.of_nat (String.length a)
           = if at_new_index <? 0
             then Z.max (Z.of_nat (String.length s) + at_new_index) 0
             else Z.min at_new_index (Z.of_nat (String.length s))
  | VArr l =>
      exists a b,
        SET_decompose_right new_value at_new_index = Some (SET (VArr a), SET (VArr b))
        /\ (a ++ b)%list = l
        /\ Z.of_nat (List.length a)
           = if at_new_index <? 0
             then Z.max (Z.of_nat (List.length l) + at_new_index) 0
             else Z.min at_new_index (Z.of_nat (List.length l))
  | _ => SET_decompose_right new_value at_new_index = None
  end.
Proof.
  destruct new_value as [| b | x | s | l]; try reflexivity.
  - do 2 eexists. split; [reflexivity|]. split.
    + unfold string_slice.
      rewrite <- string_of_list_ascii_app, slice_concat_any.
      apply string_of_list_ascii_of_string.
    + rewrite string_slice_length, slice_prefix_length_any, list_ascii_length.
      reflexivity.
  - do 2 eexists. split; [reflexivity|]. split.
    + apply slice_concat_any.
    + rewrite slice_prefix_length_any. reflexivity.
Qed.

(** X4: the length changes of the two parts of a decomposition add up
    to the length change of the whole.  When [SET.decompose_right]
    splits a SET (of a sequence shorter than 2^53) into a left and a
    right SET, the change of the left one on a sequence of length [a]
    plus the change of the right one on a sequence of length [b] is the
    change of the whole SET on a sequence of length [a + b].  NO_OP
    decomposes into two NO_OPs, whose length changes add up likewise. *)
Theorem decompose_right_length_changes (new_value l r : value) (i n a b : Z) :
  SET_decompose_right new_value i = Some (SET l, SET r) ->
  value_length new_value = Some n -> n < 2 ^ 53 ->
  0 <= a -> 0 <= b -> a + b < 2 ^ 53 ->
  (exists ca cb c,
      SET_get_length_change l (of_Z a) = Ret ca
      /\ SET_get_length_change r (of_Z b) = Ret cb
      /\ SET_get_length_change new_value (of_Z (a + b)) = Ret c
      /\ num_add ca cb = c)
  /\ (forall at_old_index at_new_index x y z,
         NO_OP_decompose_right at_old_index at_new_index = (NO_OP, NO_OP)
         /\ num_add (NO_OP_get_length_change x) (NO_OP_get_length_change y)
            = NO_OP_get_length_change z).
Proof.
  intros H Hn Bn Pa Pb Bab.
  split; [|intros; split; reflexivity].
  destruct (decompose_right_lengths _ _ _ _ _ H Hn) as (nl & nr & Hl & Hr & Pl & Pr & E).
  assert (Ha : forall v m k, value_length v = Some m -> safe m -> safe k -> safe (m - k) ->
             SET_get_length_change v (of_Z k) = Ret (of_Z (m - k))).
  { intros v m k Hv Sm Sk Smk.
    destruct v; cbn in Hv |- *; try discriminate; injection Hv as ->;
      now rewrite num_sub_exact. }
  exists (of_Z (nl - a)), (of_Z (nr - b)), (of_Z (n - (a + b))).
  repeat match goal with |- _ /\ _ => split end.
  - apply Ha; [assumption|..]; unfold safe; lia.
  - apply Ha; [assumption|..]; unfold safe; lia.
  - apply Ha; [assumption|..]; unfold safe; lia.
  - rewrite num_add_exact by (unfold safe; lia). f_equal. lia.
Qed.

Lemma decompose_right_length_changes_witness :
  (exists ca cb c,
      SET_get_length_change (VStr "he") (of_Z 1) = Ret ca
      /\ SET_get_length_change (VStr "llo") (of_Z 1) = Ret cb
      /\ SET_get_length_change (VStr "hello") (of_Z (1 + 1)) = Ret c
      /\ num_add ca cb = c)
  /\ (forall at_old_index at_new_index x y z,
         NO_OP_decompose_right at_old_index at_new_index = (NO_OP, NO_OP)
         /\ num_add (NO_OP_get_length_change x) (NO_OP_get_length_change y)
            = NO_OP_get_length_change z).
Proof.
  apply (decompose_right_length_changes (VStr "hello") (VStr "he") (VStr "llo") 2 5 1 1);
    first [reflexivity | lia].
Defined.

(** ** What [MATH.apply] returns *)

(** X5: on an integer document of any magnitude, [and], [or], [xor] and
    [not] never throw and return a signed 32-bit integer, whatever the
    operand. *)
Theorem bitwise_result_is_int32 (m : math) (d : number) :
  In (operator m) ["and"; "or"; "xor"; "not"]%string ->
  isInteger d = true ->
  exists z, MATH_apply m (VNum d) = Ret (VNum (of_Z z)) /\ int32 z.
Proof.
  intros H Hd.
  pose proof (ToInt32_range d) as Rd.
  destruct m as [k|k|k md|k|k|k|]; cbn in H;
    try (repeat destruct H as [H|H]; try discriminate H; contradiction);
    cbn [MATH_apply]; rewrite Hd; eexists; (split; [reflexivity|]);
    try pose proof (int32_scalar k); auto with regime.
Qed.

Lemma bitwise_result_is_int32_witness :
  exists z,
    MATH_apply (Mor (SNum (of_Z 0))) (VNum (of_Z (2 ^ 31))) = Ret (VNum (of_Z z))
    /\ int32 z.
Proof.
  apply (bitwise_result_is_int32 (Mor (SNum (of_Z 0))) (of_Z (2 ^ 31))).
  - cbn. tauto.
  - reflexivity.
Defined.

(** X6: [rot] keeps the document in the range its header asks for.  On
    an integer document [d] with [0 <= d < m] and a non-negative
    increment [k] (the sum below 2^53), [rot [k, m]] returns
    [(d + k) mod m], again a non-negative integer less than the
    modulus. *)
Theorem rot_stays_below_modulus (k m d : Z) :
  0 <= k -> 0 <= d < m -> m < 2 ^ 53 -> d + k < 2 ^ 53 ->
  exists r,
    apply (MATH (Mrot (of_Z k) (of_Z m))) (VNum (of_Z d)) = Ret (VNum (of_Z r))
    /\ r = (d + k) mod m /\ 0 <= r < m.
Proof.
  intros Hk Hd Hm Hs. exists ((d + k) mod m).
  split; [apply apply_rot; lia|]. split; [reflexivity|].
  apply Z.mod_pos_bound. lia.
Qed.

Lemma rot_stays_below_modulus_witness :
  exists r,
    apply (MATH (Mrot (of_Z 4) (of_Z 5))) (VNum (of_Z 3)) = Ret (VNum (of_Z r))
    /\ r = (3 + 4) mod 5 /\ 0 <= r < 5.
Proof. apply (rot_stays_below_modulus 4 5 3); lia. Defined.

(** X7: a [rot] whose modulus is zero does not throw on an integer
    document: it returns NaN, whatever the increment.  From NaN no MATH
    operation leads back to a number: [add] and [mult] return NaN and
    the other operators throw. *)
Theorem rot_modulus_zero (k d : number) (s : bool) :
  isInteger d = true ->
  apply (MATH (Mrot k (S754_zero s))) (VNum d) = Ret (VNum S754_nan)
  /\ (forall m v, apply (MATH m) (VNum S754_nan) = Ret v -> v = VNum S754_nan).
Proof.
  intro Hd. split.
  - cbn [apply MATH_apply]. rewrite Hd. do 2 f_equal.
    unfold num_rem. destruct (num_add d k); reflexivity.
  - intros m v. cbn [apply MATH_apply].
    destruct m; cbn; intro H; try discriminate H; injection H as <-; reflexivity.
Qed.

Lemma rot_modulus_zero_witness :
  apply (MATH (Mrot (of_Z 1) (S754_zero false))) (VNum (of_Z 2)) = Ret (VNum S754_nan)
  /\ (forall m v, apply (MATH m) (VNum S754_nan) = Ret v -> v = VNum S754_nan).
Proof. apply (rot_modulus_zero (of_Z 1) (of_Z 2) false). reflexivity. Defined.

(** X8: what [MATH.apply] returns on a boolean document, operator by
    operator.  [and] on [true] and [or] on [false] return the operand
    itself, so a numeric operand comes back as it is, a number that was
    not converted to an integer; [add], [mult] and [rot] throw; in every
    other case the result is a boolean. *)
Theorem MATH_apply_on_boolean (m : math) (b : bool) :
  match m, b with
  | Mand (SNum k), true | Mor (SNum k), false =>
      MATH_apply m (VBool b) = Ret (VNum k)
  | (Madd _ | Mmult _ | Mrot _ _), _ => MATH_apply m (VBool b) = Raise
  | _, _ => exists b', MATH_apply m (VBool b) = Ret (VBool b')
  end.
Proof.
  destruct m as [k|k|k md|[k|k]|[k|k]|[k|k]|], b; cbn [MATH_apply scalar_value];
    try reflexivity; eexists; reflexivity.
Qed.

(** X9: [and] and [or] are idempotent.  On a number document, or with
    a boolean operand, when [and] (or [or]) returns, applying it again
    to the result returns the result. *)
Theorem and_or_idempotent (m : math) (document v : value) :
  In (operator m) ["and"; "or"]%string ->
  (exists x, document = VNum x) \/ (exists b, operand m = VBool b) ->
  apply (MATH m) document = Ret v ->
  apply (MATH m) v = Ret v.
Proof.
  intros H Ht Hv.
  destruct m as [k|k|k md|k|k|k|]; cbn in H;
    try (repeat destruct H as [H|H]; try discriminate H; contradiction);
    clear H; cbn [apply] in *.
  - (* and *)
    destruct document as [|b|x|s|l]; try discriminate Hv.
    + destruct Ht as [[x Hx]|[c Hc]]; [discriminate Hx|].
      destruct k as [k|k]; [discriminate Hc|].
      cbn in Hv. injection Hv as <-. destruct b, k; reflexivity.
    + cbn [MATH_apply] in Hv. destruct (isInteger x) eqn:Hd; [|discriminate Hv].
      injection Hv as <-. cbn [MATH_apply].
      pose proof (ToInt32_range x). pose proof (int32_scalar k).
      rewrite isInteger_of_Z, ToInt32_of_Z by auto with regime.
      now rewrite land_idem.
  - (* or *)
    destruct document as [|b|x|s|l]; try discriminate Hv.
    + destruct Ht as [[x Hx]|[c Hc]]; [discriminate Hx|].
      destruct k as [k|k]; [discriminate Hc|].
      cbn in Hv. injection Hv as <-. destruct b, k; reflexivity.
    + cbn [MATH_apply] in Hv. destruct (isInteger x) eqn:Hd; [|discriminate Hv].
      injection Hv as <-. cbn [MATH_apply].
      pose proof (ToInt32_range x). pose proof (int32_scalar k).
      rewrite isInteger_of_Z, ToInt32_of_Z by auto with regime.
      now rewrite lor_idem.
Qed.

Lemma and_or_idempotent_witness :
  apply (MATH (Mand (SNum (of_Z 12)))) (VNum (of_Z 8)) = Ret (VNum (of_Z 8)).
Proof.
  apply (and_or_idempotent (Mand (SNum (of_Z 12))) (VNum (of_Z 10)) (VNum (of_Z 8))).
  - cbn. tauto.
  - left. now eexists.
  - reflexivity.
Defined.

(** ** Inverses on every document *)

(** X10: the inverse of an inverse.  For [add], [rot], [xor] and [not],
    with any operand and whatever the two documents, inverting the
    inverse gives the operation back. *)
Theorem inverse_of_inverse (m : math) (document document' : value) :
  In (operator m) ["add"; "rot"; "xor"; "not"]%string ->
  exists B,
    MATH_inverse m document = Some (MATH B)
    /\ MATH_inverse B document' = Some (MATH m).
Proof.
  intro H.
  destruct m as [k|k|k md|k|k|k|]; cbn in H;
    try (repeat destruct H as [H|H]; try discriminate H; contradiction);
    eexists; (split; [reflexivity|]); cbn [MATH_inverse];
    rewrite ?num_neg_involutive; reflexivity.
Qed.

Lemma inverse_of_inverse_witness :
  exists B,
    MATH_inverse (Mrot (of_Z 1) (of_Z 3)) VNull = Some (MATH B)
    /\ MATH_inverse B VNull = Some (MATH (Mrot (of_Z 1) (of_Z 3))).
Proof.
  apply (inverse_of_inverse (Mrot (of_Z 1) (of_Z 3)) VNull VNull).
  cbn. tauto.
Defined.

(** X11: on an integer document [d] of any magnitude and with any
    operand, [and], [or], [xor] or [not] followed by its inverse returns
    [ToInt32(d)]: the document is restored when it is a signed 32-bit
    integer, and reduced modulo 2^32 otherwise. *)
Theorem bitwise_inverse_is_ToInt32 (m : math) (d : number) :
  In (operator m) ["and"; "or"; "xor"; "not"]%string ->
  isInteger d = true ->
  exists B,
    inverse (MATH m) (VNum d) = Some B
    /\ (d' <- apply (MATH m) (VNum d) ;; apply B d') = Ret (VNum (of_Z (ToInt32 d))).
Proof.
  intros H Hd. pose proof (ToInt32_range d) as Rd.
  destruct m as [k|k|k md|k|k|k|]; cbn in H;
    try (repeat destruct H as [H|H]; try discriminate H; contradiction);
    (eexists; split; [reflexivity|]);
    cbn [apply MATH_apply value_int32]; rewrite Hd; cbn [bind MATH_apply scalar_int32];
    try pose proof (int32_scalar k);
    rewrite isInteger_of_Z, !ToInt32_of_Z by auto with regime.
  - now rewrite lor_land_lnot.
  - now rewrite lxor_lor_lnot.
  - now rewrite lxor_lxor_same.
  - now rewrite Z.lnot_involutive.
Qed.

Lemma bitwise_inverse_is_ToInt32_witness :
  exists B,
    inverse (MATH (Mor (SNum (of_Z 1)))) (VNum (of_Z (2 ^ 32 + 4))) = Some B
    /\ (d' <- apply (MATH (Mor (SNum (of_Z 1)))) (VNum (of_Z (2 ^ 32 + 4))) ;;
        apply B d')
       = Ret (VNum (of_Z (ToInt32 (of_Z (2 ^ 32 + 4))))).
Proof.
  apply (bitwise_inverse_is_ToInt32 (Mor (SNum (of_Z 1))) (of_Z (2 ^ 32 + 4))).
  - cbn. tauto.
  - reflexivity.
Defined.

(** X12: the inverse of [rot] restores the document exactly when the
    rotation did not wrap around.  For integers [0 < k < m < 2^53] and
    [0 <= d < m] with [d + k < 2^53], so that no sum is rounded,
    [rot [k, m]] followed by its inverse [rot [-k, m]] returns [d] when
    [d + k < m], and [d - m], a negative number, otherwise (the
    remainder takes the sign of the dividend). *)
Theorem rot_inverse_after_wrap (k m d : Z) :
  0 < k < m -> 0 <= d < m -> m < 2 ^ 53 -> d + k < 2 ^ 53 ->
  exists B,
    inverse (MATH (Mrot (of_Z k) (of_Z m))) (VNum (of_Z d)) = Some B
    /\ (d' <- apply (MATH (Mrot (of_Z k) (of_Z m))) (VNum (of_Z d)) ;; apply B d')
       = Ret (VNum (of_Z (if d + k <? m then d else d - m))).
Proof.
  intros Hk Hd Hm Hs.
  eexists. split; [reflexivity|].
  rewrite apply_rot by lia. cbn [bind].
  rewrite num_neg_of_Z by (unfold safe; lia).
  cbn [apply MATH_apply].
  pose proof (Z.mod_pos_bound (d + k) m ltac:(lia)) as Hr.
  rewrite isInteger_of_Z by (unfold safe; lia).
  rewrite num_add_exact by (unfold safe; lia).
  destruct (Z.ltb_spec (d + k) m) as [Hlt|Hge].
  - rewrite Z.mod_small by lia.
    replace (d + k + - k) with d by lia.
    rewrite num_rem_exact by lia. now rewrite Z.mod_small by lia.
  - replace ((d + k) mod m) with (d + k - m).
    2:{ apply Z.mod_unique with (q := 1); lia. }
    replace (d + k - m + - k) with (- (m - d)) by lia.
    rewrite num_rem_neg by lia.
    rewrite Z.mod_small by lia.
    replace (d - m) with (- (m - d)) by lia.
    rewrite (of_Z_of_sign (- (m - d))) by (unfold safe; lia).
    replace (- (m - d) <? 0) with true by (symmetry; apply Z.ltb_lt; lia).
    f_equal. f_equal. f_equal. lia.
Qed.

Lemma rot_inverse_after_wrap_witness :
  exists B,
    inverse (MATH (Mrot (of_Z 1) (of_Z 3))) (VNum (of_Z 2)) = Some B
    /\ (d' <- apply (MATH (Mrot (of_Z 1) (of_Z 3))) (VNum (of_Z 2)) ;; apply B d')
       = Ret (VNum (of_Z (if 2 + 1 <? 3 then 2 else 2 - 3))).
Proof. apply (rot_inverse_after_wrap 1 3 2); lia. Defined.

(** X13: the inverse of [mult 0] is [mult Infinity] (of the sign of the
    zero), and it restores no document: on every number, [mult 0]
    followed by its inverse returns NaN. *)
Theorem mult_zero_inverse_gives_NaN (s : bool) (x : number) (document : value) :
  inverse (MATH (Mmult (S754_zero s))) document
  = Some (MATH (Mmult (S754_infinity s)))
  /\ (d' <- apply (MATH (Mmult (S754_zero s))) (VNum x) ;;
      apply (MATH (Mmult (S754_infinity s))) d')
     = Ret (VNum S754_nan).
Proof.
  split.
  - destruct s; reflexivity.
  - cbn [apply MATH_apply bind]. do 2 f_equal. unfold num_mul.
    destruct x as [sx|sx| |sx mx ex]; reflexivity.
Qed.

(** ** Simplification and composition on every operand *)

Ltac simp :=
  cbv beta iota delta [simplify MATH_simplify NO_OP_simplify SET_simplify
                       scalar_strict_zero scalar_strict_false scalar_loose_zero].

(** X14: [simplify] reaches its fixed point in two passes.  For every
    MATH whose numeric operands are doubles, simplifying a third time
    changes nothing. *)
Theorem simplify_stable_after_two_passes (m : math) :
  math_doubles m = true ->
  simplify (simplify (simplify (MATH m))) = simplify (simplify (MATH m)).
Proof.
  intro H.
  destruct m as [k|k|k md|[k|k]|[k|k]|[k|k]|]; simp; try reflexivity;
    try (destruct (num_eqb k _) eqn:E; simp; rewrite ?E; reflexivity);
    try (destruct k; reflexivity).
  cbn [math_doubles] in H. apply andb_true_iff in H as [Hk Hm].
  destruct (num_eqb k (of_Z 0)) eqn:E; simp; [reflexivity|].
  rewrite num_rem_idempotent by assumption.
  destruct (num_eqb (num_rem k md) (of_Z 0)) eqn:E'; simp; [reflexivity|].
  rewrite E'. now rewrite num_rem_idempotent by assumption.
Qed.

Lemma simplify_stable_after_two_passes_witness :
  simplify (simplify (simplify (MATH (Mrot (of_Z 6) (of_Z 3)))))
  = simplify (simplify (MATH (Mrot (of_Z 6) (of_Z 3)))).
Proof.
  apply (simplify_stable_after_two_passes (Mrot (of_Z 6) (of_Z 3))). reflexivity.
Defined.

(** X15: one pass of [simplify] is not enough for a full turn.  Two
    rotations of the same integer modulus [0 < m < 2^53] whose
    non-negative integer increments add up to a positive multiple of [m]
    below 2^53 compose to [rot [0, m]], not to NO_OP: [simplify] reduces
    the increment modulo [m] after it has tested it against zero.
    Simplifying [rot [0, m]] once more gives NO_OP. *)
Theorem full_turn_is_not_simplified_away (a b m : Z) :
  0 <= a -> 0 <= b -> 0 < a + b < 2 ^ 53 -> 0 < m < 2 ^ 53 -> (a + b) mod m = 0 ->
  atomic_compose (MATH (Mrot (of_Z a) (of_Z m))) (MATH (Mrot (of_Z b) (of_Z m)))
  = Ret (Some (MATH (Mrot (of_Z 0) (of_Z m))))
  /\ simplify (MATH (Mrot (of_Z (a + b)) (of_Z m))) = MATH (Mrot (of_Z 0) (of_Z m))
  /\ simplify (MATH (Mrot (of_Z 0) (of_Z m))) = NO_OP.
Proof.
  intros Ha Hb Hab Hm Hdiv.
  assert (Sa : safe a) by (unfold safe; lia).
  assert (Sb : safe b) by (unfold safe; lia).
  assert (Sab : safe (a + b)) by (unfold safe; lia).
  assert (Sm : safe m) by (unfold safe; lia).
  assert (E : simplify (MATH (Mrot (of_Z (a + b)) (of_Z m)))
              = MATH (Mrot (of_Z 0) (of_Z m))).
  { simp. rewrite num_eqb_of_Z by auto with regime.
    replace (a + b =? 0) with false by (symmetry; apply Z.eqb_neq; lia).
    rewrite num_rem_exact by lia. now rewrite Hdiv. }
  split; [|split].
  - cbn [atomic_compose]. unfold MATH_atomic_compose.
    rewrite num_eqb_of_Z, Z.eqb_refl by assumption.
    rewrite num_add_exact by assumption. cbn [simplify] in E. now rewrite E.
  - exact E.
  - simp. now rewrite num_eqb_of_Z, Z.eqb_refl by auto with regime.
Qed.

Lemma full_turn_is_not_simplified_away_witness :
  atomic_compose (MATH (Mrot (of_Z 1) (of_Z 3))) (MATH (Mrot (of_Z 2) (of_Z 3)))
  = Ret (Some (MATH (Mrot (of_Z 0) (of_Z 3))))
  /\ simplify (MATH (Mrot (of_Z (1 + 2)) (of_Z 3))) = MATH (Mrot (of_Z 0) (of_Z 3))
  /\ simplify (MATH (Mrot (of_Z 0) (of_Z 3))) = NO_OP.
Proof.
  apply (full_turn_is_not_simplified_away 1 2 3); first [reflexivity | lia].
Defined.

(** X16: the operations are commutative under composition, as the
    header of [values.js] says: for two MATHs with the same operator,
    whatever their operands (for [rot], with the same modulus, or any
    modulus but zero), [A.atomic_compose(B)] and [B.atomic_compose(A)]
    are the same operation, or both null. *)
Theorem atomic_compose_symmetric (A B : math) :
  operator A = operator B ->
  match A, B with
  | Mrot _ ma, Mrot _ mb => ma = mb \/ num_eqb ma (of_Z 0) = false
  | _, _ => True
  end ->
  MATH_atomic_compose A (MATH B) = MATH_atomic_compose B (MATH A).
Proof.
  intros Hop Hm.
  destruct A as [a|a|a ma|[a|a]|[a|a]|[a|a]|], B as [b|b|b mb|[b|b]|[b|b]|[b|b]|];
    try discriminate Hop; cbn [MATH_atomic_compose]; try reflexivity.
  - now rewrite num_add_comm.
  - now rewrite num_mul_comm.
  - rewrite (num_eqb_sym mb ma).
    destruct (num_eqb ma mb) eqn:E; [|reflexivity].
    rewrite (num_add_comm b a).
    destruct Hm as [->|Hz]; [reflexivity|].
    assert (ma = mb); [|now subst].
    unfold num_eqb in *.
    destruct ma as [s1|s1| |s1 m1 e1], mb as [s2|s2| |s2 m2 e2];
      try discriminate E; try (vm_compute in Hz; discriminate Hz);
      first [ now apply SFeqb_finite_eq
            | destruct s1, s2; try discriminate E; reflexivity ].
  - now rewrite Z.land_comm.
  - now rewrite andb_comm.
  - now rewrite Z.lor_comm.
  - now rewrite orb_comm.
  - now rewrite Z.lxor_comm.
  - now rewrite Z.lxor_comm.
Qed.

Lemma atomic_compose_symmetric_witness :
  MATH_atomic_compose (Mrot (of_Z 1) (of_Z 5)) (MATH (Mrot (of_Z 2) (of_Z 5)))
  = MATH_atomic_compose (Mrot (of_Z 2) (of_Z 5)) (MATH (Mrot (of_Z 1) (of_Z 5))).
Proof.
  apply (atomic_compose_symmetric (Mrot (of_Z 1) (of_Z 5)) (Mrot (of_Z 2) (of_Z 5)));
    [reflexivity | now left].
Defined.

(** ** Rebase without the prior document *)

(** X17: two MATHs that do not have the same operator (or, for [rot],
    the same modulus) rebase only when the conflictless argument carries
    the prior document.  With no conflictless argument, or a conflictless
    object without the prior document, the rebase function returns null
    in both directions, whatever the order; with a conflictless argument
    that is truthy and no object, such as [true], the test
    ["document" in conflictless] throws, in both directions. *)
Theorem MATH_rebase_needs_document (cmp : value -> value -> Z) (A B : math) :
  same_operator A B = false ->
  MATH_rebase_MATH cmp A B Off = Ret None
  /\ MATH_rebase_MATH cmp B A Off = Ret None
  /\ MATH_rebase_MATH cmp A B (On None) = Ret None
  /\ MATH_rebase_MATH cmp B A (On None) = Ret None
  /\ MATH_rebase_MATH cmp A B Truthy = Raise
  /\ MATH_rebase_MATH cmp B A Truthy = Raise.
Proof.
  intros HS. unfold MATH_rebase_MATH.
  rewrite (same_operator_sym B A), HS. repeat split.
Qed.

Lemma MATH_rebase_needs_document_witness :
  MATH_rebase_MATH (fun _ _ => -1) (Mrot (of_Z 1) (of_Z 3)) (Mrot (of_Z 1) (of_Z 5)) Off
  = Ret None
  /\ MATH_rebase_MATH (fun _ _ => -1) (Mrot (of_Z 1) (of_Z 5)) (Mrot (of_Z 1) (of_Z 3)) Off
     = Ret None
  /\ MATH_rebase_MATH (fun _ _ => -1) (Mrot (of_Z 1) (of_Z 3)) (Mrot (of_Z 1) (of_Z 5))
       (On None) = Ret None
  /\ MATH_rebase_MATH (fun _ _ => -1) (Mrot (of_Z 1) (of_Z 5)) (Mrot (of_Z 1) (of_Z 3))
       (On None) = Ret None
  /\ MATH_rebase_MATH (fun _ _ => -1) (Mrot (of_Z 1) (of_Z 3)) (Mrot (of_Z 1) (of_Z 5))
       Truthy = Raise
  /\ MATH_rebase_MATH (fun _ _ => -1) (Mrot (of_Z 1) (of_Z 5)) (Mrot (of_Z 1) (of_Z 3))
       Truthy = Raise.
Proof.
  apply (MATH_rebase_needs_document (fun _ _ => -1) (Mrot (of_Z 1) (of_Z 3))
           (Mrot (of_Z 1) (of_Z 5))).
  reflexivity.
Defined.

(** ** Repeated rotation *)

Lemma rot_iter (k m d : Z) (n : nat) :
  0 <= k -> 0 <= d < m -> m + k < 2 ^ 53 ->
  Nat.iter n (fun r => d' <- r ;; apply (MATH (Mrot (of_Z k) (of_Z m))) d')
    (Ret (VNum (of_Z d)))
  = Ret (VNum (of_Z ((d + Z.of_nat n * k) mod m))).
Proof.
  intros Hk Hd Hm.
  induction n as [|n IH].
  - replace (d + Z.of_nat 0 * k) with d by lia.
    rewrite Z.mod_small by lia. reflexivity.
  - rewrite Nat.iter_succ, IH. cbn [bind].
    pose proof (Z.mod_pos_bound (d + Z.of_nat n * k) m ltac:(lia)) as Hr.
    rewrite apply_rot by lia.
    rewrite Z.add_mod_idemp_l by lia.
    now replace (d + Z.of_nat (S n) * k) with (d + Z.of_nat n * k + k) by lia.
Qed.

(** X18: [rot [k, m]] applied [n] times in a row to a document [d] with
    [0 <= d < m] (non-negative increment, [m + k] below 2^53) returns
    [(d + n * k) mod m]; so [m] applications give the document back. *)
Theorem rot_repeated (k m d : Z) (n : nat) :
  0 <= k -> 0 <= d < m -> m + k < 2 ^ 53 ->
  Nat.iter n (fun r => d' <- r ;; apply (MATH (Mrot (of_Z k) (of_Z m))) d')
    (Ret (VNum (of_Z d)))
  = Ret (VNum (of_Z ((d + Z.of_nat n * k) mod m)))
  /\ Nat.iter (Z.to_nat m) (fun r => d' <- r ;; apply (MATH (Mrot (of_Z k) (of_Z m))) d')
       (Ret (VNum (of_Z d)))
     = Ret (VNum (of_Z d)).
Proof.
  intros Hk Hd Hm. split; [now apply rot_iter|].
  rewrite rot_iter by assumption.
  rewrite Z2Nat.id by lia.
  rewrite (Z.mul_comm m k), Z.mod_add by lia. now rewrite Z.mod_small by lia.
Qed.

Lemma rot_repeated_witness :
  Nat.iter 2 (fun r => d' <- r ;; apply (MATH (Mrot (of_Z 2) (of_Z 5))) d')
    (Ret (VNum (of_Z 3)))
  = Ret (VNum (of_Z ((3 + Z.of_nat 2 * 2) mod 5)))
  /\ Nat.iter (Z.to_nat 5) (fun r => d' <- r ;; apply (MATH (Mrot (of_Z 2) (of_Z 5))) d')
       (Ret (VNum (of_Z 3)))
     = Ret (VNum (of_Z 3)).
Proof. apply (rot_repeated 2 5 3 2); lia. Defined.
